(** * aimock: the mock response engine of an OpenAI-compatible stub server

    A shallow embedding of [main.go]: the latency middleware, the model
    check and the two request handlers, the token estimator and the seeded
    embedding generator, with the properties the specification states
    about them.

    Conventions of the embedding.
    - A Go [string] is a sequence of bytes: Rocq's [string].  [len] is the
      number of bytes; [range] decodes UTF-8.
    - [int], [int64] and [time.Duration] are 64-bit two's-complement
      integers: [Z] with the wrap-around written out ([wrap64]).
    - [float64] is the kernel's binary64 ([PrimFloat.float]); operations
      round to nearest even and are not fused.
    - [math/rand] is a library: its generators are the class [RandSource],
      whose methods are taken as they are documented.
    - Handlers are state transformers over a [World] holding the process
      wide random generator, the clock and the log. *)

From Stdlib Require Import ZArith List String Ascii Bool Lia.
From Stdlib Require Import Floats Reals Lra.
Import ListNotations.

Local Open Scope string_scope.
Local Open Scope Z_scope.

(* ================================================================== *)
(** * Machine integers *)

(** Signed 64-bit wrap-around: the representative of [z] modulo [2^64]
    in [[-2^63, 2^63)]. *)
Definition wrap64 (z : Z) : Z := (z + 2 ^ 63) mod 2 ^ 64 - 2 ^ 63.

Definition add64 (x y : Z) : Z := wrap64 (x + y).
Definition sub64 (x y : Z) : Z := wrap64 (x - y).
Definition mul64 (x y : Z) : Z := wrap64 (x * y).

Definition in_int64 (z : Z) : Prop := - 2 ^ 63 <= z < 2 ^ 63.

(** [len(s)] for a string. *)
Definition len (s : string) : Z := Z.of_nat (String.length s).

(** The bytes of a string, as numbers in [[0, 256)]. *)
Fixpoint bytes (s : string) : list Z :=
  match s with
  | EmptyString => []
  | String a s' => Z.of_N (N_of_ascii a) :: bytes s'
  end.

(* ================================================================== *)
(** * [for _, c := range input]: UTF-8 decoding

    A range loop over a string yields its runes.  A byte below [0x80] is
    its own rune; otherwise the runtime decodes a sequence of two, three
    or four bytes, and on anything that is not the shortest encoding of a
    scalar value it yields [U+FFFD] and advances by one byte. *)

Definition runeError : Z := 0xFFFD.
Definition runeSelf : Z := 0x80.
Definition maxRune : Z := 0x10FFFF.
Definition surrogateMin : Z := 0xD800.
Definition surrogateMax : Z := 0xDFFF.

Definition t2 : Z := 0xC0.
Definition t3 : Z := 0xE0.
Definition t4 : Z := 0xF0.
Definition t5 : Z := 0xF8.
Definition maskx : Z := 0x3F.
Definition mask2 : Z := 0x1F.
Definition mask3 : Z := 0x0F.
Definition mask4 : Z := 0x07.
Definition rune1Max : Z := 0x7F.
Definition rune2Max : Z := 0x7FF.
Definition rune3Max : Z := 0xFFFF.
Definition locb : Z := 0x80.
Definition hicb : Z := 0xBF.

(** A continuation byte. *)
Definition cont (b : Z) : bool := (locb <=? b) && (b <=? hicb).

(** The code point a sequence of two, three or four bytes spells. *)
Definition rune2 (b0 b1 : Z) : Z :=
  Z.lor (Z.shiftl (Z.land b0 mask2) 6) (Z.land b1 maskx).
Definition rune3 (b0 b1 b2 : Z) : Z :=
  Z.lor (Z.lor (Z.shiftl (Z.land b0 mask3) 12) (Z.shiftl (Z.land b1 maskx) 6))
        (Z.land b2 maskx).
Definition rune4 (b0 b1 b2 b3 : Z) : Z :=
  Z.lor (Z.lor (Z.lor (Z.shiftl (Z.land b0 mask4) 18)
                      (Z.shiftl (Z.land b1 maskx) 12))
               (Z.shiftl (Z.land b2 maskx) 6))
        (Z.land b3 maskx).

(** The runes of a byte sequence, in order.  The recursive calls are on
    the tail after one, two, three or four bytes. *)
Fixpoint decodeRunes (s : list Z) : list Z :=
  match s with
  | [] => []
  | b0 :: s1 =>
    if b0 <? runeSelf then b0 :: decodeRunes s1
    else if (t2 <=? b0) && (b0 <? t3) then
      match s1 with
      | b1 :: s2 =>
        let r := rune2 b0 b1 in
        if cont b1 && (rune1Max <? r) then r :: decodeRunes s2
        else runeError :: decodeRunes s1
      | _ => runeError :: decodeRunes s1
      end
    else if (t3 <=? b0) && (b0 <? t4) then
      match s1 with
      | b1 :: (b2 :: s3) as s2 =>
        let r := rune3 b0 b1 b2 in
        if cont b1 && cont b2 && (rune2Max <? r)
           && negb ((surrogateMin <=? r) && (r <=? surrogateMax))
        then r :: decodeRunes s3
        else runeError :: decodeRunes s1
      | _ => runeError :: decodeRunes s1
      end
    else if (t4 <=? b0) && (b0 <? t5) then
      match s1 with
      | b1 :: (b2 :: (b3 :: s4) as s3) as s2 =>
        let r := rune4 b0 b1 b2 b3 in
        if cont b1 && cont b2 && cont b3 && (rune3Max <? r) && (r <=? maxRune)
        then r :: decodeRunes s4
        else runeError :: decodeRunes s1
      | _ => runeError :: decodeRunes s1
      end
    else runeError :: decodeRunes s1
  end.

Definition runes (s : string) : list Z := decodeRunes (bytes s).

(** The UTF-8 encoding of a code point (the shortest form), used to say
    which byte strings spell which characters. *)
Definition encodeRune (c : Z) : list Z :=
  if c <=? rune1Max then [c]
  else if c <=? rune2Max then
    [Z.lor t2 (Z.shiftr c 6); Z.lor locb (Z.land c maskx)]
  else if c <=? rune3Max then
    [Z.lor t3 (Z.shiftr c 12);
     Z.lor locb (Z.land (Z.shiftr c 6) maskx);
     Z.lor locb (Z.land c maskx)]
  else
    [Z.lor t4 (Z.shiftr c 18);
     Z.lor locb (Z.land (Z.shiftr c 12) maskx);
     Z.lor locb (Z.land (Z.shiftr c 6) maskx);
     Z.lor locb (Z.land c maskx)].

Definition encodeRunes (cs : list Z) : list Z := flat_map encodeRune cs.

(** A Unicode scalar value: a code point that is not a surrogate. *)
Definition scalar (c : Z) : Prop :=
  0 <= c <= maxRune /\ ~ (surrogateMin <= c <= surrogateMax).

(** The string with the given bytes (each taken modulo 256). *)
Fixpoint string_of_bytes (bs : list Z) : string :=
  match bs with
  | [] => EmptyString
  | b :: bs' => String (ascii_of_N (Z.to_N b)) (string_of_bytes bs')
  end.

(* ================================================================== *)
(** * [float64] and its conversions *)

(** [float64(z)] for an integer: the nearest binary64, ties to even. *)
Definition float64_of_int (z : Z) : float :=
  SF2Prim (binary_normalize prec emax z 0 false).

(** [int64(f)]: truncation toward zero.  Outside the range of [int64],
    and for infinities and NaN, the result is the platform's (amd64 gives
    the least [int64]). *)
Definition int64_of_float64 (f : float) : Z :=
  match Prim2SF f with
  | S754_zero _ => 0
  | S754_finite s m e =>
    let a := if 0 <=? e then Z.pos m * 2 ^ e else Z.pos m / 2 ^ (- e) in
    let v := if s then - a else a in
    if (- 2 ^ 63 <=? v) && (v <? 2 ^ 63) then v else - 2 ^ 63
  | _ => - 2 ^ 63
  end.

(* ================================================================== *)
(** * [math/rand]

    A generator is a state with the two methods the program calls.
    [NewSource seed] is the state of [rand.New(rand.NewSource(seed))]: a
    function of the seed alone.  The two ranges are the documented ones:
    [Float64] returns a number in [[0.0, 1.0)], [Intn n] one in [[0, n)]. *)
Class RandSource : Type := {
  rng : Type;
  NewSource : Z -> rng;
  Float64 : rng -> float * rng;
  Intn : Z -> rng -> Z * rng;
  Float64_range : forall r : rng,
    (0 <=? fst (Float64 r))%float = true /\ (fst (Float64 r) <? 1)%float = true;
  Intn_range : forall (n : Z) (r : rng), 0 < n -> 0 <= fst (Intn n r) < n
}.

(* ================================================================== *)
(** * Types of [main.go] *)

(** A slice is [nil] or holds elements; [range] and [len] see a nil slice
    as empty. *)
Inductive slice (A : Type) : Type :=
| nil_slice : slice A
| mk_slice : list A -> slice A.
Arguments nil_slice {A}.
Arguments mk_slice {A} _.

Definition elems {A : Type} (s : slice A) : list A :=
  match s with nil_slice => [] | mk_slice l => l end.

Definition is_nil {A : Type} (s : slice A) : bool :=
  match s with nil_slice => true | mk_slice _ => false end.

Record Models : Type := mkModels {
  Embedding : list string;
  Chat : list string
}.

Record Config : Type := mkConfig {
  Port : Z;
  MinLatency : Z;
  MaxLatency : Z;
  ConfigModels : Models
}.

Record ChatCompletionMessage : Type := mkMessage {
  Role : string;
  Content : string
}.

Record ChatCompletionRequest : Type := mkChatRequest {
  ChatModel : string;
  Messages : slice ChatCompletionMessage
}.

Record ChatChoice : Type := mkChoice {
  ChoiceIndex : Z;
  ChoiceMessage : ChatCompletionMessage;
  FinishReason : string
}.

Record ChatUsage : Type := mkChatUsage {
  PromptTokens : Z;
  CompletionTokens : Z;
  TotalTokens : Z
}.

Record ChatCompletionResponse : Type := mkChatResponse {
  ID : string;
  ChatObject : string;
  Created : Z;
  ChatRespModel : string;
  Choices : list ChatChoice;
  Usage : ChatUsage
}.

Record EmbeddingRequest : Type := mkEmbeddingRequest {
  EmbModel : string;
  Input : slice string
}.

Record EmbeddingData : Type := mkEmbeddingData {
  DataObject : string;
  DataEmbedding : slice float;
  DataIndex : Z
}.

Record EmbeddingUsage : Type := mkEmbeddingUsage {
  EmbPromptTokens : Z;
  EmbTotalTokens : Z
}.

Record EmbeddingResponse : Type := mkEmbeddingResponse {
  EmbObject : string;
  Data : list EmbeddingData;
  EmbRespModel : string;
  EmbUsage : EmbeddingUsage
}.

(** [gin.H] and the inner [map[string]interface{}] of the error reply:
    finite maps from keys to values, here with string values. *)
Definition strmap : Type := list (string * string).

Fixpoint lookup (k : string) (m : strmap) : option string :=
  match m with
  | [] => None
  | (k', v) :: m' => if String.eqb k k' then Some v else lookup k m'
  end.

(** What [c.JSON(status, obj)] writes. *)
Inductive Body : Type :=
| ErrorBody (error : strmap)
| ChatBody (r : ChatCompletionResponse)
| EmbeddingBody (r : EmbeddingResponse).

Record Response : Type := mkResponse {
  status : Z;
  body : Body
}.

Definition StatusOK : Z := 200.
Definition StatusBadRequest : Z := 400.

(* ================================================================== *)
(** * The program *)

Section Engine.

Context {RS : RandSource}.

(** ** The world a request runs in

    The generator behind the package-level [rand.Float64] and
    [rand.Intn], the clock in nanoseconds since the epoch, the durations
    passed to [time.Sleep] so far, and the log. *)
Record World : Type := mkWorld {
  globalRand : rng;
  clock : Z;
  sleeps : list Z;
  logs : list string
}.

(** A computation returns a value and a new world, or panics. *)
Inductive Result (A : Type) : Type :=
| Ok (a : A) (w : World)
| Panic (msg : string).
Arguments Ok {A} _ _.
Arguments Panic {A} _.

Definition M (A : Type) : Type := World -> Result A.

Definition ret {A : Type} (a : A) : M A := fun w => Ok a w.

Definition bind {A B : Type} (m : M A) (k : A -> M B) : M B :=
  fun w => match m w with
           | Ok a w' => k a w'
           | Panic msg => Panic msg
           end.

Definition panic {A : Type} (msg : string) : M A := fun _ => Panic msg.

Notation "x <- m ;; k" := (bind m (fun x => k))
  (at level 61, m at next level, right associativity).
Notation "m ;;; k" := (bind m (fun _ => k))
  (at level 61, right associativity).

Definition rand_Float64 : M float :=
  fun w => let (u, g) := Float64 (globalRand w) in
           Ok u (mkWorld g (clock w) (sleeps w) (logs w)).

Definition rand_Intn (n : Z) : M Z :=
  fun w => if n <=? 0 then Panic "invalid argument to Intn"
           else let (k, g) := Intn n (globalRand w) in
                Ok k (mkWorld g (clock w) (sleeps w) (logs w)).

(** [time.Sleep d] returns at once when [d <= 0]. *)
Definition time_Sleep (d : Z) : M unit :=
  fun w => Ok tt (mkWorld (globalRand w) (clock w + Z.max d 0)
                          (sleeps w ++ [d]) (logs w)).

Definition time_Now_Unix : M Z :=
  fun w => Ok (clock w / 1000000000) w.

Definition log_Printf (msg : string) : M unit :=
  fun w => Ok tt (mkWorld (globalRand w) (clock w) (sleeps w) (logs w ++ [msg])).

(** ** [simulateLatencyMiddleware] *)

Definition simulateLatencyMiddleware {A : Type} (min max : Z) (next : M A) : M A :=
  (if 0 <? min then
     latency <- (if min <? max then
                   u <- rand_Float64 ;;
                   ret (add64 min
                          (int64_of_float64
                             (float64_of_int (sub64 max min) * u)%float))
                 else ret min) ;;
     time_Sleep latency
   else ret tt) ;;;
  next.

(** ** Helpers *)

Definition charset : string :=
  "abcdefghijklmnopqrstuvwxyzABCDEFGHIJKLMNOPQRSTUVWXYZ0123456789".

(** [s[i]]: indexing past the end panics. *)
Definition index (s : string) (i : Z) : M ascii :=
  if i <? 0 then panic "index out of range"
  else match String.get (Z.to_nat i) s with
       | Some a => ret a
       | None => panic "index out of range"
       end.

(** The loop of [randomID] over the [n] bytes of [result]. *)
Fixpoint randomBytes (n : nat) : M string :=
  match n with
  | O => ret EmptyString
  | S n' =>
    k <- rand_Intn (len charset) ;;
    a <- index charset k ;;
    rest <- randomBytes n' ;;
    ret (String a rest)
  end.

Definition randomID (length : Z) : M string :=
  if length <? 0 then panic "makeslice: len out of range"
  else randomBytes (Z.to_nat length).

(** The token estimate of one text. *)
Definition tokensOf (s : string) : Z := Z.quot (len s) 4.

Definition calculateTokens (messages : slice ChatCompletionMessage) : Z :=
  fold_left (fun tokens msg => add64 tokens (tokensOf (Content msg)))
            (elems messages) 0.

(** ** [generateMockEmbedding] *)

(** The first loop over [embedding]: [n] draws from [r], each mapped to
    [r.Float64()*2 - 1]. *)
Fixpoint drawRaw (n : nat) (r : rng) : list float :=
  match n with
  | O => []
  | S n' => let (u, r') := Float64 r in (u * 2 - 1)%float :: drawRaw n' r'
  end.

(** [make] panics on a negative length: [None]. *)
Definition generateMockEmbedding (input : string) (dimensions : Z)
  : option (list float) :=
  let seed := fold_left (fun seed c => add64 (mul64 seed 31) c) (runes input) 0 in
  let r := NewSource seed in
  if dimensions <? 0 then None
  else
    let embedding := drawRaw (Z.to_nat dimensions) r in
    let sum := fold_left (fun sum v => (sum + v * v)%float) embedding 0%float in
    let magnitude := PrimFloat.sqrt sum in
    Some (map (fun v => (v / magnitude)%float) embedding).

(** ** The model check shared by the two handlers *)

(** The loop that sets [modelSupported]. *)
Fixpoint modelSupported (models : list string) (requested : string) : bool :=
  match models with
  | [] => false
  | model :: rest =>
    if String.eqb model requested then true else modelSupported rest requested
  end.

Definition isEmpty (s : string) : bool := String.eqb s "".

(** The reply to an unsupported model. *)
Definition modelNotFound (model : string) : Response :=
  mkResponse StatusBadRequest
    (ErrorBody
       [("message", "The model '" ++ model ++ "' does not exist");
        ("type", "invalid_request_error");
        ("param", "model");
        ("code", "model_not_found")]).

(** [config.Models.X[0]] when the request names no model and the list
    is not empty. *)
Definition defaultModel (requested : string) (models : list string) : string :=
  if isEmpty requested then
    match models with
    | first :: _ => first
    | [] => requested
    end
  else requested.

(** ** [handleChatCompletions]

    [req] is the request as [c.ShouldBindJSON] left it and [bindErr] the
    error it returned, if any. *)
Definition handleChatCompletions
    (req : ChatCompletionRequest) (bindErr : option string) (config : Config)
  : M Response :=
  match bindErr with
  | Some err =>
    log_Printf ("Warning: Malformed chat completion request: " ++ err
                ++ ". Continuing with default values.")
  | None => ret tt
  end ;;;
  if negb (modelSupported (Chat (ConfigModels config)) (ChatModel req))
     && negb (isEmpty (ChatModel req))
  then ret (modelNotFound (ChatModel req))
  else
    let model := defaultModel (ChatModel req) (Chat (ConfigModels config)) in
    let messages :=
      if is_nil (Messages req)
      then mk_slice [mkMessage "user" "Hello"]
      else Messages req in
    id <- randomID 29 ;;
    now <- time_Now_Unix ;;
    ret (mkResponse StatusOK
           (ChatBody
              (mkChatResponse
                 ("chatcmpl-" ++ id)
                 "chat.completion"
                 now
                 model
                 [mkChoice 0
                    (mkMessage "assistant"
                       "This is a mock response from the OpenAI API emulator. Your request has been processed successfully.")
                    "stop"]
                 (mkChatUsage
                    (calculateTokens messages)
                    20
                    (add64 (calculateTokens messages) 20))))).

(** ** [handleEmbeddings] *)

(** [response.Data[i] = v]: assignment past the end panics. *)
Fixpoint setAt {A : Type} (l : list A) (i : nat) (v : A) : option (list A) :=
  match l, i with
  | [], _ => None
  | _ :: l', O => Some (v :: l')
  | x :: l', S i' =>
    match setAt l' i' v with
    | Some l'' => Some (x :: l'')
    | None => None
    end
  end.

(** A call, from a handler, of code that may panic. *)
Definition call {A : Type} (r : option A) (msg : string) : M A :=
  match r with
  | Some a => ret a
  | None => panic msg
  end.

(** The loop over [req.Input], from index [i] on, updating [response]. *)
Fixpoint embedInputs (inputs : list string) (i : nat) (response : EmbeddingResponse)
  : M EmbeddingResponse :=
  match inputs with
  | [] => ret response
  | input :: rest =>
    embedding <- call (generateMockEmbedding input 1536)
                      "makeslice: len out of range" ;;
    data <- call (setAt (Data response) i
                    (mkEmbeddingData "embedding" (mk_slice embedding) (Z.of_nat i)))
                 "index out of range" ;;
    let tokens := tokensOf input in
    embedInputs rest (S i)
      (mkEmbeddingResponse
         (EmbObject response)
         data
         (EmbRespModel response)
         (mkEmbeddingUsage
            (add64 (EmbPromptTokens (EmbUsage response)) tokens)
            (add64 (EmbTotalTokens (EmbUsage response)) tokens)))
  end.

Definition handleEmbeddings
    (req : EmbeddingRequest) (bindErr : option string) (config : Config)
  : M Response :=
  match bindErr with
  | Some err =>
    log_Printf ("Warning: Malformed embedding request: " ++ err
                ++ ". Continuing with default values.")
  | None => ret tt
  end ;;;
  if negb (modelSupported (Embedding (ConfigModels config)) (EmbModel req))
     && negb (isEmpty (EmbModel req))
  then ret (modelNotFound (EmbModel req))
  else
    let model := defaultModel (EmbModel req) (Embedding (ConfigModels config)) in
    let input :=
      if is_nil (Input req)
      then mk_slice ["Default input text"]
      else Input req in
    response <- embedInputs (elems input) 0
                  (mkEmbeddingResponse
                     "list"
                     (repeat (mkEmbeddingData "" nil_slice 0)
                             (List.length (elems input)))
                     model
                     (mkEmbeddingUsage 0 0)) ;;
    ret (mkResponse StatusOK (EmbeddingBody response)).

End Engine.

Arguments Ok {RS A} _ _.
Arguments Panic {RS A} _.

(* ================================================================== *)
(** * The rest of the server: [handleModels], the router, the
      configuration *)

(** ** Types *)

Record ModelData : Type := mkModelData {
  ModelID : string;
  ModelObject : string;
  ModelCreated : Z;
  OwnedBy : string
}.

Record ModelsResponse : Type := mkModelsResponse {
  ModelsObject : string;
  ModelsData : slice ModelData
}.

(** [append(s, x)]: the result holds the elements of [s] and then [x],
    and is never nil. *)
Definition append {A : Type} (s : slice A) (x : A) : slice A :=
  mk_slice (elems s ++ [x])%list.

(** The JSON structure of the configuration file. *)
Record ConfigFile : Type := mkConfigFile {
  FilePort : Z;
  FileMinLatency : string;
  FileMaxLatency : string;
  FileModels : Models
}.

(** A value, or the [error] returned in its place (as its message). *)
Inductive orError (A : Type) : Type :=
| Got (a : A)
| Err (err : string).
Arguments Got {A} _.
Arguments Err {A} _.

(** The libraries [loadConfig] calls: [os.Open], the decoding of the
    opened file by [encoding/json] into a [ConfigFile], and
    [time.ParseDuration].  Each returns a value or an error. *)
Class Platform : Type := {
  File : Type;
  os_Open : string -> orError File;
  json_Decode : File -> orError ConfigFile;
  time_ParseDuration : string -> orError Z
}.

(** The package-level variables the flags are parsed into. *)
Record Flags : Type := mkFlags {
  port : Z;
  minLatency : Z;
  maxLatency : Z;
  configFile : string
}.

Definition defaultPort : Z := 8080.

(** What a handler reads of its [gin.Context]: the request structure
    [c.ShouldBindJSON] leaves for each of the two request types, and the
    error it returns. *)
Record GinContext : Type := mkContext {
  boundChat : ChatCompletionRequest;
  chatErr : option string;
  boundEmbedding : EmbeddingRequest;
  embeddingErr : option string
}.

(** What a handler writes with [c.JSON]. *)
Inductive Written : Type :=
| WrittenJSON (r : Response)
| WrittenModels (status : Z) (r : ModelsResponse).

Section Server.

Context {RS : RandSource}.

Notation "x <- m ;; k" := (bind m (fun x => k))
  (at level 61, m at next level, right associativity).
Notation "m ;;; k" := (bind m (fun _ => k))
  (at level 61, right associativity).

(** ** [handleModels] *)

(** One of the two loops that append a model entry per configured name. *)
Fixpoint appendModels (models : list string) (response : ModelsResponse)
  : M ModelsResponse :=
  match models with
  | [] => ret response
  | model :: rest =>
    now <- time_Now_Unix ;;
    appendModels rest
      (mkModelsResponse
         (ModelsObject response)
         (append (ModelsData response)
            (mkModelData model "model" (sub64 now (86400 * 30)) "openai")))
  end.

Definition handleModels (config : Config) : M (Z * ModelsResponse) :=
  let response := mkModelsResponse "list" (mk_slice []) in
  response <- appendModels (Chat (ConfigModels config)) response ;;
  response <- appendModels (Embedding (ConfigModels config)) response ;;
  ret (StatusOK, response).

(** ** [setupRouter]

    The routes registered, each with its handler chain: the latency
    middleware installed by [router.Use], then the handler.  ([gin.Default]
    also installs a logger and a recovery from panics, which are not part
    of this model.) *)
Record RouteInfo : Type := mkRoute {
  Method : string;
  Path : string;
  HandlerFunc : GinContext -> M Written
}.

Definition setupRouter (config : Config) : list RouteInfo :=
  let use := fun (handler : GinContext -> M Written) (c : GinContext) =>
    simulateLatencyMiddleware (MinLatency config) (MaxLatency config) (handler c) in
  let apiGroup := "/v1" in
  [ mkRoute "POST" (apiGroup ++ "/chat/completions")
      (use (fun c =>
              r <- handleChatCompletions (boundChat c) (chatErr c) config ;;
              ret (WrittenJSON r)));
    mkRoute "POST" (apiGroup ++ "/embeddings")
      (use (fun c =>
              r <- handleEmbeddings (boundEmbedding c) (embeddingErr c) config ;;
              ret (WrittenJSON r)));
    mkRoute "GET" (apiGroup ++ "/models")
      (use (fun c =>
              r <- handleModels config ;;
              ret (WrittenModels (fst r) (snd r)))) ].

(** ** [loadConfig] and the configuration [main] serves with *)

Context {PF : Platform}.

Definition loadConfig (configPath : string) : orError Config :=
  if isEmpty configPath then Got (mkConfig 0 0 0 (mkModels [] []))
  else
    match os_Open configPath with
    | Err err => Err err
    | Got file =>
      match json_Decode file with
      | Err err => Err err
      | Got configFile =>
        match time_ParseDuration (FileMinLatency configFile) with
        | Err err => Err ("invalid min_latency: " ++ err)
        | Got minLatency =>
          match time_ParseDuration (FileMaxLatency configFile) with
          | Err err => Err ("invalid max_latency: " ++ err)
          | Got maxLatency =>
            Got (mkConfig (FilePort configFile) minLatency maxLatency
                          (FileModels configFile))
          end
        end
      end
    end.

(** [main] up to its call of [setupRouter]: the configuration loaded, or
    the defaults when loading fails, then overridden by the flags. *)
Definition mainConfig (flags : Flags) : M Config :=
  config <- match loadConfig (configFile flags) with
            | Err err =>
              log_Printf ("Warning: Failed to load config file: " ++ err
                          ++ ". Using default and command-line settings.") ;;;
              ret (mkConfig defaultPort 0 0
                     (mkModels ["text-embedding-ada-002"]
                               ["gpt-3.5-turbo"; "gpt-4"]))
            | Got config => ret config
            end ;;
  let config :=
    if negb (port flags =? defaultPort)
    then mkConfig (port flags) (MinLatency config) (MaxLatency config)
                  (ConfigModels config)
    else config in
  let config :=
    if negb (minLatency flags =? 0)
    then mkConfig (Port config) (minLatency flags) (MaxLatency config)
                  (ConfigModels config)
    else config in
  let config :=
    if negb (maxLatency flags =? 0)
    then mkConfig (Port config) (MinLatency config) (maxLatency flags)
                  (ConfigModels config)
    else config in
  ret config.

End Server.

(* ================================================================== *)
(** * Two generators

    The class is inhabited.  [halfSource] always draws [0.5], the one
    value that [u*2 - 1] sends to zero; [tableSource] cycles through a
    table of five values. *)

Definition halfTable : list float := [0.25; 0.75; 0.5; 0.125; 0.875]%float.

Definition tableDraw (r : nat) : float := nth (r mod 5)%nat halfTable 0.5%float.

Definition tableSource : RandSource.
Proof.
  refine {| rng := nat;
            NewSource := fun seed => Z.to_nat (seed mod 5);
            Float64 := fun r => (tableDraw r, S r);
            Intn := fun n r => (Z.of_nat r mod n, S r) |}.
  - intros r. cbn [fst]. unfold tableDraw.
    assert (H : (r mod 5 < 5)%nat) by (apply Nat.mod_upper_bound; discriminate).
    destruct (r mod 5)%nat as [|[|[|[|[|k]]]]]; try (split; reflexivity).
    lia.
  - intros n r Hn. cbn [fst]. apply Z.mod_pos_bound. exact Hn.
Defined.

Definition halfSource : RandSource.
Proof.
  refine {| rng := unit;
            NewSource := fun _ => tt;
            Float64 := fun r => (0.5%float, r);
            Intn := fun _ r => (0, r) |}.
  - intros r. split; reflexivity.
  - intros n r Hn. cbn [fst]. lia.
Defined.

(* ================================================================== *)
(** * Notions the specification uses *)

(** The seed as the specification writes it: [seed*31 + codepoint(c)]
    reduced once into the signed 64-bit range, over a list of code
    points. *)
Definition foldSeed (cs : list Z) : Z :=
  fold_left (fun seed c => wrap64 (seed * 31 + c)) cs 0.

(** The seed of a string: the fold over its runes. *)
Definition hashSeed (input : string) : Z := foldSeed (runes input).

Section Notions.

Context {RS : RandSource}.

(** The sum of the squares, from the left. *)
Definition sumSquares (embedding : list float) : float :=
  fold_left (fun sum v => (sum + v * v)%float) embedding 0%float.

(** Every component divided by the magnitude. *)
Definition normalize (embedding : list float) : list float :=
  map (fun v => (v / PrimFloat.sqrt (sumSquares embedding))%float) embedding.

(** The raw vector of a seed: the first [n] draws of the generator
    seeded with it, each as [u*2 - 1]. *)
Definition rawOfSeed (seed : Z) (n : nat) : list float :=
  drawRaw n (NewSource seed).

(** The draws themselves: the first [n] values of [r.Float64()]. *)
Fixpoint draws (n : nat) (r : rng) : list float :=
  match n with
  | O => []
  | S n' => let (u, r') := Float64 r in u :: draws n' r'
  end.

(** The vector of a seed. *)
Definition embeddingOfSeed (seed : Z) (n : nat) : list float :=
  normalize (rawOfSeed seed n).

(** The entries of an embeddings response for the inputs, from index [i]. *)
Fixpoint entriesFrom (i : nat) (inputs : list string) : list EmbeddingData :=
  match inputs with
  | [] => []
  | input :: rest =>
    mkEmbeddingData "embedding"
      (mk_slice (embeddingOfSeed (hashSeed input) 1536)) (Z.of_nat i)
    :: entriesFrom (S i) rest
  end.

(** The token estimate summed over texts, without wrap-around. *)
Definition sumTokens (texts : list string) : Z :=
  fold_right (fun s acc => len s / 4 + acc) 0 texts.

(** The messages a chat request is answered for. *)
Definition effectiveMessages (req : ChatCompletionRequest)
  : list ChatCompletionMessage :=
  match Messages req with
  | nil_slice => [mkMessage "user" "Hello"]
  | mk_slice l => l
  end.

(** The inputs an embeddings request is answered for. *)
Definition effectiveInput (req : EmbeddingRequest) : list string :=
  match Input req with
  | nil_slice => ["Default input text"]
  | mk_slice l => l
  end.

(** A world that differs from [w] at most in the state of the process
    wide generator and in the log. *)
Definition sameTime (w w' : World) : Prop :=
  clock w' = clock w /\ sleeps w' = sleeps w.

(** Whether the model check lets a request through. *)
Definition passes (models : list string) (requested : string) : bool :=
  modelSupported models requested || isEmpty requested.

(** The world after the warning a failed binding logs. *)
Definition afterBind (prefix : string) (bindErr : option string) (w : World) : World :=
  match bindErr with
  | Some err =>
    mkWorld (globalRand w) (clock w) (sleeps w)
      (logs w ++ [(prefix ++ err ++ ". Continuing with default values.")%string])
  | None => w
  end.

Definition theChoice : ChatChoice :=
  mkChoice 0
    (mkMessage "assistant"
       "This is a mock response from the OpenAI API emulator. Your request has been processed successfully.")
    "stop".

(** What the claim says of one reply [r] to a request for [model] checked
    against [models]. *)
Definition validated (models : list string) (model : string)
    (r : Result Response) : Prop :=
  (model <> "" -> In model models ->
   exists b w', r = Ok (mkResponse 200 b) w')
  /\ (model <> "" -> ~ In model models ->
      exists err w',
        r = Ok (mkResponse 400 (ErrorBody err)) w'
        /\ lookup "code" err = Some "model_not_found"
        /\ lookup "type" err = Some "invalid_request_error"
        /\ lookup "param" err = Some "model"
        /\ lookup "message" err
           = Some ("The model '" ++ model ++ "' does not exist")%string)
  /\ (model = "" -> exists b w', r = Ok (mkResponse 200 b) w').

(** What a computation returned, if it did. *)
Definition returned {A : Type} (r : Result A) : option A :=
  match r with
  | Ok a _ => Some a
  | Panic _ => None
  end.

(** The world after [time.Sleep d]. *)
Definition slept (d : Z) (g : rng) (w : World) : World :=
  mkWorld g (clock w + Z.max d 0) (sleeps w ++ [d]) (logs w).

End Notions.

(** The total number of bytes of some texts. *)
Definition totalLen (texts : list string) : Z :=
  fold_right (fun s acc => len s + acc) 0 texts.

(** A configuration with the default models, and a world whose generator
    is [tableSource]. *)
Definition config0 : Config :=
  mkConfig 8080 0 0
    (mkModels ["text-embedding-ada-002"] ["gpt-3.5-turbo"; "gpt-4"]).

Definition world0 : World (RS := tableSource) :=
  mkWorld (RS := tableSource) 0%nat 1700000000123456789 [] [].

(* ================================================================== *)
(** * Notions for the rest of the server *)

(** An ASCII letter or digit. *)
Definition alphanumeric (a : ascii) : bool :=
  let n := N_of_ascii a in
  ((48 <=? n) && (n <=? 57) || (65 <=? n) && (n <=? 90)
   || (97 <=? n) && (n <=? 122))%N.

(** [charset[k]], for an index within the charset. *)
Definition charAt (k : Z) : ascii :=
  match String.get (Z.to_nat k) charset with
  | Some a => a
  | None => Ascii.zero
  end.

Section ServerNotions.

Context {RS : RandSource}.

(** The string [randomID] builds for [n] bytes from a state of the
    generator, one [Intn] per byte, and the state it leaves. *)
Fixpoint drawID (n : nat) (g : rng) : string * rng :=
  match n with
  | O => (EmptyString, g)
  | S n' =>
    let (k, g') := Intn (len charset) g in
    let (rest, g'') := drawID n' g' in
    (String (charAt k) rest, g'')
  end.

(** The world with another state of the process wide generator. *)
Definition withRand (g : rng) (w : World) : World :=
  mkWorld g (clock w) (sleeps w) (logs w).

(** The world with one more line in the log. *)
Definition logged (msg : string) (w : World) : World :=
  mkWorld (globalRand w) (clock w) (sleeps w) (logs w ++ [msg])%list.

End ServerNotions.

(** A configuration with a latency between 100 ms and 300 ms, a request
    context, and a platform with two files: [config.json], which loads,
    and [broken.json], whose [min_latency] is empty. *)
Definition config1 : Config :=
  mkConfig 8080 100000000 300000000
    (mkModels ["text-embedding-ada-002"] ["gpt-3.5-turbo"; "gpt-4"]).

Definition context0 : GinContext :=
  mkContext (mkChatRequest "gpt-4" nil_slice) None
            (mkEmbeddingRequest "text-embedding-ada-002" (mk_slice ["a"; "bcde"]))
            None.

Definition tablePlatform : Platform :=
  {| File := ConfigFile;
     os_Open := fun path =>
       if String.eqb path "config.json"
       then Got (mkConfigFile 9000 "200ms" "500ms"
                   (mkModels ["text-embedding-3-small"] ["gpt-4-turbo"]))
       else if String.eqb path "broken.json"
       then Got (mkConfigFile 9000 "" "500ms"
                   (mkModels ["text-embedding-3-small"] ["gpt-4-turbo"]))
       else Err ("open " ++ path ++ ": no such file or directory");
     json_Decode := fun file => Got file;
     time_ParseDuration := fun s =>
       if String.eqb s "200ms" then Got 200000000
       else if String.eqb s "500ms" then Got 500000000
       else Err ("time: invalid duration " ++ s) |}.

(* ================================================================== *)
(** * binary64 numbers as real numbers

    The kernel's [float] is specified by [SpecFloat]: a float is a zero,
    an infinity, NaN, or a sign, a mantissa and an exponent.  The
    tolerance of the specification is stated on the real numbers the
    floats stand for. *)

Definition bpow (e : Z) : R := powerRZ 2 e.

Definition sgn (s : bool) : R := if s then (-1)%R else 1%R.

(** The real number a float stands for (0 for infinities and NaN). *)
Definition SF2R (x : spec_float) : R :=
  match x with
  | S754_finite s m e => (IZR (cond_Zopp s (Z.pos m)) * bpow e)%R
  | _ => 0%R
  end.

Definition SFfinite (x : spec_float) : bool :=
  match x with
  | S754_zero _ | S754_finite _ _ _ => true
  | _ => false
  end.

Definition F2R (x : float) : R := SF2R (Prim2SF x).

Definition finite (x : float) : Prop := SFfinite (Prim2SF x) = true.

(** The relative error of one rounded operation in the bounds below: one
    unit in the last place. *)
Definition eps : R := bpow (-52).

(** The least exponent of binary64. *)
Definition emin64 : Z := -1074.

(** A raw component: finite, and zero or of a magnitude far from the
    underflow and overflow thresholds. *)
Definition good (v : float) : Prop :=
  finite v /\ (F2R v = 0%R \/ (bpow (-55) <= Rabs (F2R v) <= bpow 3)%R).

(** The exact sum of the squares of the numbers a vector stands for, and
    its Euclidean norm. *)
Definition sumsq (vs : list float) : R :=
  fold_right (fun v acc => (F2R v * F2R v + acc)%R) 0%R vs.

Definition euclideanNorm (vs : list float) : R := R_sqrt.sqrt (sumsq vs).

(** The summing loop, from any value of [sum]. *)
Definition sumLoop (vs : list float) (s : float) : float :=
  fold_left (fun sum v => (sum + v * v)%float) vs s.

(* ================================================================== *)
(** * Facts on machine integers *)

Lemma wrap64_range (z : Z) : in_int64 (wrap64 z).
Proof.
  unfold in_int64, wrap64.
  pose proof (Z.mod_pos_bound (z + 2 ^ 63) (2 ^ 64) eq_refl) as H.
  change (2 ^ 64) with (2 ^ 63 + 2 ^ 63) in *.
  lia.
Qed.

Lemma wrap64_id (z : Z) : in_int64 z -> wrap64 z = z.
Proof.
  unfold in_int64, wrap64. intros H.
  rewrite Z.mod_small; [lia|].
  change (2 ^ 64) with (2 ^ 63 + 2 ^ 63). lia.
Qed.

Lemma wrap64_eqm (z : Z) : wrap64 z mod 2 ^ 64 = z mod 2 ^ 64.
Proof.
  unfold wrap64.
  rewrite Zminus_mod, Z.mod_mod by discriminate.
  rewrite <- Zminus_mod. f_equal. lia.
Qed.

Lemma wrap64_congr (a b : Z) : a mod 2 ^ 64 = b mod 2 ^ 64 -> wrap64 a = wrap64 b.
Proof.
  intros H. unfold wrap64.
  rewrite (Zplus_mod a), (Zplus_mod b), H. reflexivity.
Qed.

(** The two wrapped operations of [seed*31 + int64(c)] amount to one
    reduction of the exact value. *)
Lemma add64_mul64 (seed c : Z) : add64 (mul64 seed 31) c = wrap64 (seed * 31 + c).
Proof.
  unfold add64, mul64. apply wrap64_congr.
  rewrite Zplus_mod, wrap64_eqm, <- Zplus_mod. reflexivity.
Qed.

Lemma fold_left_ext {A B : Type} (f g : A -> B -> A) (l : list B) (a : A) :
  (forall x y, f x y = g x y) -> fold_left f l a = fold_left g l a.
Proof.
  intros H. revert a. induction l as [|b l IH]; intros a; simpl.
  - reflexivity.
  - rewrite H. apply IH.
Qed.

Lemma foldSeed_range (cs : list Z) : in_int64 (foldSeed cs).
Proof.
  unfold foldSeed.
  assert (G : forall a, in_int64 a ->
            in_int64 (fold_left (fun seed c => wrap64 (seed * 31 + c)) cs a)).
  { induction cs as [|c cs IH]; intros a Ha; simpl.
    - exact Ha.
    - apply IH, wrap64_range. }
  apply G. unfold in_int64. lia.
Qed.

(* ================================================================== *)
(** * Facts on UTF-8: decoding an encoding *)

Local Open Scope list_scope.

Lemma land_shiftl_small (a b n : Z) :
  0 <= n -> 0 <= b < 2 ^ n -> Z.land (a * 2 ^ n) b = 0.
Proof.
  intros Hn Hb. apply Z.bits_inj'. intros i Hi.
  rewrite Z.land_spec, Z.bits_0.
  destruct (Z.lt_ge_cases i n) as [Hlt|Hge].
  - rewrite Z.mul_pow2_bits_low by lia. reflexivity.
  - destruct (Z.eq_dec b 0) as [->|Hb0].
    + rewrite Z.bits_0. apply andb_false_r.
    + rewrite (Z.bits_above_log2 b i); [apply andb_false_r | lia |].
      apply Z.log2_lt_pow2; [lia|].
      apply Z.lt_le_trans with (2 ^ n); [lia|].
      apply Z.pow_le_mono_r; lia.
Qed.

Lemma lor_disjoint (a b n : Z) :
  0 <= n -> 0 <= b < 2 ^ n -> Z.lor (a * 2 ^ n) b = a * 2 ^ n + b.
Proof.
  intros Hn Hb.
  pose proof (Z.add_lor_land (a * 2 ^ n) b) as H.
  rewrite land_shiftl_small in H by assumption. lia.
Qed.

Lemma land_mask (x n : Z) : 0 <= n -> Z.land x (2 ^ n - 1) = x mod 2 ^ n.
Proof.
  intros Hn. rewrite <- Z.land_ones by exact Hn.
  rewrite Z.ones_equiv, <- Z.sub_1_r. reflexivity.
Qed.

Ltac pow2 :=
  repeat match goal with
         | |- context [2 ^ ?n] =>
           let v := eval compute in (2 ^ n) in change (2 ^ n) with v
         end.


Lemma decode_step1 (b0 : Z) (s : list Z) :
  b0 < runeSelf -> decodeRunes (b0 :: s) = b0 :: decodeRunes s.
Proof.
  intros H. apply Z.ltb_lt in H. simpl. rewrite H. reflexivity.
Qed.

Lemma decode_step2 (b0 b1 : Z) (s : list Z) :
  t2 <= b0 < t3 -> locb <= b1 <= hicb -> rune1Max < rune2 b0 b1 ->
  decodeRunes (b0 :: b1 :: s) = rune2 b0 b1 :: decodeRunes s.
Proof.
  unfold t2, t3, locb, hicb. intros H0 H1 Hr.
  remember (b1 :: s) as s1 eqn:Es1. cbn [decodeRunes].
  replace (b0 <? runeSelf) with false
    by (symmetry; apply Z.ltb_ge; unfold runeSelf; lia).
  replace ((t2 <=? b0) && (b0 <? t3)) with true
    by (symmetry; apply andb_true_iff; unfold t2, t3; split;
        [apply Z.leb_le | apply Z.ltb_lt]; lia).
  subst s1. cbv beta match.
  replace (cont b1 && (rune1Max <? rune2 b0 b1)) with true; [reflexivity|].
  symmetry. unfold cont, locb, hicb.
  rewrite !andb_true_iff, !Z.leb_le, Z.ltb_lt. lia.
Qed.

Lemma decode_step3 (b0 b1 b2 : Z) (s : list Z) :
  t3 <= b0 < t4 -> locb <= b1 <= hicb -> locb <= b2 <= hicb ->
  rune2Max < rune3 b0 b1 b2 ->
  ~ (surrogateMin <= rune3 b0 b1 b2 <= surrogateMax) ->
  decodeRunes (b0 :: b1 :: b2 :: s) = rune3 b0 b1 b2 :: decodeRunes s.
Proof.
  unfold t3, t4, locb, hicb. intros H0 H1 H2 Hr Hs.
  remember (b1 :: b2 :: s) as s1 eqn:Es1. cbn [decodeRunes].
  replace (b0 <? runeSelf) with false
    by (symmetry; apply Z.ltb_ge; unfold runeSelf; lia).
  replace ((t2 <=? b0) && (b0 <? t3)) with false
    by (symmetry; apply andb_false_iff; right; apply Z.ltb_ge; unfold t3; lia).
  replace ((t3 <=? b0) && (b0 <? t4)) with true
    by (symmetry; apply andb_true_iff; unfold t3, t4; split;
        [apply Z.leb_le | apply Z.ltb_lt]; lia).
  subst s1. cbv beta match.
  replace (cont b1 && cont b2 && (rune2Max <? rune3 b0 b1 b2)
           && negb ((surrogateMin <=? rune3 b0 b1 b2)
                    && (rune3 b0 b1 b2 <=? surrogateMax))) with true;
    [reflexivity|].
  symmetry. unfold cont, locb, hicb.
  rewrite !andb_true_iff, negb_true_iff, andb_false_iff, !Z.leb_le, Z.ltb_lt,
    Z.leb_gt, Z.leb_gt.
  lia.
Qed.

Lemma decode_step4 (b0 b1 b2 b3 : Z) (s : list Z) :
  t4 <= b0 < t5 -> locb <= b1 <= hicb -> locb <= b2 <= hicb ->
  locb <= b3 <= hicb ->
  rune3Max < rune4 b0 b1 b2 b3 <= maxRune ->
  decodeRunes (b0 :: b1 :: b2 :: b3 :: s) = rune4 b0 b1 b2 b3 :: decodeRunes s.
Proof.
  unfold t4, t5, locb, hicb. intros H0 H1 H2 H3 Hr.
  remember (b1 :: b2 :: b3 :: s) as s1 eqn:Es1. cbn [decodeRunes].
  replace (b0 <? runeSelf) with false
    by (symmetry; apply Z.ltb_ge; unfold runeSelf; lia).
  replace ((t2 <=? b0) && (b0 <? t3)) with false
    by (symmetry; apply andb_false_iff; right; apply Z.ltb_ge; unfold t3; lia).
  replace ((t3 <=? b0) && (b0 <? t4)) with false
    by (symmetry; apply andb_false_iff; right; apply Z.ltb_ge; unfold t4; lia).
  replace ((t4 <=? b0) && (b0 <? t5)) with true
    by (symmetry; apply andb_true_iff; unfold t4, t5; split;
        [apply Z.leb_le | apply Z.ltb_lt]; lia).
  subst s1. cbv beta match.
  replace (cont b1 && cont b2 && cont b3 && (rune3Max <? rune4 b0 b1 b2 b3)
           && (rune4 b0 b1 b2 b3 <=? maxRune)) with true; [reflexivity|].
  symmetry. unfold cont, locb, hicb.
  rewrite !andb_true_iff, !Z.leb_le, Z.ltb_lt. lia.
Qed.

Ltac dlia := Z.div_mod_to_equations; lia.

Ltac bits_to_arith :=
  rewrite ?Z.shiftr_div_pow2 by lia;
  change maskx with (2 ^ 6 - 1); change mask2 with (2 ^ 5 - 1);
  change mask3 with (2 ^ 4 - 1); change mask4 with (2 ^ 3 - 1);
  change t2 with (6 * 2 ^ 5); change t3 with (14 * 2 ^ 4);
  change t4 with (30 * 2 ^ 3); change locb with (2 * 2 ^ 6);
  rewrite ?land_mask by dlia;
  rewrite ?lor_disjoint by (pow2; dlia).

Lemma encode2_bytes (c : Z) :
  rune1Max < c <= rune2Max ->
  Z.lor t2 (Z.shiftr c 6) = 192 + c / 64
  /\ Z.lor locb (Z.land c maskx) = 128 + c mod 64.
Proof.
  unfold rune1Max, rune2Max. intros H. bits_to_arith. pow2. dlia.
Qed.

Lemma encode3_bytes (c : Z) :
  rune2Max < c <= rune3Max ->
  Z.lor t3 (Z.shiftr c 12) = 224 + c / 4096
  /\ Z.lor locb (Z.land (Z.shiftr c 6) maskx) = 128 + (c / 64) mod 64
  /\ Z.lor locb (Z.land c maskx) = 128 + c mod 64.
Proof.
  unfold rune2Max, rune3Max. intros H. bits_to_arith. pow2. dlia.
Qed.

Lemma encode4_bytes (c : Z) :
  rune3Max < c <= maxRune ->
  Z.lor t4 (Z.shiftr c 18) = 240 + c / 262144
  /\ Z.lor locb (Z.land (Z.shiftr c 12) maskx) = 128 + (c / 4096) mod 64
  /\ Z.lor locb (Z.land (Z.shiftr c 6) maskx) = 128 + (c / 64) mod 64
  /\ Z.lor locb (Z.land c maskx) = 128 + c mod 64.
Proof.
  unfold rune3Max, maxRune. intros H. bits_to_arith. pow2. dlia.
Qed.

Lemma rune2_arith (h l : Z) :
  0 <= h < 32 -> 0 <= l < 64 -> rune2 (192 + h) (128 + l) = h * 64 + l.
Proof.
  intros Hh Hl. unfold rune2.
  change mask2 with (2 ^ 5 - 1). change maskx with (2 ^ 6 - 1).
  rewrite !land_mask by dlia. rewrite Z.shiftl_mul_pow2 by dlia.
  rewrite lor_disjoint by (pow2; dlia). pow2. dlia.
Qed.

Lemma rune3_arith (h m l : Z) :
  0 <= h < 16 -> 0 <= m < 64 -> 0 <= l < 64 ->
  rune3 (224 + h) (128 + m) (128 + l) = h * 4096 + m * 64 + l.
Proof.
  intros Hh Hm Hl. unfold rune3.
  change mask3 with (2 ^ 4 - 1). change maskx with (2 ^ 6 - 1).
  rewrite !land_mask by dlia. rewrite !Z.shiftl_mul_pow2 by dlia.
  replace ((224 + h) mod 2 ^ 4) with h by (pow2; dlia).
  replace ((128 + m) mod 2 ^ 6) with m by (pow2; dlia).
  replace ((128 + l) mod 2 ^ 6) with l by (pow2; dlia).
  rewrite (lor_disjoint h (m * 2 ^ 6) 12) by (pow2; dlia).
  replace (h * 2 ^ 12 + m * 2 ^ 6) with ((h * 2 ^ 6 + m) * 2 ^ 6) by (pow2; dlia).
  rewrite lor_disjoint by (pow2; dlia). pow2. dlia.
Qed.

Lemma rune4_arith (h m1 m2 l : Z) :
  0 <= h < 8 -> 0 <= m1 < 64 -> 0 <= m2 < 64 -> 0 <= l < 64 ->
  rune4 (240 + h) (128 + m1) (128 + m2) (128 + l)
  = h * 262144 + m1 * 4096 + m2 * 64 + l.
Proof.
  intros Hh Hm1 Hm2 Hl. unfold rune4.
  change mask4 with (2 ^ 3 - 1). change maskx with (2 ^ 6 - 1).
  rewrite !land_mask by dlia. rewrite !Z.shiftl_mul_pow2 by dlia.
  replace ((240 + h) mod 2 ^ 3) with h by (pow2; dlia).
  replace ((128 + m1) mod 2 ^ 6) with m1 by (pow2; dlia).
  replace ((128 + m2) mod 2 ^ 6) with m2 by (pow2; dlia).
  replace ((128 + l) mod 2 ^ 6) with l by (pow2; dlia).
  rewrite (lor_disjoint h (m1 * 2 ^ 12) 18) by (pow2; dlia).
  replace (h * 2 ^ 18 + m1 * 2 ^ 12) with ((h * 2 ^ 6 + m1) * 2 ^ 12)
    by (pow2; dlia).
  rewrite (lor_disjoint (h * 2 ^ 6 + m1) (m2 * 2 ^ 6) 12) by (pow2; dlia).
  replace ((h * 2 ^ 6 + m1) * 2 ^ 12 + m2 * 2 ^ 6)
    with (((h * 2 ^ 6 + m1) * 2 ^ 6 + m2) * 2 ^ 6) by (pow2; dlia).
  rewrite lor_disjoint by (pow2; dlia). pow2. dlia.
Qed.

Lemma decode_encode (c : Z) (rest : list Z) :
  scalar c -> decodeRunes (encodeRune c ++ rest) = c :: decodeRunes rest.
Proof.
  unfold scalar. intros [Hr Hs]. unfold encodeRune.
  destruct (c <=? rune1Max) eqn:E1.
  { apply Z.leb_le in E1. apply decode_step1.
    unfold rune1Max in E1. unfold runeSelf. dlia. }
  apply Z.leb_gt in E1.
  destruct (c <=? rune2Max) eqn:E2.
  { apply Z.leb_le in E2.
    destruct (encode2_bytes c (conj E1 E2)) as [-> ->].
    unfold rune1Max, rune2Max in *.
    assert (Hv : rune2 (192 + c / 64) (128 + c mod 64) = c)
      by (rewrite rune2_arith; dlia).
    cbn [app].
    rewrite decode_step2
      by (rewrite ?Hv; unfold t2, t3, locb, hicb, rune1Max; dlia).
    rewrite Hv. reflexivity. }
  apply Z.leb_gt in E2.
  destruct (c <=? rune3Max) eqn:E3.
  { apply Z.leb_le in E3.
    destruct (encode3_bytes c (conj E2 E3)) as (-> & -> & ->).
    unfold rune2Max, rune3Max in *.
    assert (Hv : rune3 (224 + c / 4096) (128 + (c / 64) mod 64) (128 + c mod 64)
                 = c) by (rewrite rune3_arith; dlia).
    cbn [app].
    rewrite decode_step3
      by (rewrite ?Hv; first [exact Hs | unfold t3, t4, locb, hicb, rune2Max; dlia]).
    rewrite Hv. reflexivity. }
  apply Z.leb_gt in E3.
  assert (E4 : rune3Max < c <= maxRune) by dlia.
  destruct (encode4_bytes c E4) as (-> & -> & -> & ->).
  unfold rune3Max, maxRune in *.
  assert (Hv : rune4 (240 + c / 262144) (128 + (c / 4096) mod 64)
                 (128 + (c / 64) mod 64) (128 + c mod 64) = c)
    by (rewrite rune4_arith; dlia).
  cbn [app].
  rewrite decode_step4
    by (rewrite ?Hv; unfold t4, t5, locb, hicb, rune3Max, maxRune; dlia).
  rewrite Hv. reflexivity.
Qed.

Lemma decode_encodeRunes (cs : list Z) :
  Forall scalar cs -> decodeRunes (encodeRunes cs) = cs.
Proof.
  induction 1 as [|c cs Hc _ IH]; simpl.
  - reflexivity.
  - rewrite decode_encode by exact Hc. fold (encodeRunes cs). rewrite IH.
    reflexivity.
Qed.

Lemma encodeRune_bytes (c : Z) :
  0 <= c <= maxRune -> Forall (fun b => 0 <= b < 256) (encodeRune c).
Proof.
  intros Hr. unfold encodeRune.
  destruct (c <=? rune1Max) eqn:E1.
  { apply Z.leb_le in E1. unfold rune1Max in E1. repeat constructor; dlia. }
  apply Z.leb_gt in E1.
  destruct (c <=? rune2Max) eqn:E2.
  { apply Z.leb_le in E2.
    destruct (encode2_bytes c (conj E1 E2)) as [-> ->].
    unfold rune1Max, rune2Max in *. repeat constructor; dlia. }
  apply Z.leb_gt in E2.
  destruct (c <=? rune3Max) eqn:E3.
  { apply Z.leb_le in E3.
    destruct (encode3_bytes c (conj E2 E3)) as (-> & -> & ->).
    unfold rune2Max, rune3Max in *. repeat constructor; dlia. }
  apply Z.leb_gt in E3.
  assert (E4 : rune3Max < c <= maxRune) by dlia.
  destruct (encode4_bytes c E4) as (-> & -> & -> & ->).
  unfold rune3Max, maxRune in *. repeat constructor; dlia.
Qed.

Lemma bytes_string_of_bytes (bs : list Z) :
  Forall (fun b => 0 <= b < 256) bs -> bytes (string_of_bytes bs) = bs.
Proof.
  induction 1 as [|b bs Hb _ IH]; simpl.
  - reflexivity.
  - rewrite IH. f_equal.
    rewrite N_ascii_embedding by dlia. dlia.
Qed.

(* ================================================================== *)
(** * Facts on the generator *)

Section GeneratorFacts.

Context {RS : RandSource}.

Lemma drawRaw_length (n : nat) (r : rng) : List.length (drawRaw n r) = n.
Proof.
  revert r. induction n as [|n IH]; intros r; simpl.
  - reflexivity.
  - destruct (Float64 r) as [u r']. simpl. rewrite IH. reflexivity.
Qed.

Lemma normalize_length (e : list float) : List.length (normalize e) = List.length e.
Proof. unfold normalize. apply length_map. Qed.

Lemma embeddingOfSeed_length (seed : Z) (n : nat) :
  List.length (embeddingOfSeed seed n) = n.
Proof.
  unfold embeddingOfSeed, rawOfSeed.
  rewrite normalize_length. apply drawRaw_length.
Qed.

(** The generator as a function of the seed of its input. *)
Lemma generateMockEmbedding_seed (input : string) (dimensions : Z) :
  generateMockEmbedding input dimensions =
  if dimensions <? 0 then None
  else Some (embeddingOfSeed (hashSeed input) (Z.to_nat dimensions)).
Proof.
  unfold generateMockEmbedding, embeddingOfSeed, rawOfSeed, normalize,
    sumSquares, hashSeed, foldSeed.
  rewrite (fold_left_ext _ (fun seed c => wrap64 (seed * 31 + c)))
    by (intros; apply add64_mul64).
  reflexivity.
Qed.

Lemma generateMockEmbedding_1536 (input : string) :
  generateMockEmbedding input 1536 = Some (embeddingOfSeed (hashSeed input) 1536).
Proof. rewrite generateMockEmbedding_seed. reflexivity. Qed.

End GeneratorFacts.

(* ================================================================== *)
(** * Facts on the handlers *)

Local Open Scope list_scope.

Lemma get_in_range (s : string) (n : nat) :
  (n < String.length s)%nat -> exists a, String.get n s = Some a.
Proof.
  revert n. induction s as [|c s IH]; intros n H; simpl in H.
  - lia.
  - destruct n as [|n]; simpl.
    + eexists. reflexivity.
    + apply IH. lia.
Qed.

Lemma modelSupported_In (models : list string) (requested : string) :
  modelSupported models requested = true <-> In requested models.
Proof.
  induction models as [|model rest IH]; simpl.
  - split; [discriminate | tauto].
  - destruct (String.eqb model requested) eqn:E.
    + apply String.eqb_eq in E. split; auto.
    + apply String.eqb_neq in E. rewrite IH. split; [auto|].
      intros [H|H]; [contradiction | exact H].
Qed.

Lemma isEmpty_true (s : string) : isEmpty s = true <-> s = "".
Proof. unfold isEmpty. apply String.eqb_eq. Qed.

Lemma isEmpty_false (s : string) : isEmpty s = false <-> s <> "".
Proof. unfold isEmpty. apply String.eqb_neq. Qed.

Section HandlerFacts.

Context {RS : RandSource}.

Lemma index_charset (k : Z) (w : World) :
  0 <= k < len charset -> exists a, index charset k w = Ok a w.
Proof.
  intros [H0 H1]. unfold index.
  destruct (k <? 0) eqn:E; [apply Z.ltb_lt in E; lia|].
  destruct (get_in_range charset (Z.to_nat k)) as [a Ha].
  { unfold len in H1. lia. }
  rewrite Ha. exists a. reflexivity.
Qed.

(** [randomID] returns: the index drawn is always within the charset. *)
Lemma randomBytes_returns (n : nat) (w : World) :
  exists s w', randomBytes n w = Ok s w' /\ sameTime w w' /\ logs w' = logs w
               /\ String.length s = n.
Proof.
  revert w. induction n as [|n IH]; intros w; simpl.
  - exists EmptyString, w. unfold ret, sameTime. auto.
  - unfold bind, rand_Intn.
    change (len charset <=? 0) with false. cbv iota.
    pose proof (Intn_range (len charset) (globalRand w) eq_refl) as Hk.
    destruct (Intn (len charset) (globalRand w)) as [k g]. simpl in Hk.
    destruct (index_charset k (mkWorld g (clock w) (sleeps w) (logs w)) Hk)
      as [a Ha].
    rewrite Ha.
    destruct (IH (mkWorld g (clock w) (sleeps w) (logs w)))
      as (s & w' & Hs & [Hc Hsl] & Hl & Hlen).
    rewrite Hs. exists (String a s), w'. unfold ret, sameTime.
    simpl in *. repeat split; auto.
Qed.

Lemma randomID_returns (w : World) :
  exists s w', randomID 29 w = Ok s w' /\ sameTime w w' /\ logs w' = logs w
               /\ String.length s = 29%nat.
Proof.
  unfold randomID. change (29 <? 0) with false. cbv iota.
  apply randomBytes_returns.
Qed.

Lemma setAt_app {A : Type} (pre : list A) (x : A) (post : list A) (v : A) :
  setAt (pre ++ x :: post) (List.length pre) v = Some (pre ++ v :: post).
Proof.
  induction pre as [|p pre IH]; simpl.
  - reflexivity.
  - rewrite IH. reflexivity.
Qed.

(** The loop fills the entries from [i] on, one per input, and adds the
    token estimates; it touches nothing of the world. *)
Lemma embedInputs_returns (inputs : list string) :
  forall (pre post : list EmbeddingData) (zeros : list EmbeddingData)
         (obj model : string) (p t : Z) (w : World),
    List.length zeros = List.length inputs ->
    exists p' t',
      embedInputs inputs (List.length pre)
        (mkEmbeddingResponse obj (pre ++ zeros ++ post) model
           (mkEmbeddingUsage p t)) w
      = Ok (mkEmbeddingResponse obj
              (pre ++ entriesFrom (List.length pre) inputs ++ post) model
              (mkEmbeddingUsage p' t')) w
      /\ p' = fold_left (fun acc s => add64 acc (tokensOf s)) inputs p
      /\ t' = fold_left (fun acc s => add64 acc (tokensOf s)) inputs t.
Proof.
  induction inputs as [|input rest IH]; intros pre post zeros obj model p t w Hlen.
  - destruct zeros; [|discriminate]. simpl. exists p, t. unfold ret. auto.
  - destruct zeros as [|z zeros]; [discriminate|]. simpl in Hlen.
    injection Hlen as Hlen.
    cbn [embedInputs]. unfold bind at 1.
    rewrite generateMockEmbedding_1536. cbn [call]. unfold ret at 1.
    unfold bind at 1. cbn [Data app].
    rewrite setAt_app. cbn [call]. unfold ret at 1.
    cbn [EmbObject EmbRespModel EmbUsage EmbPromptTokens EmbTotalTokens].
    specialize (IH (pre ++ [mkEmbeddingData "embedding"
                              (mk_slice (embeddingOfSeed (hashSeed input) 1536))
                              (Z.of_nat (List.length pre))])
                   post zeros obj model
                   (add64 p (tokensOf input)) (add64 t (tokensOf input)) w Hlen).
    destruct IH as (p' & t' & Hrun & Hp & Ht).
    rewrite length_app in Hrun. simpl in Hrun.
    rewrite Nat.add_1_r in Hrun.
    rewrite <- !app_assoc in Hrun. simpl in Hrun.
    exists p', t'. split; [exact Hrun|]. simpl. auto.
Qed.

End HandlerFacts.

Section HandlerShapes.

Context {RS : RandSource}.

Lemma passes_negb (models : list string) (requested : string) :
  negb (modelSupported models requested) && negb (isEmpty requested)
  = negb (passes models requested).
Proof. unfold passes. rewrite negb_orb. reflexivity. Qed.

Lemma afterBind_sameTime (prefix : string) (bindErr : option string) (w : World) :
  sameTime w (afterBind prefix bindErr w).
Proof. destruct bindErr; unfold sameTime; simpl; auto. Qed.

Lemma chat_rejected (req : ChatCompletionRequest) (bindErr : option string)
    (config : Config) (w : World) :
  passes (Chat (ConfigModels config)) (ChatModel req) = false ->
  handleChatCompletions req bindErr config w
  = Ok (modelNotFound (ChatModel req))
       (afterBind "Warning: Malformed chat completion request: " bindErr w).
Proof.
  intros H. unfold handleChatCompletions, bind.
  rewrite passes_negb, H.
  destruct bindErr; reflexivity.
Qed.

Lemma chat_accepted (req : ChatCompletionRequest) (bindErr : option string)
    (config : Config) (w : World) :
  passes (Chat (ConfigModels config)) (ChatModel req) = true ->
  exists (id : string) (w' : World),
    handleChatCompletions req bindErr config w
    = Ok (mkResponse StatusOK
            (ChatBody
               (mkChatResponse ("chatcmpl-" ++ id)%string "chat.completion"
                  (clock w / 1000000000)
                  (defaultModel (ChatModel req) (Chat (ConfigModels config)))
                  [theChoice]
                  (mkChatUsage
                     (calculateTokens (mk_slice (effectiveMessages req)))
                     20
                     (add64 (calculateTokens (mk_slice (effectiveMessages req))) 20)))))
         w'
    /\ sameTime w w' /\ String.length id = 29%nat.
Proof.
  intros H. unfold handleChatCompletions.
  rewrite passes_negb, H. cbn [negb].
  set (w0 := afterBind "Warning: Malformed chat completion request: " bindErr w).
  destruct (randomID_returns w0) as (id & w' & Hid & [Hc Hs] & _ & Hlen).
  pose proof (afterBind_sameTime "Warning: Malformed chat completion request: "
                bindErr w) as [Hc0 Hs0].
  fold w0 in Hc0, Hs0.
  exists id, w'.
  assert (Hcalc : calculateTokens
                    (if is_nil (Messages req)
                     then mk_slice [mkMessage "user" "Hello"]
                     else Messages req)
                  = calculateTokens (mk_slice (effectiveMessages req))).
  { unfold effectiveMessages. destruct (Messages req); reflexivity. }
  split; [|split; [unfold sameTime; split; congruence | exact Hlen]].
  unfold bind.
  assert (Hpre : match bindErr with
                 | Some err =>
                   log_Printf ("Warning: Malformed chat completion request: "
                               ++ err ++ ". Continuing with default values.")%string
                 | None => ret tt
                 end w = Ok tt w0).
  { unfold w0. destruct bindErr; reflexivity. }
  rewrite Hpre, Hid. unfold time_Now_Unix, ret.
  rewrite Hcalc, Hc, Hc0. reflexivity.
Qed.

Lemma embeddings_rejected (req : EmbeddingRequest) (bindErr : option string)
    (config : Config) (w : World) :
  passes (Embedding (ConfigModels config)) (EmbModel req) = false ->
  handleEmbeddings req bindErr config w
  = Ok (modelNotFound (EmbModel req))
       (afterBind "Warning: Malformed embedding request: " bindErr w).
Proof.
  intros H. unfold handleEmbeddings, bind.
  rewrite passes_negb, H.
  destruct bindErr; reflexivity.
Qed.

Lemma embeddings_accepted (req : EmbeddingRequest) (bindErr : option string)
    (config : Config) (w : World) :
  passes (Embedding (ConfigModels config)) (EmbModel req) = true ->
  exists p t : Z,
    handleEmbeddings req bindErr config w
    = Ok (mkResponse StatusOK
            (EmbeddingBody
               (mkEmbeddingResponse "list"
                  (entriesFrom 0 (effectiveInput req))
                  (defaultModel (EmbModel req) (Embedding (ConfigModels config)))
                  (mkEmbeddingUsage p t))))
         (afterBind "Warning: Malformed embedding request: " bindErr w)
    /\ p = fold_left (fun acc s => add64 acc (tokensOf s)) (effectiveInput req) 0
    /\ t = fold_left (fun acc s => add64 acc (tokensOf s)) (effectiveInput req) 0.
Proof.
  intros H. unfold handleEmbeddings.
  rewrite passes_negb, H. cbn [negb].
  set (w0 := afterBind "Warning: Malformed embedding request: " bindErr w).
  assert (Hin : elems (if is_nil (Input req)
                       then mk_slice ["Default input text"]
                       else Input req) = effectiveInput req).
  { unfold effectiveInput. destruct (Input req); reflexivity. }
  rewrite Hin.
  destruct (embedInputs_returns (effectiveInput req) [] []
              (repeat (mkEmbeddingData "" nil_slice 0)
                      (List.length (effectiveInput req)))
              "list"
              (defaultModel (EmbModel req) (Embedding (ConfigModels config)))
              0 0 w0 (repeat_length _ _)) as (p & t & Hrun & Hp & Ht).
  simpl in Hrun. rewrite !app_nil_r in Hrun.
  exists p, t. split; [|split; assumption].
  unfold bind.
  assert (Hpre : match bindErr with
                 | Some err =>
                   log_Printf ("Warning: Malformed embedding request: "
                               ++ err ++ ". Continuing with default values.")%string
                 | None => ret tt
                 end w = Ok tt w0).
  { unfold w0. destruct bindErr; reflexivity. }
  rewrite Hpre, Hrun. reflexivity.
Qed.

End HandlerShapes.

(* ================================================================== *)
(** * The model check (C5) *)

Section ModelValidation.

Context {RS : RandSource}.

Lemma passes_supported (models : list string) (requested : string) :
  In requested models -> passes models requested = true.
Proof.
  intros H. unfold passes.
  apply modelSupported_In in H. rewrite H. reflexivity.
Qed.

Lemma passes_empty (models : list string) : passes models "" = true.
Proof. unfold passes. apply orb_true_r. Qed.

Lemma passes_absent (models : list string) (requested : string) :
  requested <> "" -> ~ In requested models -> passes models requested = false.
Proof.
  intros Hne Hnotin. unfold passes.
  apply isEmpty_false in Hne. rewrite Hne, orb_false_r.
  destruct (modelSupported models requested) eqn:E; [|reflexivity].
  apply modelSupported_In in E. contradiction.
Qed.

(** C5.  For both handlers, in every world and whatever the binding
    returned: a model that is not empty and is an entry of the configured
    list is answered with status 200; one that is not empty and is not an
    entry is answered with status 400 and an error whose code is
    [model_not_found], type [invalid_request_error], param [model] and
    whose message holds the model name; an empty model is answered with
    status 200, whatever the list. *)
Theorem model_validation_trichotomy
    (config : Config) (bindErr : option string) (w : World) :
  (forall req : ChatCompletionRequest,
      validated (Chat (ConfigModels config)) (ChatModel req)
        (handleChatCompletions req bindErr config w))
  /\ (forall req : EmbeddingRequest,
         validated (Embedding (ConfigModels config)) (EmbModel req)
           (handleEmbeddings req bindErr config w)).
Proof.
  split; intros req; unfold validated; repeat split.
  - intros _ Hin.
    destruct (chat_accepted req bindErr config w (passes_supported _ _ Hin))
      as (id & w' & H & _). eauto.
  - intros Hne Hnotin.
    rewrite (chat_rejected req bindErr config w (passes_absent _ _ Hne Hnotin)).
    unfold modelNotFound. do 2 eexists. repeat split; reflexivity.
  - intros Hem.
    assert (Hp : passes (Chat (ConfigModels config)) (ChatModel req) = true)
      by (rewrite Hem; apply passes_empty).
    destruct (chat_accepted req bindErr config w Hp) as (id & w' & H & _). eauto.
  - intros _ Hin.
    destruct (embeddings_accepted req bindErr config w (passes_supported _ _ Hin))
      as (p & t & H & _). eauto.
  - intros Hne Hnotin.
    rewrite (embeddings_rejected req bindErr config w
               (passes_absent _ _ Hne Hnotin)).
    unfold modelNotFound. do 2 eexists. repeat split; reflexivity.
  - intros Hem.
    assert (Hp : passes (Embedding (ConfigModels config)) (EmbModel req) = true)
      by (rewrite Hem; apply passes_empty).
    destruct (embeddings_accepted req bindErr config w Hp) as (p & t & H & _).
    eauto.
Qed.

End ModelValidation.

(* ================================================================== *)
(** * Token counts (C6, C10) *)

Lemma len_nonneg (s : string) : 0 <= len s.
Proof. unfold len. lia. Qed.

Lemma tokensOf_div (s : string) : tokensOf s = len s / 4.
Proof.
  unfold tokensOf. apply Z.quot_div_nonneg; [apply len_nonneg | lia].
Qed.

Lemma tokensOf_bounds (s : string) : 0 <= tokensOf s <= len s.
Proof.
  rewrite tokensOf_div. pose proof (len_nonneg s) as H.
  split; [apply Z.div_pos; lia|].
  apply Z.div_le_upper_bound; lia.
Qed.

Lemma sumTokens_bounds (texts : list string) :
  0 <= sumTokens texts <= totalLen texts.
Proof.
  induction texts as [|s texts IH]; simpl.
  - lia.
  - pose proof (tokensOf_bounds s) as H. rewrite tokensOf_div in H. lia.
Qed.

(** Below the wrap-around the accumulating loop is the plain sum. *)
Lemma fold_tokens_sum (texts : list string) (acc : Z) :
  0 <= acc -> acc + totalLen texts < 2 ^ 63 ->
  fold_left (fun a s => add64 a (tokensOf s)) texts acc = acc + sumTokens texts.
Proof.
  revert acc. induction texts as [|s texts IH]; intros acc H0 H; simpl in *.
  - lia.
  - pose proof (tokensOf_bounds s) as Hs.
    pose proof (sumTokens_bounds texts) as Hts.
    unfold add64 at 2. rewrite wrap64_id by (unfold in_int64; lia).
    rewrite IH by lia. rewrite tokensOf_div. lia.
Qed.

Lemma fold_left_over_map {A B C : Type} (f : A -> C -> A) (g : B -> C)
    (l : list B) (a : A) :
  fold_left f (map g l) a = fold_left (fun x y => f x (g y)) l a.
Proof.
  revert a. induction l as [|b l IH]; intros a; simpl; [reflexivity | apply IH].
Qed.

Lemma calculateTokens_sum (messages : list ChatCompletionMessage) :
  totalLen (map Content messages) < 2 ^ 63 ->
  calculateTokens (mk_slice messages) = sumTokens (map Content messages).
Proof.
  intros H. unfold calculateTokens. simpl.
  rewrite <- (fold_left_over_map (fun a s => add64 a (tokensOf s)) Content).
  rewrite fold_tokens_sum by lia. lia.
Qed.

Section TokenCounts.

Context {RS : RandSource}.

(** C6.  Let a chat request be answered with a completion and let the
    contents of its effective messages hold fewer than [2^63 - 80] bytes
    together (as any request in memory does).  Then [promptTokens] is the
    sum over the effective messages of the content length divided by 4,
    rounded down; [completionTokens] is 20; [totalTokens] is
    [promptTokens + 20].  When the request holds no messages the effective
    messages are the single message of role [user] and content [Hello],
    and [promptTokens] is 1. *)
Theorem chat_usage
    (req : ChatCompletionRequest) (bindErr : option string) (config : Config)
    (w w' : World) (st : Z) (r : ChatCompletionResponse) :
  handleChatCompletions req bindErr config w = Ok (mkResponse st (ChatBody r)) w' ->
  totalLen (map Content (effectiveMessages req)) < 2 ^ 63 - 80 ->
  PromptTokens (Usage r) = calculateTokens (mk_slice (effectiveMessages req))
  /\ PromptTokens (Usage r) = sumTokens (map Content (effectiveMessages req))
  /\ CompletionTokens (Usage r) = 20
  /\ TotalTokens (Usage r) = PromptTokens (Usage r) + 20
  /\ (Messages req = nil_slice ->
      effectiveMessages req = [mkMessage "user" "Hello"]
      /\ PromptTokens (Usage r) = 1).
Proof.
  intros Hrun Hfit.
  destruct (passes (Chat (ConfigModels config)) (ChatModel req)) eqn:Hp.
  - destruct (chat_accepted req bindErr config w Hp) as (id & w1 & H & _).
    rewrite H in Hrun. injection Hrun as _ Hr _. subst r. cbn [Usage PromptTokens
      CompletionTokens TotalTokens].
    pose proof (calculateTokens_sum (effectiveMessages req)) as Hsum.
    rewrite Hsum by lia.
    pose proof (sumTokens_bounds (map Content (effectiveMessages req))) as Hb.
    split; [reflexivity|]. split; [reflexivity|]. split; [reflexivity|].
    split.
    + unfold add64. apply wrap64_id. unfold in_int64. lia.
    + intros Hnil. unfold effectiveMessages. rewrite Hnil.
      split; reflexivity.
  - rewrite (chat_rejected req bindErr config w Hp) in Hrun.
    unfold modelNotFound in Hrun. discriminate.
Qed.

End TokenCounts.

Section Defaults.

Context {RS : RandSource}.

(** C10.  For a request whose model passes the check: a chat request
    whose [messages] is the empty list is answered for no message at all,
    with [promptTokens = 0] (a nil [messages] is answered for the
    synthesized [Hello], with [promptTokens = 1]); an embeddings request
    whose [input] is the empty list is answered with an empty [data] and
    [promptTokens = totalTokens = 0] (a nil [input] is answered with one
    entry, for the synthesized [Default input text]). *)
Theorem defaults_only_for_nil
    (bindErr : option string) (config : Config) (w : World) :
  (forall model : string,
      passes (Chat (ConfigModels config)) model = true ->
      (exists r w',
          handleChatCompletions (mkChatRequest model (mk_slice [])) bindErr config w
          = Ok (mkResponse 200 (ChatBody r)) w'
          /\ effectiveMessages (mkChatRequest model (mk_slice [])) = []
          /\ PromptTokens (Usage r) = 0 /\ TotalTokens (Usage r) = 20)
      /\ (exists r w',
             handleChatCompletions (mkChatRequest model nil_slice) bindErr config w
             = Ok (mkResponse 200 (ChatBody r)) w'
             /\ effectiveMessages (mkChatRequest model nil_slice)
                = [mkMessage "user" "Hello"]
             /\ PromptTokens (Usage r) = 1 /\ TotalTokens (Usage r) = 21))
  /\ (forall model : string,
         passes (Embedding (ConfigModels config)) model = true ->
         (exists r w',
             handleEmbeddings (mkEmbeddingRequest model (mk_slice [])) bindErr config w
             = Ok (mkResponse 200 (EmbeddingBody r)) w'
             /\ Data r = []
             /\ EmbPromptTokens (EmbUsage r) = 0 /\ EmbTotalTokens (EmbUsage r) = 0)
         /\ (exists r w' entry,
                handleEmbeddings (mkEmbeddingRequest model nil_slice) bindErr config w
                = Ok (mkResponse 200 (EmbeddingBody r)) w'
                /\ Data r = [entry]
                /\ generateMockEmbedding "Default input text" 1536
                   = Some (elems (DataEmbedding entry))
                /\ EmbPromptTokens (EmbUsage r) = 4
                /\ EmbTotalTokens (EmbUsage r) = 4)).
Proof.
  split; intros model Hp; split.
  - destruct (chat_accepted (mkChatRequest model (mk_slice [])) bindErr config w Hp)
      as (id & w' & H & _).
    do 2 eexists. split; [exact H|]. repeat split; reflexivity.
  - destruct (chat_accepted (mkChatRequest model nil_slice) bindErr config w Hp)
      as (id & w' & H & _).
    do 2 eexists. split; [exact H|]. repeat split; reflexivity.
  - destruct (embeddings_accepted (mkEmbeddingRequest model (mk_slice []))
                bindErr config w Hp) as (p & t & H & Hpt & Htt).
    do 2 eexists. split; [exact H|]. cbn in Hpt, Htt. subst p t.
    repeat split; reflexivity.
  - destruct (embeddings_accepted (mkEmbeddingRequest model nil_slice)
                bindErr config w Hp) as (p & t & H & Hpt & Htt).
    do 3 eexists. split; [exact H|]. cbn in Hpt, Htt. subst p t.
    split; [reflexivity|]. split; [|split; reflexivity].
    rewrite generateMockEmbedding_1536. reflexivity.
Qed.

End Defaults.

(* ================================================================== *)
(** * The embedding generator: length, seed, determinism (C7, C9, C4, C2) *)

Section Generator.

Context {RS : RandSource}.

Lemma entriesFrom_length_1536 (inputs : list string) (i : nat) :
  Forall (fun entry =>
            exists e, DataEmbedding entry = mk_slice e
                      /\ List.length e = 1536%nat)
         (entriesFrom i inputs).
Proof.
  revert i. induction inputs as [|input rest IH]; intros i; simpl.
  - constructor.
  - constructor; [|apply IH].
    eexists. split; [reflexivity|]. apply embeddingOfSeed_length.
Qed.

Lemma entriesFrom_length (inputs : list string) (i : nat) :
  List.length (entriesFrom i inputs) = List.length inputs.
Proof.
  revert i. induction inputs as [|input rest IH]; intros i; simpl;
    [reflexivity | f_equal; apply IH].
Qed.

(** C7.  For every input, the empty string included, the generator
    called with 1536 returns a vector of exactly 1536 values (and, called
    with any [d >= 0], one of [d] values); every entry of every embeddings
    response holds a vector of 1536 values, whatever the inputs. *)
Theorem embedding_has_1536_values :
  (forall input : string,
      exists e, generateMockEmbedding input 1536 = Some e
                /\ List.length e = 1536%nat)
  /\ (exists e, generateMockEmbedding "" 1536 = Some e
                /\ List.length e = 1536%nat)
  /\ (forall (input : string) (d : Z),
         0 <= d ->
         exists e, generateMockEmbedding input d = Some e
                   /\ Z.of_nat (List.length e) = d)
  /\ (forall (req : EmbeddingRequest) (bindErr : option string) (config : Config)
             (w w' : World) (st : Z) (r : EmbeddingResponse),
         handleEmbeddings req bindErr config w
         = Ok (mkResponse st (EmbeddingBody r)) w' ->
         List.length (Data r) = List.length (effectiveInput req)
         /\ Forall (fun entry =>
                      exists e, DataEmbedding entry = mk_slice e
                                /\ List.length e = 1536%nat)
                   (Data r)).
Proof.
  assert (H1536 : forall input : string,
             exists e, generateMockEmbedding input 1536 = Some e
                       /\ List.length e = 1536%nat).
  { intros input. rewrite generateMockEmbedding_1536.
    eexists. split; [reflexivity|]. apply embeddingOfSeed_length. }
  split; [exact H1536|]. split; [apply H1536|]. split.
  - intros input d Hd. rewrite generateMockEmbedding_seed.
    destruct (d <? 0) eqn:E; [apply Z.ltb_lt in E; lia|].
    eexists. split; [reflexivity|].
    rewrite embeddingOfSeed_length. apply Z2Nat.id. exact Hd.
  - intros req bindErr config w w' st r Hrun.
    destruct (passes (Embedding (ConfigModels config)) (EmbModel req)) eqn:Hp.
    + destruct (embeddings_accepted req bindErr config w Hp) as (p & t & H & _).
      rewrite H in Hrun. injection Hrun as _ Hr _. subst r. cbn [Data].
      split; [|apply entriesFrom_length_1536].
      apply entriesFrom_length.
    + rewrite (embeddings_rejected req bindErr config w Hp) in Hrun.
      unfold modelNotFound in Hrun. discriminate.
Qed.

(** C9.  Two inputs with the same folded seed receive the same vector,
    for every dimensionality; the distinct strings [Aa] and [BB] both fold
    to 2112 and so receive the same vector. *)
Theorem embedding_depends_on_seed_only :
  (forall (s1 s2 : string) (d : Z),
      hashSeed s1 = hashSeed s2 ->
      generateMockEmbedding s1 d = generateMockEmbedding s2 d)
  /\ hashSeed "Aa" = 2112
  /\ hashSeed "BB" = 2112
  /\ "Aa" <> "BB"
  /\ (forall d : Z, generateMockEmbedding "Aa" d = generateMockEmbedding "BB" d).
Proof.
  assert (H : forall (s1 s2 : string) (d : Z),
             hashSeed s1 = hashSeed s2 ->
             generateMockEmbedding s1 d = generateMockEmbedding s2 d).
  { intros s1 s2 d Hs. rewrite !generateMockEmbedding_seed, Hs. reflexivity. }
  split; [exact H|].
  split; [reflexivity|]. split; [reflexivity|]. split; [discriminate|].
  intros d. apply H. reflexivity.
Qed.

End Generator.

Section Seed.

Context {RS : RandSource}.

Lemma foldSeed_snoc (cs : list Z) (c : Z) :
  foldSeed (cs ++ [c]) = wrap64 (foldSeed cs * 31 + c).
Proof. unfold foldSeed. rewrite fold_left_app. reflexivity. Qed.

Lemma runes_of_encoding (cs : list Z) :
  Forall scalar cs -> runes (string_of_bytes (encodeRunes cs)) = cs.
Proof.
  intros H. unfold runes.
  rewrite bytes_string_of_bytes; [apply decode_encodeRunes; exact H|].
  unfold encodeRunes.
  induction H as [|c cs Hc _ IH]; simpl; [constructor|].
  apply Forall_app. split; [|exact IH].
  apply encodeRune_bytes. destruct Hc as [Hc _]. exact Hc.
Qed.

(** C4.  The generator is seeded with the fold of the runes of the
    input and uses the input for nothing else: its result is the vector
    of the generator [NewSource (foldSeed (runes input))].  The fold
    starts at 0 and, rune by rune from the left, replaces the seed by
    [seed*31 + c] reduced modulo [2^64] into the signed range
    [[-2^63, 2^63)]; the runes of the UTF-8 encoding of a sequence of
    Unicode scalar values are those values, in order. *)
Theorem seed_is_the_wrapping_31_fold :
  (forall (input : string) (d : Z),
      generateMockEmbedding input d
      = if d <? 0 then None
        else Some (normalize
                     (drawRaw (Z.to_nat d) (NewSource (foldSeed (runes input))))))
  /\ foldSeed [] = 0
  /\ (forall (cs : list Z) (c : Z),
         foldSeed (cs ++ [c]) = wrap64 (foldSeed cs * 31 + c))
  /\ (forall z : Z,
         - 2 ^ 63 <= wrap64 z < 2 ^ 63 /\ wrap64 z mod 2 ^ 64 = z mod 2 ^ 64)
  /\ (forall cs : list Z,
         Forall scalar cs ->
         runes (string_of_bytes (encodeRunes cs)) = cs
         /\ hashSeed (string_of_bytes (encodeRunes cs)) = foldSeed cs).
Proof.
  split; [intros input d; apply generateMockEmbedding_seed|].
  split; [reflexivity|].
  split; [apply foldSeed_snoc|].
  split.
  - intros z. split; [apply wrap64_range | apply wrap64_eqm].
  - intros cs H. unfold hashSeed. rewrite runes_of_encoding by exact H. auto.
Qed.

End Seed.

Section Determinism.

Context {RS : RandSource}.

(** C2.  A call of the generator returns the same vector whatever the
    world it runs in (the state of the process wide generator, the clock,
    the log), and leaves the world as it was: a second call, in the same
    run or in another, returns the same vector.  So does every embeddings
    response: it is a function of the request and the configuration. *)
Theorem embedding_is_deterministic :
  (forall (input : string) (d : Z) (msg : string) (w1 w2 : World),
      returned (call (generateMockEmbedding input d) msg w1)
      = returned (call (generateMockEmbedding input d) msg w2))
  /\ (forall (input : string) (d : Z) (msg : string) (w w' : World)
             (e : list float),
         call (generateMockEmbedding input d) msg w = Ok e w' ->
         w' = w /\ call (generateMockEmbedding input d) msg w' = Ok e w')
  /\ (forall (input : string) (d : Z),
         0 <= d ->
         exists e, forall (msg : string) (w : World),
             call (generateMockEmbedding input d) msg w = Ok e w)
  /\ (forall (req : EmbeddingRequest) (bindErr : option string) (config : Config)
             (w1 w2 : World),
         returned (handleEmbeddings req bindErr config w1)
         = returned (handleEmbeddings req bindErr config w2)).
Proof.
  split; [|split; [|split]].
  - intros input d msg w1 w2.
    destruct (generateMockEmbedding input d); reflexivity.
  - intros input d msg w w' e H.
    destruct (generateMockEmbedding input d) as [e0|]; simpl in *.
    + unfold ret in H. injection H as He Hw. subst. split; reflexivity.
    + discriminate.
  - intros input d Hd. rewrite generateMockEmbedding_seed.
    destruct (d <? 0) eqn:E; [apply Z.ltb_lt in E; lia|].
    eexists. intros msg w. reflexivity.
  - intros req bindErr config w1 w2.
    destruct (passes (Embedding (ConfigModels config)) (EmbModel req)) eqn:Hp.
    + destruct (embeddings_accepted req bindErr config w1 Hp)
        as (p1 & t1 & H1 & Hp1 & Ht1).
      destruct (embeddings_accepted req bindErr config w2 Hp)
        as (p2 & t2 & H2 & Hp2 & Ht2).
      rewrite H1, H2. subst. reflexivity.
    + rewrite !(embeddings_rejected req bindErr config _ Hp). reflexivity.
Qed.

End Determinism.

(* ================================================================== *)
(** * Facts on binary64: the error of one operation

    From the specification of the operations in [SpecFloat]: in the normal
    range, each of [*], [+], [-], [/] and [sqrt] returns a finite float
    within a relative error [eps] of the exact result. *)

Lemma digits2_pos_bounds (p : positive) :
  2 ^ (Z.pos (digits2_pos p) - 1) <= Z.pos p < 2 ^ Z.pos (digits2_pos p).
Proof.
  induction p as [p IH|p IH|]; cbn [digits2_pos].
  - rewrite Pos2Z.inj_succ.
    replace (Z.succ (Z.pos (digits2_pos p)) - 1) with (Z.pos (digits2_pos p) - 1 + 1) by lia.
    rewrite Z.pow_succ_r by lia.
    destruct (Z.eq_dec (Z.pos (digits2_pos p)) 1) as [E|E].
    + rewrite E in *. cbn in *. lia.
    + rewrite Z.pow_add_r by lia. change (2 ^ 1) with 2. lia.
  - rewrite Pos2Z.inj_succ.
    replace (Z.succ (Z.pos (digits2_pos p)) - 1) with (Z.pos (digits2_pos p) - 1 + 1) by lia.
    rewrite Z.pow_succ_r by lia.
    destruct (Z.eq_dec (Z.pos (digits2_pos p)) 1) as [E|E].
    + rewrite E in *. cbn in *. lia.
    + rewrite Z.pow_add_r by lia. change (2 ^ 1) with 2. lia.
  - cbn. lia.
Qed.

Lemma shr_1_m (mrs : shr_record) :
  0 <= shr_m mrs -> shr_m (shr_1 mrs) = shr_m mrs / 2.
Proof.
  destruct mrs as [m r s]. cbn [shr_m]. intros H.
  destruct m as [|[p|p|]|p]; cbn [shr_1 shr_m]; try lia; try reflexivity.
  - rewrite (Pos2Z.inj_xI p). dlia.
  - rewrite (Pos2Z.inj_xO p). dlia.
Qed.

Lemma pow2_xI (p : positive) : 2 ^ Z.pos p~1 = 2 * (2 ^ Z.pos p * 2 ^ Z.pos p).
Proof.
  rewrite (Pos2Z.inj_xI p).
  replace (2 * Z.pos p + 1) with (1 + (Z.pos p + Z.pos p)) by lia.
  rewrite Z.pow_add_r, Z.pow_add_r by lia. reflexivity.
Qed.

Lemma pow2_xO (p : positive) : 2 ^ Z.pos p~0 = 2 ^ Z.pos p * 2 ^ Z.pos p.
Proof.
  rewrite (Pos2Z.inj_xO p).
  replace (2 * Z.pos p) with (Z.pos p + Z.pos p) by lia.
  rewrite Z.pow_add_r by lia. reflexivity.
Qed.

Lemma pow2_pos (n : Z) : 0 <= n -> 0 < 2 ^ n.
Proof. intros H. apply Z.pow_pos_nonneg; lia. Qed.

Lemma iter_pos_shr_m (p : positive) :
  forall mrs, 0 <= shr_m mrs ->
    shr_m (SpecFloat.iter_pos shr_1 p mrs) = shr_m mrs / 2 ^ Z.pos p.
Proof.
  assert (Hpos : forall q, 0 < 2 ^ Z.pos q) by (intros q; apply pow2_pos; lia).
  induction p as [p IH|p IH|]; intros mrs H; cbn [SpecFloat.iter_pos].
  - assert (H1 : 0 <= shr_m (shr_1 mrs)).
    { rewrite shr_1_m by exact H. apply Z.div_pos; lia. }
    assert (H2 : 0 <= shr_m (SpecFloat.iter_pos shr_1 p (shr_1 mrs))).
    { rewrite IH by exact H1. apply Z.div_pos; [exact H1 | apply Hpos]. }
    rewrite IH by exact H2. rewrite IH by exact H1. rewrite shr_1_m by exact H.
    pose proof (Hpos p) as Hp.
    rewrite !Z.div_div by lia. rewrite pow2_xI. reflexivity.
  - assert (H2 : 0 <= shr_m (SpecFloat.iter_pos shr_1 p mrs)).
    { rewrite IH by exact H. apply Z.div_pos; [exact H | apply Hpos]. }
    rewrite IH by exact H2. rewrite IH by exact H.
    pose proof (Hpos p) as Hp.
    rewrite !Z.div_div by lia. rewrite pow2_xO. reflexivity.
  - rewrite shr_1_m by exact H. reflexivity.
Qed.

Lemma round_nearest_even_cases (m : Z) (l : location) :
  round_nearest_even m l = m \/ round_nearest_even m l = m + 1.
Proof.
  destruct l as [|[| |]]; cbn; auto.
  destruct (Z.even m); auto.
Qed.

Lemma pow2_le (a b : Z) : 0 <= a <= b -> 2 ^ a <= 2 ^ b.
Proof. intros H. apply Z.pow_le_mono_r; lia. Qed.

Lemma pow2_lt (a b : Z) : 0 <= a < b -> 2 ^ a < 2 ^ b.
Proof. intros H. apply Z.pow_lt_mono_r; lia. Qed.

(** The number of digits is determined by the binade. *)
Lemma Zdigits2_unique (m k : Z) :
  0 < k -> 2 ^ (k - 1) <= m < 2 ^ k -> Zdigits2 m = k.
Proof.
  intros Hk [Hlo Hhi].
  assert (Hm : 0 < m) by (pose proof (pow2_pos (k - 1)); lia).
  destruct m as [|p|p]; try lia. cbn [Zdigits2].
  pose proof (digits2_pos_bounds p) as [Dlo Dhi].
  set (d := Z.pos (digits2_pos p)) in *.
  assert (Hd : 0 < d) by (unfold d; lia).
  destruct (Z.lt_trichotomy d k) as [H|[H|H]]; [|exact H|].
  - pose proof (pow2_le d (k - 1)). lia.
  - pose proof (pow2_le k (d - 1)). lia.
Qed.

Lemma Zdigits2_bounds (m : Z) :
  0 < m -> 2 ^ (Zdigits2 m - 1) <= m < 2 ^ Zdigits2 m.
Proof.
  intros H. destruct m as [|p|p]; try lia. apply digits2_pos_bounds.
Qed.

Lemma Zdigits2_pos (m : Z) : 0 < m -> 0 < Zdigits2 m.
Proof. intros H. destruct m; try lia. cbn. lia. Qed.

Lemma shr_m_of_loc (m : Z) (l : location) : shr_m (shr_record_of_loc m l) = m.
Proof. destruct l as [|[| |]]; reflexivity. Qed.

Lemma loc_of_shr_of_loc (m : Z) (l : location) :
  loc_of_shr_record (shr_record_of_loc m l) = l.
Proof. destruct l as [|[| |]]; reflexivity. Qed.

Lemma fexp64 (e : Z) : fexp prec emax e = Z.max (e - 53) emin64.
Proof. reflexivity. Qed.

(** Shifting a mantissa of [d >= 53] digits in the normal range keeps its
    53 leading digits. *)
Lemma shr_fexp_normal (m e : Z) (l : location) :
  0 < m -> 53 <= Zdigits2 m -> emin64 <= Zdigits2 m + e - 53 ->
  exists mrs,
    shr_fexp prec emax m e l = (mrs, e + (Zdigits2 m - 53))
    /\ shr_m mrs = m / 2 ^ (Zdigits2 m - 53)
    /\ (Zdigits2 m = 53 -> loc_of_shr_record mrs = l).
Proof.
  intros Hm Hd He. unfold shr_fexp. rewrite fexp64.
  replace (Z.max (Zdigits2 m + e - 53) emin64 - e) with (Zdigits2 m - 53) by lia.
  unfold shr.
  destruct (Zdigits2 m - 53) as [|p|p] eqn:E; try lia.
  - exists (shr_record_of_loc m l). rewrite Z.add_0_r.
    split; [reflexivity|]. split.
    + rewrite shr_m_of_loc. change (2 ^ 0) with 1. rewrite Z.div_1_r. reflexivity.
    + intros _. apply loc_of_shr_of_loc.
  - exists (SpecFloat.iter_pos shr_1 p (shr_record_of_loc m l)).
    split; [reflexivity|]. split.
    + rewrite iter_pos_shr_m by (rewrite shr_m_of_loc; lia).
      rewrite shr_m_of_loc. reflexivity.
    + intros H. lia.
Qed.

Lemma high_digits (m : Z) :
  0 < m -> 53 <= Zdigits2 m ->
  2 ^ 52 <= m / 2 ^ (Zdigits2 m - 53) < 2 ^ 53.
Proof.
  intros Hm Hd.
  pose proof (Zdigits2_bounds m Hm) as [Hlo Hhi].
  set (n := Zdigits2 m - 53) in *.
  assert (Hn : 0 <= n) by (unfold n; lia).
  pose proof (pow2_pos n Hn) as Hp.
  replace (Zdigits2 m - 1) with (52 + n) in Hlo by (unfold n; lia).
  replace (Zdigits2 m) with (53 + n) in Hhi by (unfold n; lia).
  rewrite Z.pow_add_r in Hlo, Hhi by lia.
  split.
  - apply Z.div_le_lower_bound; lia.
  - apply Z.div_lt_upper_bound; lia.
Qed.

(** The rounding of a mantissa [mx] of at least 53 digits, in the normal
    range: the result is finite, and its mantissa is the 53 leading
    digits of [mx] or their successor. *)
Lemma binary_round_aux_normal (sx : bool) (mx ex : Z) (lx : location) :
  0 < mx -> 53 <= Zdigits2 mx ->
  emin64 <= Zdigits2 mx + ex - 53 -> Zdigits2 mx + ex <= 1023 ->
  exists (m' : positive) (e' m2 : Z),
    binary_round_aux prec emax sx mx ex lx = S754_finite sx m' e'
    /\ (m2 = mx / 2 ^ (Zdigits2 mx - 53) \/ m2 = mx / 2 ^ (Zdigits2 mx - 53) + 1)
    /\ (e' = ex + (Zdigits2 mx - 53) /\ Z.pos m' = m2
        \/ e' = ex + (Zdigits2 mx - 53) + 1 /\ 2 * Z.pos m' = m2)
    /\ (lx = loc_Exact -> Zdigits2 mx = 53 -> m2 = mx)
    /\ valid_binary (S754_finite sx m' e') = true.
Proof.
  intros Hm Hd Hlo Hhi.
  set (n := Zdigits2 mx - 53) in *.
  destruct (shr_fexp_normal mx ex lx Hm Hd Hlo) as (mrs & Hshr & Hmrs & Hloc).
  fold n in Hshr, Hmrs.
  pose proof (high_digits mx Hm Hd) as Hhigh. fold n in Hhigh.
  unfold binary_round_aux. rewrite Hshr.
  set (m2 := round_nearest_even (shr_m mrs) (loc_of_shr_record mrs)).
  assert (Hm2 : m2 = mx / 2 ^ n \/ m2 = mx / 2 ^ n + 1).
  { unfold m2. rewrite <- Hmrs. apply round_nearest_even_cases. }
  assert (Hexact : lx = loc_Exact -> Zdigits2 mx = 53 -> m2 = mx).
  { intros Hl H53. unfold m2. rewrite (Hloc H53), Hl. cbn.
    rewrite Hmrs. unfold n. rewrite H53. change (2 ^ (53 - 53)) with 1.
    apply Z.div_1_r. }
  assert (Hr : 2 ^ 52 <= m2 <= 2 ^ 53) by lia.
  assert (Hm2pos : 0 < m2) by (change (2 ^ 52) with 4503599627370496 in Hr; lia).
  destruct (Z.eq_dec m2 (2 ^ 53)) as [Heq|Hne].
  - assert (Hdig : Zdigits2 m2 = 54).
    { apply Zdigits2_unique; [lia|]. rewrite Heq.
      change (54 - 1) with 53. split; [lia|]. apply pow2_lt. lia. }
    unfold shr_fexp. rewrite Hdig, fexp64.
    replace (Z.max (54 + (ex + n) - 53) emin64 - (ex + n)) with 1 by lia.
    cbn [shr SpecFloat.iter_pos]. rewrite shr_1_m by (rewrite shr_m_of_loc; lia).
    rewrite shr_m_of_loc, Heq. change (2 ^ 53 / 2) with (Z.pos (2 ^ 52)).
    cbv iota beta.
    replace (ex + n + 1 <=? emax - prec) with true
      by (symmetry; apply Z.leb_le; change (emax - prec) with 971; lia).
    exists (2 ^ 52)%positive, (ex + n + 1), m2.
    split; [reflexivity|]. split; [exact Hm2|].
    split; [right; split; [reflexivity | rewrite Heq; reflexivity]|].
    split; [exact Hexact|].
    cbn [SpecFloat.valid_binary].
    unfold SpecFloat.bounded, SpecFloat.canonical_mantissa.
    assert (Hd52 : Z.pos (digits2_pos (2 ^ 52)) = 53) by reflexivity.
    rewrite Hd52.
    apply andb_true_iff. split; [apply Z.eqb_eq | apply Z.leb_le].
    + rewrite fexp64. unfold emin64 in *. unfold n. lia.
    + change (emax - prec) with 971. unfold n. lia.
  - assert (Hdig : Zdigits2 m2 = 53).
    { apply Zdigits2_unique; [lia|]. change (53 - 1) with 52. lia. }
    unfold shr_fexp. rewrite Hdig, fexp64.
    replace (Z.max (53 + (ex + n) - 53) emin64 - (ex + n)) with 0 by lia.
    cbn [shr]. rewrite shr_m_of_loc.
    destruct m2 as [|p|p] eqn:Ep; try lia.
    replace (ex + n <=? emax - prec) with true
      by (symmetry; apply Z.leb_le; change (emax - prec) with 971; lia).
    exists p, (ex + n), (Z.pos p).
    split; [reflexivity|]. split; [exact Hm2|].
    split; [left; split; reflexivity|].
    split; [exact Hexact|].
    cbn [SpecFloat.valid_binary].
    unfold SpecFloat.bounded, SpecFloat.canonical_mantissa.
    change (Z.pos (digits2_pos p)) with (Zdigits2 (Z.pos p)).
    rewrite Hdig.
    apply andb_true_iff. split; [apply Z.eqb_eq | apply Z.leb_le].
    + rewrite fexp64. unfold emin64 in *. unfold n. lia.
    + change (emax - prec) with 971. unfold n. lia.
Qed.

Section Binary64.

Local Open Scope R_scope.

Lemma bpow_add (a b : Z) : bpow (a + b) = bpow a * bpow b.
Proof. unfold bpow. apply powerRZ_add. lra. Qed.

Lemma bpow_pos (e : Z) : 0 < bpow e.
Proof. unfold bpow. apply powerRZ_lt. lra. Qed.

Lemma bpow_0 : bpow 0 = 1.
Proof. reflexivity. Qed.

Lemma bpow_1 : bpow 1 = 2.
Proof. unfold bpow. apply powerRZ_1. Qed.

Lemma bpow_opp (e : Z) : bpow (- e) = / bpow e.
Proof. unfold bpow. apply powerRZ_neg'. Qed.

Lemma bpow_IZR (n : Z) : (0 <= n)%Z -> bpow n = IZR (2 ^ n).
Proof.
  intros H. unfold bpow.
  rewrite <- (Z2Nat.id n H) at 1. rewrite <- pow_powerRZ.
  rewrite pow_IZR. rewrite Z2Nat.id by exact H. reflexivity.
Qed.

Lemma bpow_ge_1 (k : Z) : (0 <= k)%Z -> 1 <= bpow k.
Proof.
  intros H. rewrite bpow_IZR by exact H. apply IZR_le.
  pose proof (pow2_pos k H). lia.
Qed.

Lemma bpow_le (a b : Z) : (a <= b)%Z -> bpow a <= bpow b.
Proof.
  intros H. replace b with (a + (b - a))%Z by lia.
  rewrite bpow_add.
  pose proof (bpow_pos a) as Ha.
  pose proof (bpow_ge_1 (b - a)) as H1.
  assert (1 <= bpow (b - a)) by (apply H1; lia). nra.
Qed.

Lemma bpow_lt (a b : Z) : (a < b)%Z -> bpow a < bpow b.
Proof.
  intros H. replace b with (a + 1 + (b - a - 1))%Z by lia.
  rewrite !bpow_add, bpow_1.
  pose proof (bpow_pos a) as Ha.
  assert (H1 : 1 <= bpow (b - a - 1)) by (apply bpow_ge_1; lia).
  nra.
Qed.

Lemma bpow_lt_inv (a b : Z) : bpow a < bpow b -> (a < b)%Z.
Proof.
  intros H. destruct (Z_lt_le_dec a b) as [L|L]; [exact L|].
  apply bpow_le in L. lra.
Qed.

Lemma bpow_le_inv (a b : Z) : bpow a <= bpow b -> (a <= b)%Z.
Proof.
  intros H. destruct (Z_le_gt_dec a b) as [L|L]; [exact L|].
  apply Z.gt_lt, bpow_lt in L. lra.
Qed.

Lemma IZR_cond_Zopp (s : bool) (m : Z) :
  IZR (cond_Zopp s m) = (if s then -1 else 1) * IZR m.
Proof. destruct s; cbn [cond_Zopp]; [rewrite opp_IZR|]; lra. Qed.

(** A valid float of magnitude at least [2^-1022] has 53 digits. *)
Lemma normal_digits (s : bool) (m : positive) (e : Z) :
  valid_binary (S754_finite s m e) = true ->
  bpow (-1022) <= IZR (Z.pos m) * bpow e ->
  Zdigits2 (Z.pos m) = 53%Z /\ (-1074 <= e <= 971)%Z.
Proof.
  cbn [SpecFloat.valid_binary].
    unfold SpecFloat.bounded, SpecFloat.canonical_mantissa.
  intros Hv Hlo. apply andb_true_iff in Hv. destruct Hv as [Hc Hb].
  apply Z.eqb_eq in Hc. apply Z.leb_le in Hb.
  rewrite fexp64 in Hc. change (emax - prec)%Z with 971%Z in Hb.
  change (Z.pos (digits2_pos m)) with (Zdigits2 (Z.pos m)) in Hc.
  pose proof (Zdigits2_bounds (Z.pos m) eq_refl) as [_ Hhi].
  pose proof (Zdigits2_pos (Z.pos m) eq_refl) as Hd.
  set (d := Zdigits2 (Z.pos m)) in *.
  unfold emin64 in Hc.
  destruct (Z_le_gt_dec (-1074) (d + e - 53)) as [L|L]; [lia|].
  exfalso.
  assert (He : e = (-1074)%Z) by lia.
  assert (Hd52 : (d <= 52)%Z) by lia.
  assert (Hm : (Z.pos m < 2 ^ 52)%Z).
  { apply Z.lt_le_trans with (2 ^ d)%Z; [exact Hhi|]. apply pow2_le. lia. }
  apply IZR_lt in Hm. rewrite <- bpow_IZR in Hm by lia.
  pose proof (bpow_pos e) as Hpe.
  assert (IZR (Z.pos m) * bpow e < bpow 52 * bpow e) by nra.
  rewrite <- bpow_add in H. rewrite He in H, Hlo.
  change (52 + -1074)%Z with (-1022)%Z in H. lra.
Qed.

Lemma eps_52 : eps * bpow 52 = 1.
Proof. unfold eps. rewrite <- bpow_add. reflexivity. Qed.

Lemma mantissa_binade (m : Z) :
  (0 < m)%Z ->
  bpow (Zdigits2 m - 1) <= IZR m /\ IZR m + 1 <= bpow (Zdigits2 m).
Proof.
  intros Hm. pose proof (Zdigits2_bounds m Hm) as [Hlo Hhi].
  pose proof (Zdigits2_pos m Hm) as Hd.
  rewrite !bpow_IZR by lia. split; [apply IZR_le; exact Hlo|].
  rewrite <- plus_IZR. apply IZR_le. lia.
Qed.

(** Rounding in the normal range is within one unit in the last place
    of every real the mantissa brackets. *)
Lemma round_R (sx : bool) (mx ex : Z) (lx : location) (t : R) :
  (0 < mx)%Z -> (53 <= Zdigits2 mx)%Z ->
  bpow (-1021) <= t <= bpow 1022 ->
  IZR mx * bpow ex <= t <= (IZR mx + 1) * bpow ex ->
  exists (m' : positive) (e' : Z),
    binary_round_aux prec emax sx mx ex lx = S754_finite sx m' e'
    /\ Rabs (IZR (Z.pos m') * bpow e' - t) <= eps * t
    /\ (lx = loc_Exact -> Zdigits2 mx = 53%Z ->
        IZR (Z.pos m') * bpow e' = IZR mx * bpow ex)
    /\ valid_binary (S754_finite sx m' e') = true.
Proof.
  intros Hm Hd Ht Hbr.
  pose proof (mantissa_binade mx Hm) as [Blo Bhi].
  pose proof (bpow_pos ex) as Hex.
  set (d := Zdigits2 mx) in *.
  assert (Hhi : (d + ex <= 1023)%Z).
  { assert (bpow (d - 1 + ex) <= bpow 1022).
    { rewrite bpow_add. nra. }
    apply bpow_le_inv in H. lia. }
  assert (Hlo : (emin64 <= d + ex - 53)%Z).
  { assert (bpow (-1021) <= bpow (d + ex)).
    { rewrite bpow_add. nra. }
    apply bpow_le_inv in H. unfold emin64. lia. }
  destruct (binary_round_aux_normal sx mx ex lx Hm Hd Hlo Hhi)
    as (m' & e' & m2 & Hres & Hm2 & He' & Hexact & Hvalid).
  fold d in Hm2, He', Hexact.
  exists m', e'. split; [exact Hres|].
  set (n := (d - 53)%Z) in *.
  assert (Hn : (0 <= n)%Z) by (unfold n; lia).
  pose proof (pow2_pos n Hn) as Hpn.
  pose proof (high_digits mx Hm Hd) as [Hq _]. fold d in Hq. fold n in Hq.
  set (q := (mx / 2 ^ n)%Z) in *.
  assert (Hdiv : (q * 2 ^ n <= mx < (q + 1) * 2 ^ n)%Z).
  { unfold q. assert (Hnz : (2 ^ n <> 0)%Z) by lia.
    pose proof (Z.div_mod mx (2 ^ n) Hnz).
    pose proof (Z.mod_pos_bound mx (2 ^ n) Hpn). lia. }
  set (B := bpow (ex + n)).
  assert (HB : 0 < B) by apply bpow_pos.
  assert (HBn : B = bpow ex * IZR (2 ^ n)).
  { unfold B. rewrite bpow_add, (bpow_IZR n) by exact Hn. reflexivity. }
  assert (Hv : IZR (Z.pos m') * bpow e' = IZR m2 * B).
  { destruct He' as [[-> ->]|[-> H2]].
    - reflexivity.
    - rewrite <- H2. rewrite mult_IZR.
      replace (ex + n + 1)%Z with (1 + (ex + n))%Z by lia.
      rewrite bpow_add, bpow_1. fold B. lra. }
  assert (Htlo : IZR q * B <= t).
  { apply Rle_trans with (IZR mx * bpow ex); [|lra].
    rewrite HBn. destruct Hdiv as [Hdiv _]. apply IZR_le in Hdiv.
    rewrite mult_IZR in Hdiv. nra. }
  assert (Hthi : t <= (IZR q + 1) * B).
  { apply Rle_trans with ((IZR mx + 1) * bpow ex); [lra|].
    rewrite HBn. destruct Hdiv as [_ Hdiv].
    assert (Hz : (mx + 1 <= (q + 1) * 2 ^ n)%Z) by lia.
    apply IZR_le in Hz. rewrite mult_IZR, !plus_IZR in Hz. nra. }
  assert (Hq52 : bpow 52 <= IZR q).
  { rewrite bpow_IZR by lia. apply IZR_le. exact Hq. }
  pose proof eps_52 as He52.
  assert (Heps : 0 < eps) by apply bpow_pos.
  assert (HBt : B <= eps * t).
  { apply Rle_trans with (eps * (IZR q * B)); [|nra].
    assert (1 <= eps * IZR q) by nra. nra. }
  split; [|split; [|exact Hvalid]].
  - rewrite Hv. apply Rabs_le.
    destruct Hm2 as [-> | ->]; fold q; rewrite ?plus_IZR; nra.
  - intros Hl H53. rewrite Hv, (Hexact Hl H53).
    rewrite HBn. unfold n. rewrite H53. change (2 ^ (53 - 53))%Z with 1%Z. lra.
Qed.

Lemma sgn_xorb (a b : bool) : sgn (xorb a b) = sgn a * sgn b.
Proof. destruct a, b; cbn; lra. Qed.

Lemma sgn_negb (a : bool) : sgn (negb a) = - sgn a.
Proof. destruct a; cbn; lra. Qed.

Lemma sgn_abs (s : bool) (v : R) : 0 <= v -> Rabs (sgn s * v) = v.
Proof.
  intros H. destruct s; cbn.
  - replace (-1 * v) with (- v) by lra. rewrite Rabs_Ropp. apply Rabs_pos_eq, H.
  - rewrite Rmult_1_l. apply Rabs_pos_eq, H.
Qed.

Lemma SF2R_finite (s : bool) (m : positive) (e : Z) :
  SF2R (S754_finite s m e) = sgn s * (IZR (Z.pos m) * bpow e).
Proof.
  cbn [SF2R]. rewrite IZR_cond_Zopp. unfold sgn. destruct s; lra.
Qed.

Lemma mag_pos (m : positive) (e : Z) : 0 < IZR (Z.pos m) * bpow e.
Proof.
  apply Rmult_lt_0_compat; [apply IZR_lt; lia | apply bpow_pos].
Qed.

Lemma Rabs_SF2R_finite (s : bool) (m : positive) (e : Z) :
  Rabs (SF2R (S754_finite s m e)) = IZR (Z.pos m) * bpow e.
Proof.
  rewrite SF2R_finite. apply sgn_abs. pose proof (mag_pos m e). lra.
Qed.

(** A finite float is a zero or a valid mantissa and exponent. *)
Lemma finite_cases (x : float) :
  finite x ->
  (exists s, Prim2SF x = S754_zero s)
  \/ (exists s m e, Prim2SF x = S754_finite s m e
                    /\ valid_binary (S754_finite s m e) = true).
Proof.
  unfold finite. intros H. pose proof (Prim2SF_valid x) as Hv.
  destruct (Prim2SF x) as [s|s| |s m e]; try discriminate H.
  - left. exists s. reflexivity.
  - right. exists s, m, e. split; [reflexivity | exact Hv].
Qed.

Lemma digits_ge (m k : Z) :
  (0 < k)%Z -> (2 ^ (k - 1) <= m)%Z -> (k <= Zdigits2 m)%Z.
Proof.
  intros Hk H.
  assert (Hm : (0 < m)%Z) by (pose proof (pow2_pos (k - 1)); lia).
  pose proof (Zdigits2_bounds m Hm) as [_ Hhi].
  pose proof (Zdigits2_pos m Hm) as Hd.
  destruct (Z_le_gt_dec k (Zdigits2 m)) as [L|L]; [exact L|].
  pose proof (pow2_le (Zdigits2 m) (k - 1)). lia.
Qed.

(** The product of two floats of the normal range, when it is in the
    normal range too, is rounded with a relative error of at most [eps]. *)
Lemma mul_R (x y : float) :
  finite x -> finite y ->
  (F2R x = 0 \/ bpow (-1022) <= Rabs (F2R x)) ->
  (F2R y = 0 \/ bpow (-1022) <= Rabs (F2R y)) ->
  (F2R x * F2R y = 0 \/ bpow (-1021) <= Rabs (F2R x * F2R y) <= bpow 1022) ->
  finite (x * y)%float
  /\ Rabs (F2R (x * y)%float - F2R x * F2R y) <= eps * Rabs (F2R x * F2R y).
Proof.
  unfold finite, F2R. rewrite mul_spec. unfold SF64mul.
  intros Hx Hy Nx Ny Hr.
  destruct (finite_cases x Hx) as [[sx Ex]|(sx & mx & ex & Ex & Vx)];
    destruct (finite_cases y Hy) as [[sy Ey]|(sy & my & ey & Ey & Vy)];
    rewrite Ex, Ey in *; cbn [SFmul];
    try (split; [reflexivity|]; cbn [SF2R];
         rewrite ?Rmult_0_l, ?Rmult_0_r, Rminus_0_r, Rabs_R0; lra).
  rewrite !SF2R_finite in *.
  pose proof (mag_pos mx ex) as Px. pose proof (mag_pos my ey) as Py.
  set (X := IZR (Z.pos mx) * bpow ex) in *.
  set (Y := IZR (Z.pos my) * bpow ey) in *.
  rewrite (sgn_abs sx X) in Nx by lra.
  rewrite (sgn_abs sy Y) in Ny by lra.
  assert (Dx : Zdigits2 (Z.pos mx) = 53%Z).
  { apply (normal_digits sx mx ex Vx). fold X.
    destruct Nx as [Nx|Nx]; [|exact Nx]. destruct sx; cbn [sgn] in Nx; lra. }
  assert (Dy : Zdigits2 (Z.pos my) = 53%Z).
  { apply (normal_digits sy my ey Vy). fold Y.
    destruct Ny as [Ny|Ny]; [|exact Ny]. destruct sy; cbn [sgn] in Ny; lra. }
  replace (sgn sx * X * (sgn sy * Y)) with (sgn (xorb sx sy) * (X * Y)) in *
    by (rewrite sgn_xorb; ring).
  assert (Pxy : 0 < X * Y) by nra.
  rewrite sgn_abs in Hr |- * by lra.
  destruct Hr as [Hr|Hr].
  { destruct (xorb sx sy); cbn [sgn] in Hr; lra. }
  assert (Hprod : IZR (Z.pos (mx * my)) * bpow (ex + ey) = X * Y).
  { rewrite Pos2Z.inj_mul, mult_IZR, bpow_add. unfold X, Y. ring. }
  assert (Hdig : (53 <= Zdigits2 (Z.pos (mx * my)))%Z).
  { apply Z.le_trans with 105%Z; [lia|]. apply digits_ge; [lia|].
    rewrite Pos2Z.inj_mul.
    pose proof (Zdigits2_bounds (Z.pos mx) eq_refl) as [Lx _].
    pose proof (Zdigits2_bounds (Z.pos my) eq_refl) as [Ly _].
    rewrite Dx in Lx. rewrite Dy in Ly.
    change (2 ^ (105 - 1))%Z with (2 ^ (53 - 1) * 2 ^ (53 - 1))%Z.
    apply Z.mul_le_mono_nonneg; try assumption; apply Z.lt_le_incl, pow2_pos; lia. }
  destruct (round_R (xorb sx sy) (Z.pos (mx * my)) (ex + ey) loc_Exact (X * Y))
    as (m' & e' & Hres & Herr & _ & Hvalid).
  - lia.
  - exact Hdig.
  - exact Hr.
  - rewrite Hprod. pose proof (bpow_pos (ex + ey)).
    replace ((IZR (Z.pos (mx * my)) + 1) * bpow (ex + ey))
      with (X * Y + bpow (ex + ey)) by (rewrite <- Hprod; ring).
    lra.
  - rewrite Hres. split; [reflexivity|].
    rewrite SF2R_finite.
    replace (sgn (xorb sx sy) * (IZR (Z.pos m') * bpow e')
             - sgn (xorb sx sy) * (X * Y))
      with (sgn (xorb sx sy) * (IZR (Z.pos m') * bpow e' - X * Y)) by ring.
    destruct (xorb sx sy); cbn [sgn].
    + replace (-1 * (IZR (Z.pos m') * bpow e' - X * Y))
        with (- (IZR (Z.pos m') * bpow e' - X * Y)) by ring.
      rewrite Rabs_Ropp. exact Herr.
    + rewrite Rmult_1_l. exact Herr.
Qed.

Lemma iter_xO (m d : positive) :
  Z.pos (Pos.iter xO m d) = (Z.pos m * 2 ^ Z.pos d)%Z.
Proof.
  induction d as [|d IH] using Pos.peano_ind.
  - cbn [Pos.iter]. rewrite (Pos2Z.inj_xO m). change (2 ^ 1)%Z with 2%Z. lia.
  - rewrite Pos.iter_succ, (Pos2Z.inj_xO (Pos.iter xO m d)), IH.
    rewrite Pos2Z.inj_succ, Z.pow_succ_r by lia. lia.
Qed.

(** Alignment to a smaller exponent multiplies the mantissa. *)
Lemma shl_align_spec (m : positive) (e e' : Z) :
  exists (mz : positive) (ez : Z),
    shl_align m e e' = (mz, ez)
    /\ ez = Z.min e e'
    /\ Z.pos mz = (Z.pos m * 2 ^ (e - ez))%Z.
Proof.
  unfold shl_align. destruct (e' - e)%Z as [|d|d] eqn:E.
  - exists m, e. split; [reflexivity|]. split; [lia|].
    rewrite Z.sub_diag. change (2 ^ 0)%Z with 1%Z. lia.
  - exists m, e. split; [reflexivity|]. split; [lia|].
    rewrite Z.sub_diag. change (2 ^ 0)%Z with 1%Z. lia.
  - exists (Pos.iter xO m d), e'. split; [reflexivity|]. split; [lia|].
    rewrite iter_xO. f_equal. f_equal. lia.
Qed.

Lemma shl_align_fst (m : positive) (e e' : Z) :
  (e' <= e)%Z -> Z.pos (fst (shl_align m e e')) = (Z.pos m * 2 ^ (e - e'))%Z.
Proof.
  intros H. destruct (shl_align_spec m e e') as (mz & ez & -> & Hez & Hmz).
  cbn [fst]. rewrite Hmz. f_equal. f_equal. lia.
Qed.

Lemma digits_shift (m k : Z) :
  (0 < m)%Z -> (0 <= k)%Z -> Zdigits2 (m * 2 ^ k) = (Zdigits2 m + k)%Z.
Proof.
  intros Hm Hk. pose proof (Zdigits2_bounds m Hm) as [Hlo Hhi].
  pose proof (Zdigits2_pos m Hm) as Hd. pose proof (pow2_pos k Hk) as Hp.
  apply Zdigits2_unique; [lia|].
  replace (Zdigits2 m + k - 1)%Z with (Zdigits2 m - 1 + k)%Z by lia.
  rewrite !Z.pow_add_r by lia. nia.
Qed.

(** [binary_round] in the normal range. *)
Lemma binary_round_R (s : bool) (m : positive) (e : Z) :
  bpow (-1021) <= IZR (Z.pos m) * bpow e <= bpow 1022 ->
  exists (m' : positive) (e' : Z),
    binary_round prec emax s m e = S754_finite s m' e'
    /\ Rabs (IZR (Z.pos m') * bpow e' - IZR (Z.pos m) * bpow e)
       <= eps * (IZR (Z.pos m) * bpow e)
    /\ valid_binary (S754_finite s m' e') = true.
Proof.
  intros Ht. unfold binary_round.
  change (Z.pos (digits2_pos m)) with (Zdigits2 (Z.pos m)).
  pose proof (mantissa_binade (Z.pos m) eq_refl) as [Blo Bhi].
  pose proof (Zdigits2_pos (Z.pos m) eq_refl) as Hd.
  pose proof (bpow_pos e) as He.
  set (d := Zdigits2 (Z.pos m)) in *.
  assert (Hlo : (-1074 <= d + e - 53)%Z).
  { assert (bpow (-1021) <= bpow (d + e)) by (rewrite bpow_add; nra).
    apply bpow_le_inv in H. lia. }
  rewrite fexp64. unfold emin64.
  replace (Z.max (d + e - 53) (-1074)) with (d + e - 53)%Z by lia.
  destruct (shl_align_spec m e (d + e - 53)) as (mz & ez & -> & Hez & Hmz).
  assert (Hk : (0 <= e - ez)%Z) by lia.
  assert (Hval : IZR (Z.pos mz) * bpow ez = IZR (Z.pos m) * bpow e).
  { rewrite Hmz, mult_IZR, <- bpow_IZR by exact Hk.
    rewrite Rmult_assoc, <- bpow_add. f_equal. f_equal. lia. }
  assert (Hdig : (53 <= Zdigits2 (Z.pos mz))%Z).
  { rewrite Hmz, digits_shift by lia. fold d. lia. }
  destruct (round_R s (Z.pos mz) ez loc_Exact (IZR (Z.pos m) * bpow e))
    as (m' & e' & Hres & Herr & _ & Hvalid).
  - lia.
  - exact Hdig.
  - exact Ht.
  - rewrite <- Hval. pose proof (bpow_pos ez). nra.
  - exists m', e'. repeat split; assumption.
Qed.

(** [binary_normalize]: an integer times a power of two, rounded. *)
Lemma binary_normalize_R (M e : Z) (szero : bool) :
  (IZR M * bpow e = 0
   \/ bpow (-1021) <= Rabs (IZR M * bpow e) <= bpow 1022) ->
  SFfinite (binary_normalize prec emax M e szero) = true
  /\ Rabs (SF2R (binary_normalize prec emax M e szero) - IZR M * bpow e)
     <= eps * Rabs (IZR M * bpow e)
  /\ valid_binary (binary_normalize prec emax M e szero) = true.
Proof.
  intros Hr. destruct M as [|m|m]; cbn [binary_normalize].
  - split; [reflexivity|]. split; [|reflexivity].
    cbn [SF2R]. rewrite Rmult_0_l, Rminus_0_r, Rabs_R0. lra.
  - pose proof (mag_pos m e) as Hp.
    rewrite (Rabs_pos_eq (IZR (Z.pos m) * bpow e)) in * by lra.
    destruct Hr as [Hr|Hr]; [lra|].
    destruct (binary_round_R false m e Hr) as (m' & e' & -> & Herr & Hvalid).
    split; [reflexivity|]. split; [|exact Hvalid]. rewrite SF2R_finite. cbn [sgn].
    rewrite Rmult_1_l. exact Herr.
  - pose proof (mag_pos m e) as Hp.
    assert (Hneg : IZR (Z.neg m) * bpow e = - (IZR (Z.pos m) * bpow e)).
    { change (Z.neg m) with (- Z.pos m)%Z. rewrite opp_IZR. ring. }
    rewrite Hneg in *. rewrite Rabs_Ropp in *.
    rewrite (Rabs_pos_eq (IZR (Z.pos m) * bpow e)) in * by lra.
    destruct Hr as [Hr|Hr]; [lra|].
    destruct (binary_round_R true m e Hr) as (m' & e' & -> & Herr & Hvalid).
    split; [reflexivity|]. split; [|exact Hvalid]. rewrite SF2R_finite. cbn [sgn].
    replace (-1 * (IZR (Z.pos m') * bpow e') - - (IZR (Z.pos m) * bpow e))
      with (- (IZR (Z.pos m') * bpow e' - IZR (Z.pos m) * bpow e)) by ring.
    rewrite Rabs_Ropp. exact Herr.
Qed.

(** The aligned sum of two finite floats is their exact sum. *)
Lemma aligned_value (s : bool) (m : positive) (e ez : Z) :
  (ez <= e)%Z ->
  IZR (cond_Zopp s (Z.pos (fst (shl_align m e ez)))) * bpow ez
  = SF2R (S754_finite s m e).
Proof.
  intros H. rewrite shl_align_fst by exact H.
  rewrite SF2R_finite, IZR_cond_Zopp, mult_IZR, <- bpow_IZR by lia.
  replace (bpow e) with (bpow (e - ez) * bpow ez)
    by (rewrite <- bpow_add; f_equal; lia).
  unfold sgn. destruct s; ring.
Qed.

Lemma add_R (x y : float) :
  finite x -> finite y ->
  (F2R x + F2R y = 0 \/ bpow (-1021) <= Rabs (F2R x + F2R y) <= bpow 1022) ->
  finite (x + y)%float
  /\ Rabs (F2R (x + y)%float - (F2R x + F2R y)) <= eps * Rabs (F2R x + F2R y).
Proof.
  unfold finite, F2R. rewrite add_spec. unfold SF64add.
  intros Hx Hy Hr.
  assert (Heps : 0 <= eps) by (apply Rlt_le, bpow_pos).
  destruct (finite_cases x Hx) as [[sx Ex]|(sx & mx & ex & Ex & Vx)];
    destruct (finite_cases y Hy) as [[sy Ey]|(sy & my & ey & Ey & Vy)];
    rewrite Ex, Ey in *.
  - assert (Hz : exists s, SFadd prec emax (S754_zero sx) (S754_zero sy) = S754_zero s).
    { destruct sx, sy; cbn; eauto. }
    destruct Hz as [s ->]. split; [reflexivity|]. cbn [SF2R].
    rewrite Rplus_0_l, Rminus_0_r, Rabs_R0. lra.
  - cbn [SFadd]. split; [reflexivity|]. cbn [SF2R] in *.
    rewrite Rplus_0_l. unfold Rminus. rewrite Rplus_opp_r, Rabs_R0.
    pose proof (Rabs_pos (IZR (cond_Zopp sy (Z.pos my)) * bpow ey)). nra.
  - cbn [SFadd]. split; [reflexivity|]. cbn [SF2R] in *.
    rewrite Rplus_0_r. unfold Rminus. rewrite Rplus_opp_r, Rabs_R0.
    pose proof (Rabs_pos (IZR (cond_Zopp sx (Z.pos mx)) * bpow ex)). nra.
  - cbn [SFadd].
    set (ez := Z.min ex ey).
    set (M := (cond_Zopp sx (Z.pos (fst (shl_align mx ex ez)))
               + cond_Zopp sy (Z.pos (fst (shl_align my ey ez))))%Z).
    assert (HM : IZR M * bpow ez
                 = SF2R (S754_finite sx mx ex) + SF2R (S754_finite sy my ey)).
    { unfold M. rewrite plus_IZR, Rmult_plus_distr_r.
      rewrite !aligned_value by (unfold ez; lia). reflexivity. }
    rewrite <- HM in *.
    destruct (binary_normalize_R M ez false Hr) as (Hfin & Herr & _).
    split; assumption.
Qed.

Lemma sub_R (x y : float) :
  finite x -> finite y ->
  (F2R x - F2R y = 0 \/ bpow (-1021) <= Rabs (F2R x - F2R y) <= bpow 1022) ->
  finite (x - y)%float
  /\ Rabs (F2R (x - y)%float - (F2R x - F2R y)) <= eps * Rabs (F2R x - F2R y).
Proof.
  unfold finite, F2R. rewrite sub_spec. unfold SF64sub.
  intros Hx Hy Hr.
  assert (Heps : 0 <= eps) by (apply Rlt_le, bpow_pos).
  destruct (finite_cases x Hx) as [[sx Ex]|(sx & mx & ex & Ex & Vx)];
    destruct (finite_cases y Hy) as [[sy Ey]|(sy & my & ey & Ey & Vy)];
    rewrite Ex, Ey in *.
  - assert (Hz : exists s, SFsub prec emax (S754_zero sx) (S754_zero sy) = S754_zero s).
    { destruct sx, sy; cbn; eauto. }
    destruct Hz as [s ->]. split; [reflexivity|]. cbn [SF2R].
    rewrite !Rminus_0_r, Rabs_R0. lra.
  - cbn [SFsub]. split; [reflexivity|].
    rewrite !SF2R_finite, sgn_negb. cbn [SF2R].
    replace (- sgn sy * (IZR (Z.pos my) * bpow ey)
             - (0 - sgn sy * (IZR (Z.pos my) * bpow ey))) with 0 by ring.
    rewrite Rabs_R0.
    pose proof (Rabs_pos (0 - sgn sy * (IZR (Z.pos my) * bpow ey))). nra.
  - cbn [SFsub]. split; [reflexivity|]. cbn [SF2R] in *.
    rewrite Rminus_0_r. unfold Rminus. rewrite Rplus_opp_r, Rabs_R0.
    pose proof (Rabs_pos (IZR (cond_Zopp sx (Z.pos mx)) * bpow ex)). nra.
  - cbn [SFsub].
    set (ez := Z.min ex ey).
    set (M := (cond_Zopp sx (Z.pos (fst (shl_align mx ex ez)))
               - cond_Zopp sy (Z.pos (fst (shl_align my ey ez))))%Z).
    assert (HM : IZR M * bpow ez
                 = SF2R (S754_finite sx mx ex) - SF2R (S754_finite sy my ey)).
    { unfold M. rewrite minus_IZR. unfold Rminus.
      rewrite Rmult_plus_distr_r, Ropp_mult_distr_l_reverse.
      rewrite !aligned_value by (unfold ez; lia). reflexivity. }
    rewrite <- HM in *.
    destruct (binary_normalize_R M ez false Hr) as (Hfin & Herr & _).
    split; assumption.
Qed.

Lemma mantissa_53 (m : positive) :
  Zdigits2 (Z.pos m) = 53%Z -> (2 ^ 52 <= Z.pos m < 2 ^ 53)%Z.
Proof.
  intros H. pose proof (Zdigits2_bounds (Z.pos m) eq_refl) as B.
  rewrite H in B. exact B.
Qed.

Lemma div_R (x y : float) :
  finite x -> finite y ->
  (F2R x = 0 \/ bpow (-1022) <= Rabs (F2R x)) ->
  bpow (-1022) <= Rabs (F2R y) ->
  (F2R x = 0 \/ bpow (-1021) <= Rabs (F2R x / F2R y) <= bpow 1022) ->
  finite (x / y)%float
  /\ Rabs (F2R (x / y)%float - F2R x / F2R y) <= eps * Rabs (F2R x / F2R y).
Proof.
  unfold finite, F2R. rewrite div_spec. unfold SF64div.
  intros Hx Hy Nx Ny Hr.
  assert (Heps : 0 <= eps) by (apply Rlt_le, bpow_pos).
  pose proof (bpow_pos (-1022)) as Htiny.
  destruct (finite_cases y Hy) as [[sy Ey]|(sy & my & ey & Ey & Vy)];
    rewrite Ey in *.
  { cbn [SF2R] in Ny. rewrite Rabs_R0 in Ny. lra. }
  destruct (finite_cases x Hx) as [[sx Ex]|(sx & mx & ex & Ex & Vx)];
    rewrite Ex in *.
  { cbn [SFdiv]. split; [reflexivity|]. cbn [SF2R].
    unfold Rdiv. rewrite Rmult_0_l, Rminus_0_r, Rabs_R0. lra. }
  cbn [SFdiv].
  rewrite !SF2R_finite in *.
  pose proof (mag_pos mx ex) as Px. pose proof (mag_pos my ey) as Py.
  set (X := IZR (Z.pos mx) * bpow ex) in *.
  set (Y := IZR (Z.pos my) * bpow ey) in *.
  rewrite (sgn_abs sx X) in Nx by lra.
  rewrite (sgn_abs sy Y) in Ny by lra.
  assert (Dx : Zdigits2 (Z.pos mx) = 53%Z).
  { apply (normal_digits sx mx ex Vx). fold X.
    destruct Nx as [Nx|Nx]; [|exact Nx]. destruct sx; cbn [sgn] in Nx; lra. }
  assert (Dy : Zdigits2 (Z.pos my) = 53%Z).
  { apply (normal_digits sy my ey Vy). fold Y. exact Ny. }
  pose proof (mantissa_53 mx Dx) as [Lx Ux].
  pose proof (mantissa_53 my Dy) as [Ly Uy].
  assert (Hquot : sgn sx * X / (sgn sy * Y) = sgn (xorb sx sy) * (X / Y)).
  { rewrite sgn_xorb. destruct sx, sy; cbn [sgn]; field; lra. }
  rewrite Hquot in *.
  assert (Pq : 0 < X / Y) by (apply Rdiv_lt_0_compat; lra).
  rewrite sgn_abs in Hr |- * by lra.
  destruct Hr as [Hr|Hr].
  { destruct sx; cbn [sgn] in Hr; lra. }
  (* the exponent of the quotient *)
  assert (Hz : (-1021 <= ex - ey)%Z).
  { assert (H0 : X < bpow (ex - ey + 1) * Y).
    { unfold X, Y.
      replace (bpow (ex - ey + 1) * (IZR (Z.pos my) * bpow ey))
        with (2 * IZR (Z.pos my) * bpow ex).
      2:{ replace (bpow (ex - ey + 1) * (IZR (Z.pos my) * bpow ey))
            with (IZR (Z.pos my) * (bpow (ex - ey + 1) * bpow ey)) by ring.
          rewrite <- bpow_add. replace (ex - ey + 1 + ey)%Z with (1 + ex)%Z by lia.
          rewrite bpow_add, bpow_1. ring. }
      pose proof (bpow_pos ex) as Hpe.
      apply IZR_lt in Ux. apply IZR_le in Ly.
      rewrite <- bpow_IZR in Ux, Ly by lia.
      change 53%Z with (1 + 52)%Z in Ux. rewrite bpow_add, bpow_1 in Ux.
      clear - Ux Ly Hpe. nra. }
    assert (H : X / Y < bpow (ex - ey + 1)).
    { apply Rmult_lt_reg_r with Y; [exact Py|].
      unfold Rdiv. rewrite Rmult_assoc, Rinv_l, Rmult_1_r by lra. exact H0. }
    assert (H' : bpow (-1021) < bpow (ex - ey + 1)) by lra.
    apply bpow_lt_inv in H'. lia. }
  unfold SFdiv_core_binary. rewrite Dx, Dy, fexp64. unfold emin64.
  replace (Z.min (Z.max (53 + ex - (53 + ey) - 53) (-1074)) (ex - ey))
    with (ex - ey - 53)%Z by lia.
  replace (ex - ey - (ex - ey - 53))%Z with 53%Z by lia.
  cbv iota.
  rewrite Z.shiftl_mul_pow2 by lia.
  pose proof (Z_div_mod (Z.pos mx * 2 ^ 53) (Z.pos my) eq_refl) as Hdm.
  destruct (Z.div_eucl (Z.pos mx * 2 ^ 53) (Z.pos my)) as [q r].
  destruct Hdm as [Hdm Hrem].
  assert (Hq : (2 ^ 52 <= q)%Z).
  { change (2 ^ 53)%Z with 9007199254740992%Z in *.
    change (2 ^ 52)%Z with 4503599627370496%Z in *. nia. }
  assert (Hq0 : (0 < q)%Z)
    by (change (2 ^ 52)%Z with 4503599627370496%Z in Hq; lia).
  assert (HmyR : 0 < IZR (Z.pos my)) by (apply IZR_lt; lia).
  assert (Hval : X / Y = IZR (Z.pos mx * 2 ^ 53) / IZR (Z.pos my)
                         * bpow (ex - ey - 53)).
  { unfold X, Y. rewrite mult_IZR, <- (bpow_IZR 53) by lia.
    replace (bpow (ex - ey - 53)) with (bpow ex / bpow ey / bpow 53).
    2:{ unfold Z.sub. rewrite !bpow_add, !bpow_opp. reflexivity. }
    pose proof (bpow_pos ex). pose proof (bpow_pos ey). pose proof (bpow_pos 53).
    field. repeat split; lra. }
  assert (Hbr : IZR q <= IZR (Z.pos mx * 2 ^ 53) / IZR (Z.pos my) <= IZR q + 1).
  { rewrite Hdm, plus_IZR, mult_IZR.
    destruct Hrem as [R0 R1]. apply IZR_le in R0. apply IZR_lt in R1.
    split.
    - apply Rmult_le_reg_r with (IZR (Z.pos my)); [lra|].
      field_simplify; [|lra]. nra.
    - apply Rmult_le_reg_r with (IZR (Z.pos my)); [lra|].
      field_simplify; [|lra]. nra. }
  pose proof (bpow_pos (ex - ey - 53)) as Hpe.
  destruct (round_R (xorb sx sy) q (ex - ey - 53) (new_location (Z.pos my) r)
              (X / Y)) as (m' & e' & Hres & Herr & _ & Hvalid).
  - exact Hq0.
  - apply digits_ge; [lia | exact Hq].
  - exact Hr.
  - rewrite Hval. nra.
  - rewrite Hres. split; [reflexivity|].
    rewrite SF2R_finite.
    replace (sgn (xorb sx sy) * (IZR (Z.pos m') * bpow e')
             - sgn (xorb sx sy) * (X / Y))
      with (sgn (xorb sx sy) * (IZR (Z.pos m') * bpow e' - X / Y)) by ring.
    destruct (xorb sx sy); cbn [sgn].
    + replace (-1 * (IZR (Z.pos m') * bpow e' - X / Y))
        with (- (IZR (Z.pos m') * bpow e' - X / Y)) by ring.
      rewrite Rabs_Ropp. exact Herr.
    + rewrite Rmult_1_l. exact Herr.
Qed.

Lemma bpow_double (e : Z) : bpow (2 * e) = bpow e * bpow e.
Proof. replace (2 * e)%Z with (e + e)%Z by lia. apply bpow_add. Qed.

Lemma sqrt_bracket (n q : Z) :
  (0 <= q)%Z -> (q * q <= n < (q + 1) * (q + 1))%Z ->
  IZR q <= sqrt (IZR n) <= IZR q + 1.
Proof.
  intros Hq [Hlo Hhi].
  apply IZR_le in Hq, Hlo. apply IZR_lt in Hhi.
  rewrite !mult_IZR, ?plus_IZR in *.
  split.
  - rewrite <- (sqrt_square (IZR q)) at 1 by exact Hq.
    apply sqrt_le_1_alt. exact Hlo.
  - rewrite <- (sqrt_square (IZR q + 1)) by lra.
    apply sqrt_le_1_alt. lra.
Qed.

Lemma sqrt_R (x : float) :
  finite x ->
  (F2R x = 0 \/ bpow (-1022) <= F2R x) ->
  finite (PrimFloat.sqrt x)
  /\ Rabs (F2R (PrimFloat.sqrt x) - sqrt (F2R x)) <= eps * sqrt (F2R x).
Proof.
  unfold finite, F2R. rewrite sqrt_spec. unfold SF64sqrt.
  intros Hx Nx.
  assert (Heps : 0 <= eps) by (apply Rlt_le, bpow_pos).
  pose proof (bpow_pos (-1022)) as Htiny.
  destruct (finite_cases x Hx) as [[sx Ex]|(sx & mx & ex & Ex & Vx)];
    rewrite Ex in *.
  { cbn [SFsqrt]. split; [reflexivity|]. cbn [SF2R].
    rewrite sqrt_0, Rminus_0_r, Rabs_R0. lra. }
  rewrite SF2R_finite in *.
  pose proof (mag_pos mx ex) as Px.
  set (X := IZR (Z.pos mx) * bpow ex) in *.
  assert (Hs : sx = false).
  { destruct sx; [|reflexivity]. cbn [sgn] in Nx. lra. }
  subst sx. cbn [sgn] in *. rewrite Rmult_1_l in *.
  destruct Nx as [Nx|Nx]; [lra|].
  destruct (normal_digits false mx ex Vx Nx) as [Dx [Elo Ehi]].
  pose proof (mantissa_53 mx Dx) as [Lx Ux].
  cbn [SFsqrt]. unfold SFsqrt_core_binary. rewrite Dx, fexp64. unfold emin64.
  rewrite !Z.div2_div.
  set (h := (ex / 2)%Z).
  assert (Hh : (ex = 2 * h \/ ex = 2 * h + 1)%Z) by (unfold h; dlia).
  replace ((53 + ex + 1) / 2)%Z with (h + 27)%Z by (unfold h; dlia).
  replace (Z.min (Z.max (h + 27 - 53) (-1074)) h) with (h - 26)%Z by lia.
  set (s := (ex - 2 * (h - 26))%Z).
  assert (Hs : (s = 52 \/ s = 53)%Z) by (unfold s; lia).
  assert (Hm' : match s with
                | Z.pos _ => Z.shiftl (Z.pos mx) s
                | 0%Z => Z.pos mx
                | Z.neg _ => 0%Z
                end = (Z.pos mx * 2 ^ s)%Z).
  { destruct Hs as [-> | ->]; rewrite Z.shiftl_mul_pow2 by lia; reflexivity. }
  rewrite Hm'.
  assert (Hm'lo : (2 ^ 104 <= Z.pos mx * 2 ^ s)%Z).
  { change (2 ^ 104)%Z with (2 ^ 52 * 2 ^ 52)%Z.
    apply Z.mul_le_mono_nonneg; [lia | exact Lx | lia |].
    destruct Hs as [-> | ->]; [lia | apply pow2_le; lia]. }
  assert (Hm'hi : (Z.pos mx * 2 ^ s < 2 ^ 106)%Z).
  { change (2 ^ 106)%Z with (2 ^ 53 * 2 ^ 53)%Z.
    assert (2 ^ s <= 2 ^ 53)%Z by (destruct Hs as [-> | ->]; [apply pow2_le|]; lia).
    assert (0 < 2 ^ s)%Z by (apply pow2_pos; lia).
    change (2 ^ 53)%Z with 9007199254740992%Z in *. nia. }
  pose proof (Z.sqrtrem_spec (Z.pos mx * 2 ^ s)) as Hsq.
  destruct (Z.sqrtrem (Z.pos mx * 2 ^ s)) as [q r].
  assert (Hm'0 : (0 <= Z.pos mx * 2 ^ s)%Z)
    by (change (2 ^ 104)%Z with 20282409603651670423947251286016%Z in Hm'lo; lia).
  specialize (Hsq Hm'0). destruct Hsq as [Hsq Hrem].
  assert (Hq : (2 ^ 52 <= q < 2 ^ 53)%Z).
  { change (2 ^ 104)%Z with (4503599627370496 * 4503599627370496)%Z in Hm'lo.
    change (2 ^ 106)%Z with (9007199254740992 * 9007199254740992)%Z in Hm'hi.
    change (2 ^ 52)%Z with 4503599627370496%Z.
    change (2 ^ 53)%Z with 9007199254740992%Z. nia. }
  assert (Hq0 : (0 < q)%Z)
    by (change (2 ^ 52)%Z with 4503599627370496%Z in Hq; lia).
  assert (Hval : sqrt X = sqrt (IZR (Z.pos mx * 2 ^ s)) * bpow (h - 26)).
  { pose proof (bpow_pos (h - 26)) as Hp.
    rewrite <- (sqrt_square (bpow (h - 26))) at 1 by lra.
    rewrite <- sqrt_mult by (first [apply IZR_le; exact Hm'0 | nra]).
    f_equal. unfold X. rewrite mult_IZR, <- bpow_IZR by lia.
    rewrite <- bpow_double, Rmult_assoc, <- bpow_add. f_equal. f_equal.
    unfold s. lia. }
  pose proof (sqrt_bracket (Z.pos mx * 2 ^ s) q) as Hbr.
  assert (Hbr' : IZR q <= sqrt (IZR (Z.pos mx * 2 ^ s)) <= IZR q + 1).
  { apply Hbr; [lia|]. nia. }
  pose proof (bpow_pos (h - 26)) as Hpe.
  assert (Hq52 : bpow 52 <= IZR q).
  { rewrite bpow_IZR by lia. apply IZR_le. lia. }
  assert (Hq53 : IZR q + 1 <= bpow 53).
  { rewrite bpow_IZR by lia. rewrite <- plus_IZR. apply IZR_le. lia. }
  assert (Hrange : bpow (-1021) <= sqrt X <= bpow 1022).
  { rewrite Hval. split.
    - apply Rle_trans with (bpow 52 * bpow (h - 26)); [|nra].
      rewrite <- bpow_add. apply bpow_le. lia.
    - apply Rle_trans with (bpow 53 * bpow (h - 26)); [nra|].
      rewrite <- bpow_add. apply bpow_le. lia. }
  destruct (round_R false q (h - 26)
              (if (r =? 0)%Z then loc_Exact
               else loc_Inexact (if (r <=? q)%Z then Lt else Gt))
              (sqrt X)) as (m' & e' & Hres & Herr & _ & Hvalid).
  - exact Hq0.
  - apply digits_ge; [lia | lia].
  - exact Hrange.
  - rewrite Hval. nra.
  - rewrite Hres. split; [reflexivity|].
    rewrite SF2R_finite. cbn [sgn]. rewrite Rmult_1_l. exact Herr.
Qed.

Lemma Zdigits2_le (m k : Z) :
  (0 <= k)%Z -> (0 <= m < 2 ^ k)%Z -> (Zdigits2 m <= k)%Z.
Proof.
  intros Hk [H0 H1]. destruct (Z.eq_dec m 0) as [->|Hne]; [cbn; lia|].
  assert (Hm : (0 < m)%Z) by lia.
  pose proof (Zdigits2_bounds m Hm) as [Hlo _].
  pose proof (Zdigits2_pos m Hm) as Hd.
  destruct (Z_le_gt_dec (Zdigits2 m) k) as [L|L]; [exact L|].
  pose proof (pow2_le k (Zdigits2 m - 1)). lia.
Qed.

(** Rounding below the overflow threshold, the subnormal range
    included: the result is a zero or finite, and its magnitude is that of
    the mantissa shifted by [n] places, or the next one. *)
Lemma binary_round_aux_weak (sx : bool) (mx ex : Z) (lx : location) :
  (0 < mx)%Z ->
  (0 <= Z.max (Zdigits2 mx - 53) (-1074 - ex))%Z ->
  (Zdigits2 mx + ex <= 1023)%Z ->
  let n := Z.max (Zdigits2 mx - 53) (-1074 - ex) in
  exists m2 : Z,
    (m2 = mx / 2 ^ n \/ m2 = mx / 2 ^ n + 1)%Z
    /\ SFfinite (binary_round_aux prec emax sx mx ex lx) = true
    /\ SF2R (binary_round_aux prec emax sx mx ex lx)
       = sgn sx * (IZR m2 * bpow (ex + n)).
Proof.
  intros Hm Hn Hhi n. fold n in Hn.
  pose proof (Zdigits2_bounds mx Hm) as [Dlo Dhi].
  pose proof (Zdigits2_pos mx Hm) as Hd.
  set (d := Zdigits2 mx) in *.
  pose proof (pow2_pos n Hn) as Hpn.
  assert (Hshr : exists mrs,
             shr_fexp prec emax mx ex lx = (mrs, (ex + n)%Z)
             /\ shr_m mrs = (mx / 2 ^ n)%Z).
  { unfold shr_fexp. rewrite fexp64. fold d. unfold emin64.
    replace (Z.max (d + ex - 53) (-1074) - ex)%Z with n by (unfold n; lia).
    unfold shr. destruct n as [|p|p] eqn:En; try lia.
    - exists (shr_record_of_loc mx lx). rewrite Z.add_0_r.
      split; [reflexivity|]. rewrite shr_m_of_loc.
      change (2 ^ 0)%Z with 1%Z. rewrite Z.div_1_r. reflexivity.
    - exists (SpecFloat.iter_pos shr_1 p (shr_record_of_loc mx lx)).
      split; [reflexivity|].
      rewrite iter_pos_shr_m by (rewrite shr_m_of_loc; lia).
      rewrite shr_m_of_loc. reflexivity. }
  destruct Hshr as (mrs & Hshr & Hmrs).
  unfold binary_round_aux. rewrite Hshr.
  set (m2 := round_nearest_even (shr_m mrs) (loc_of_shr_record mrs)).
  assert (Hm2 : (m2 = mx / 2 ^ n \/ m2 = mx / 2 ^ n + 1)%Z).
  { unfold m2. rewrite <- Hmrs. apply round_nearest_even_cases. }
  assert (Hq : (0 <= mx / 2 ^ n < 2 ^ 53)%Z).
  { split; [apply Z.div_pos; lia|].
    apply Z.div_lt_upper_bound; [lia|].
    apply Z.lt_le_trans with (2 ^ d)%Z; [exact Dhi|].
    rewrite <- Z.pow_add_r by lia. apply pow2_le. unfold n. lia. }
  exists m2. split; [exact Hm2|].
  assert (He1 : (-1074 <= ex + n <= 970)%Z) by (unfold n; lia).
  destruct (Z.eq_dec m2 (2 ^ 53)) as [Heq|Hne].
  - assert (Hdig : Zdigits2 m2 = 54%Z).
    { apply Zdigits2_unique; [lia|]. rewrite Heq.
      change (54 - 1)%Z with 53%Z. split; [lia|]. apply pow2_lt. lia. }
    unfold shr_fexp. rewrite Hdig, fexp64. unfold emin64.
    replace (Z.max (54 + (ex + n) - 53) (-1074) - (ex + n))%Z with 1%Z by lia.
    cbn [shr SpecFloat.iter_pos]. rewrite shr_1_m by (rewrite shr_m_of_loc; lia).
    rewrite shr_m_of_loc, Heq. change (2 ^ 53 / 2)%Z with (Z.pos (2 ^ 52)).
    cbv iota beta.
    replace (ex + n + 1 <=? emax - prec)%Z with true
      by (symmetry; apply Z.leb_le; change (emax - prec)%Z with 971%Z; lia).
    split; [reflexivity|]. rewrite SF2R_finite. f_equal.
    replace (ex + n + 1)%Z with (1 + (ex + n))%Z by lia.
    rewrite bpow_add, bpow_1.
    change (Z.pos (2 ^ 52)) with (2 ^ 52)%Z.
    change (2 ^ 53)%Z with (2 * 2 ^ 52)%Z. rewrite (mult_IZR 2). ring.
  - assert (Hr : (0 <= m2 < 2 ^ 53)%Z) by lia.
    assert (Hdig : (Zdigits2 m2 <= 53)%Z) by (apply Zdigits2_le; lia).
    assert (Hdig0 : (0 <= Zdigits2 m2)%Z).
    { destruct m2 as [|p|p]; cbn; lia. }
    unfold shr_fexp. rewrite fexp64. unfold emin64.
    assert (Hn2 : (Z.max (Zdigits2 m2 + (ex + n) - 53) (-1074) - (ex + n) <= 0)%Z)
      by lia.
    assert (Hshr2 : shr (shr_record_of_loc m2 loc_Exact) (ex + n)
                      (Z.max (Zdigits2 m2 + (ex + n) - 53) (-1074) - (ex + n))
                    = (shr_record_of_loc m2 loc_Exact, (ex + n)%Z)).
    { unfold shr.
      destruct (Z.max (Zdigits2 m2 + (ex + n) - 53) (-1074) - (ex + n))%Z;
        try reflexivity. lia. }
    rewrite Hshr2. rewrite shr_m_of_loc.
    destruct m2 as [|p|p] eqn:Ep; try lia.
    + split; [reflexivity|]. cbn [SF2R]. rewrite Rmult_0_l, Rmult_0_r. reflexivity.
    + replace (ex + n <=? emax - prec)%Z with true
        by (symmetry; apply Z.leb_le; change (emax - prec)%Z with 971%Z; lia).
      split; [reflexivity|]. apply SF2R_finite.
Qed.

(** Valid mantissas have at most 53 digits, and 53 unless the exponent
    is the least one. *)
Lemma valid_digits (s : bool) (m : positive) (e : Z) :
  valid_binary (S754_finite s m e) = true ->
  (Zdigits2 (Z.pos m) <= 53)%Z /\ (-1074 <= e <= 971)%Z
  /\ (Zdigits2 (Z.pos m) = 53 \/ e = -1074)%Z.
Proof.
  cbn [SpecFloat.valid_binary].
    unfold SpecFloat.bounded, SpecFloat.canonical_mantissa.
  intros Hv. apply andb_true_iff in Hv. destruct Hv as [Hc Hb].
  apply Z.eqb_eq in Hc. apply Z.leb_le in Hb.
  rewrite fexp64 in Hc. change (emax - prec)%Z with 971%Z in Hb.
  change (Z.pos (digits2_pos m)) with (Zdigits2 (Z.pos m)) in Hc.
  unfold emin64 in Hc. lia.
Qed.

(** The product of two finite floats, below the overflow threshold: the
    error is relative in the normal range and absolute below it. *)
Lemma mul_weak_R (x y : float) :
  finite x -> finite y ->
  Rabs (F2R x * F2R y) <= bpow 1022 ->
  finite (x * y)%float
  /\ Rabs (F2R (x * y)%float - F2R x * F2R y)
     <= eps * Rabs (F2R x * F2R y) + bpow (-1074)
  /\ 0 <= F2R (x * y)%float * (F2R x * F2R y).
Proof.
  unfold finite, F2R. rewrite mul_spec. unfold SF64mul.
  intros Hx Hy Hr.
  assert (Heps : 0 < eps) by apply bpow_pos.
  pose proof (bpow_pos (-1074)) as Htiny.
  destruct (finite_cases x Hx) as [[sx Ex]|(sx & mx & ex & Ex & Vx)];
    destruct (finite_cases y Hy) as [[sy Ey]|(sy & my & ey & Ey & Vy)];
    rewrite Ex, Ey in *; cbn [SFmul];
    try (split; [reflexivity|]; cbn [SF2R];
         rewrite ?Rmult_0_l, ?Rmult_0_r, Rminus_0_r, Rabs_R0; lra).
  rewrite !SF2R_finite in *.
  pose proof (mag_pos mx ex) as Px. pose proof (mag_pos my ey) as Py.
  set (X := IZR (Z.pos mx) * bpow ex) in *.
  set (Y := IZR (Z.pos my) * bpow ey) in *.
  replace (sgn sx * X * (sgn sy * Y)) with (sgn (xorb sx sy) * (X * Y)) in *
    by (rewrite sgn_xorb; ring).
  assert (Pxy : 0 < X * Y) by nra.
  rewrite sgn_abs in Hr |- * by lra.
  assert (Hprod : IZR (Z.pos (mx * my)) * bpow (ex + ey) = X * Y).
  { rewrite Pos2Z.inj_mul, mult_IZR, bpow_add. unfold X, Y. ring. }
  destruct (valid_digits sx mx ex Vx) as (Dx & Ex' & Cx).
  destruct (valid_digits sy my ey Vy) as (Dy & Ey' & Cy).
  pose proof (mantissa_binade (Z.pos (mx * my)) eq_refl) as [Blo Bhi].
  pose proof (Zdigits2_pos (Z.pos (mx * my)) eq_refl) as Hd.
  set (M := Z.pos (mx * my)) in *.
  set (d := Zdigits2 M) in *.
  pose proof (bpow_pos (ex + ey)) as Hpe.
  assert (Hhi : (d + (ex + ey) <= 1023)%Z).
  { assert (bpow (d - 1 + (ex + ey)) <= bpow 1022).
    { rewrite bpow_add. nra. }
    apply bpow_le_inv in H. lia. }
  assert (Hdn : (0 <= Z.max (d - 53) (-1074 - (ex + ey)))%Z).
  { assert (Hone : forall a b : positive,
               Zdigits2 (Z.pos a) = 53%Z -> (53 <= Zdigits2 (Z.pos (a * b)))%Z).
    { intros a b Ha. apply digits_ge; [lia|].
      pose proof (mantissa_53 a Ha) as [La _]. rewrite Pos2Z.inj_mul.
      change (53 - 1)%Z with 52%Z. nia. }
    destruct Cx as [Cx|Cx]; [pose proof (Hone mx my Cx); unfold d, M; lia|].
    destruct Cy as [Cy|Cy]; [|lia].
    pose proof (Hone my mx Cy) as H. rewrite Pos.mul_comm in H.
    unfold d, M. lia. }
  destruct (binary_round_aux_weak (xorb sx sy) M (ex + ey) loc_Exact)
    as (m2 & Hm2 & Hfin & Hval); [reflexivity | exact Hdn | exact Hhi |].
  fold d in Hm2, Hval.
  set (n := Z.max (d - 53) (-1074 - (ex + ey))) in *.
  pose proof (pow2_pos n Hdn) as Hpn.
  set (q := (M / 2 ^ n)%Z) in *.
  assert (Hdiv : (q * 2 ^ n <= M < (q + 1) * 2 ^ n)%Z).
  { unfold q. assert (Hnz : (2 ^ n <> 0)%Z) by lia.
    pose proof (Z.div_mod M (2 ^ n) Hnz).
    pose proof (Z.mod_pos_bound M (2 ^ n) Hpn). lia. }
  assert (Hq0 : (0 <= q)%Z) by (unfold q; apply Z.div_pos; lia).
  set (B := bpow (ex + ey + n)) in *.
  assert (HB : 0 < B) by apply bpow_pos.
  assert (HBn : B = bpow (ex + ey) * IZR (2 ^ n)).
  { unfold B. rewrite bpow_add, (bpow_IZR n) by exact Hdn. reflexivity. }
  assert (Htlo : IZR q * B <= X * Y).
  { rewrite <- Hprod, HBn. destruct Hdiv as [Hdiv _]. apply IZR_le in Hdiv.
    rewrite mult_IZR in Hdiv. nra. }
  assert (Hthi : X * Y <= (IZR q + 1) * B).
  { rewrite <- Hprod, HBn. destruct Hdiv as [_ Hdiv].
    assert (Hz : (M <= (q + 1) * 2 ^ n)%Z) by lia.
    apply IZR_le in Hz. rewrite mult_IZR, !plus_IZR in Hz. nra. }
  assert (HBerr : B <= eps * (X * Y) + bpow (-1074)).
  { destruct (Z_le_gt_dec (d - 53) (-1074 - (ex + ey))) as [L|L].
    - assert (Hn : (ex + ey + n = -1074)%Z) by (unfold n; lia).
      unfold B. rewrite Hn. nra.
    - assert (Hn : n = (d - 53)%Z) by (unfold n; lia).
      assert (H52 : bpow 52 * B <= X * Y).
      { unfold B. rewrite <- bpow_add, Hn.
        replace (52 + (ex + ey + (d - 53)))%Z with (d - 1 + (ex + ey))%Z by lia.
        rewrite bpow_add. nra. }
      pose proof eps_52 as He52.
      assert (B = eps * (bpow 52 * B)) by (rewrite <- Rmult_assoc, He52; ring).
      nra. }
  assert (Hq0R : 0 <= IZR q) by (apply IZR_le; exact Hq0).
  split; [exact Hfin|]. rewrite Hval. fold B.
  replace (sgn (xorb sx sy) * (IZR m2 * B) - sgn (xorb sx sy) * (X * Y))
    with (sgn (xorb sx sy) * (IZR m2 * B - X * Y)) by ring.
  assert (Hm2R : IZR m2 = IZR q \/ IZR m2 = IZR q + 1).
  { destruct Hm2 as [-> | ->]; [left; reflexivity | right; apply plus_IZR]. }
  split.
  - destruct (xorb sx sy); cbn [sgn].
    + replace (-1 * (IZR m2 * B - X * Y)) with (- (IZR m2 * B - X * Y)) by ring.
      rewrite Rabs_Ropp. apply Rabs_le. destruct Hm2R as [-> | ->]; nra.
    + rewrite Rmult_1_l. apply Rabs_le. destruct Hm2R as [-> | ->]; nra.
  - replace (sgn (xorb sx sy) * (IZR m2 * B) * (sgn (xorb sx sy) * (X * Y)))
      with ((sgn (xorb sx sy) * sgn (xorb sx sy)) * (IZR m2 * B * (X * Y))) by ring.
    assert (sgn (xorb sx sy) * sgn (xorb sx sy) = 1)
      by (destruct (xorb sx sy); cbn; lra).
    rewrite H, Rmult_1_l.
    apply Rmult_le_pos; [apply Rmult_le_pos|]; try lra.
Qed.

Lemma bpow_neg_IZR (n : Z) : (0 <= n)%Z -> bpow (- n) * IZR (2 ^ n) = 1.
Proof.
  intros H. rewrite <- bpow_IZR by exact H. rewrite <- bpow_add.
  replace (- n + n)%Z with 0%Z by lia. reflexivity.
Qed.

(** [bpow (-k) * 2^k = 1], with the power as a numeral. *)
Ltac bpow_const k H :=
  pose proof (bpow_neg_IZR k ltac:(lia)) as H; simpl Z.opp in H;
  let v := eval compute in (2 ^ k)%Z in change (2 ^ k)%Z with v in *.

Lemma F2R_one : F2R 1 = 1.
Proof.
  unfold F2R. change (Prim2SF 1) with (S754_finite false 4503599627370496 (-52)).
  rewrite SF2R_finite. cbn [sgn].
  bpow_const 52%Z H.
  change (2 ^ 52)%Z with 4503599627370496%Z in H. lra.
Qed.

Lemma F2R_two : F2R 2 = 2.
Proof.
  unfold F2R. change (Prim2SF 2) with (S754_finite false 4503599627370496 (-51)).
  rewrite SF2R_finite. cbn [sgn].
  bpow_const 52%Z H.
  change (2 ^ 52)%Z with 4503599627370496%Z in H.
  replace (-51)%Z with (1 + - 52)%Z by lia. rewrite bpow_add, bpow_1. lra.
Qed.

Lemma finite_one : finite 1.
Proof. reflexivity. Qed.

Lemma finite_two : finite 2.
Proof. reflexivity. Qed.

(** What the two comparisons of the contract of [Float64] say. *)
Lemma unit_interval (u : float) :
  (0 <=? u)%float = true -> (u <? 1)%float = true ->
  finite u /\ 0 <= F2R u < 1.
Proof.
  rewrite leb_spec, ltb_spec. unfold finite, F2R.
  change (Prim2SF 0) with (S754_zero false).
  change (Prim2SF 1) with (S754_finite false 4503599627370496 (-52)).
  pose proof (Prim2SF_valid u) as Hv.
  destruct (Prim2SF u) as [s|s| |s m e].
  - intros _ _. split; [reflexivity|]. cbn [SF2R]. lra.
  - destruct s; cbn; discriminate.
  - cbn. discriminate.
  - intros H0 H1. split; [reflexivity|].
    destruct s; [cbn in H0; discriminate|].
    rewrite SF2R_finite. cbn [sgn]. rewrite Rmult_1_l.
    pose proof (mag_pos m e) as Hp. split; [lra|].
    destruct (valid_digits false m e Hv) as (Hd & _ & _).
    assert (Hm : (Z.pos m < 2 ^ 53)%Z).
    { pose proof (Zdigits2_bounds (Z.pos m) eq_refl) as [_ Hhi].
      apply Z.lt_le_trans with (2 ^ Zdigits2 (Z.pos m))%Z; [exact Hhi|].
      apply pow2_le. pose proof (Zdigits2_pos (Z.pos m) eq_refl). lia. }
    unfold SFltb, SFcompare in H1.
    destruct (Z.compare_spec e (-52)) as [He|He|He]; try discriminate H1.
    + subst e. destruct (Pos.compare_cont Eq m 4503599627370496) eqn:Ec;
        try discriminate H1.
      assert (Hlt : (Z.pos m < 2 ^ 52)%Z).
      { change (2 ^ 52)%Z with 4503599627370496%Z.
        apply Pos2Z.pos_lt_pos. exact Ec. }
      apply IZR_lt in Hlt. bpow_const 52%Z H.
      pose proof (bpow_pos (-52)). nra.
    + assert (Hle : bpow e <= bpow (-53)) by (apply bpow_le; lia).
      apply IZR_lt in Hm. bpow_const 53%Z H.
      pose proof (bpow_pos e). pose proof (bpow_pos (-53)). nra.
Qed.

(** A finite float is 1 or at least [2^-54] away from it. *)
Lemma away_from_one (y : float) :
  finite y -> F2R y = 1 \/ bpow (-54) <= Rabs (F2R y - 1).
Proof.
  intros Hy. unfold F2R.
  bpow_const 54%Z H54.
  pose proof (bpow_pos (-54)) as Hp54.
  assert (Hsmall : bpow (-54) <= 1 / 2).
  { change (2 ^ 54)%Z with 18014398509481984%Z in H54. lra. }
  destruct (finite_cases y Hy) as [[s E]|(s & m & e & E & V)]; rewrite E.
  - right. cbn [SF2R]. replace (0 - 1) with (- (1)) by ring.
    rewrite Rabs_Ropp, Rabs_R1. lra.
  - rewrite SF2R_finite. pose proof (mag_pos m e) as Hp.
    destruct s; cbn [sgn].
    + right. rewrite Rabs_left by lra. lra.
    + rewrite Rmult_1_l.
      destruct (valid_digits false m e V) as (Hd & _ & _).
      destruct (Z_le_gt_dec (-54) e) as [L|L].
      * set (k := (Z.pos m * 2 ^ (e + 54))%Z).
        assert (Hk : IZR (Z.pos m) * bpow e = IZR k * bpow (-54)).
        { unfold k. rewrite mult_IZR, <- bpow_IZR by lia.
          rewrite Rmult_assoc, <- bpow_add. f_equal. f_equal. lia. }
        rewrite Hk.
        destruct (Z.eq_dec k (2 ^ 54)) as [Ek|Nk].
        -- left. rewrite Ek. lra.
        -- right.
           replace (IZR k * bpow (-54) - 1)
             with (IZR (k - 2 ^ 54) * bpow (-54))
             by (rewrite minus_IZR; lra).
           rewrite Rabs_mult, (Rabs_pos_eq (bpow (-54))) by lra.
           assert (1 <= Rabs (IZR (k - 2 ^ 54))).
           { rewrite <- abs_IZR. apply IZR_le. lia. }
           nra.
      * right.
        assert (Hm : (Z.pos m < 2 ^ 53)%Z).
        { pose proof (Zdigits2_bounds (Z.pos m) eq_refl) as [_ Hhi].
          apply Z.lt_le_trans with (2 ^ Zdigits2 (Z.pos m))%Z; [exact Hhi|].
          apply pow2_le. pose proof (Zdigits2_pos (Z.pos m) eq_refl). lia. }
        assert (Hle : bpow e <= bpow (-55)) by (apply bpow_le; lia).
        apply IZR_lt in Hm. bpow_const 55%Z H55.
        pose proof (bpow_pos e). pose proof (bpow_pos (-55)).
        change (2 ^ 53)%Z with 9007199254740992%Z in Hm.
        change (2 ^ 55)%Z with 36028797018963968%Z in H55.
        assert (IZR (Z.pos m) * bpow e <= 1 / 4) by nra.
        rewrite Rabs_left by lra. lra.
Qed.

Lemma Rabs_le_inv (x a : R) : Rabs x <= a -> - a <= x <= a.
Proof. unfold Rabs. destruct (Rcase_abs x); lra. Qed.

Lemma eps_val : eps * 4503599627370496 = 1.
Proof.
  pose proof eps_52 as H. rewrite (bpow_IZR 52) in H by lia.
  change (2 ^ 52)%Z with 4503599627370496%Z in H. exact H.
Qed.

Lemma bpow_3 : bpow 3 = 8.
Proof. rewrite (bpow_IZR 3) by lia. reflexivity. Qed.

Lemma nonzero_float (v : float) :
  finite v -> (v =? 0)%float = false -> F2R v <> 0.
Proof.
  intros Hv Hz. rewrite eqb_spec in Hz. unfold F2R.
  change (Prim2SF 0) with (S754_zero false) in Hz.
  destruct (finite_cases v Hv) as [[s E]|(s & m & e & E & V)]; rewrite E in *.
  - cbn in Hz. discriminate.
  - rewrite SF2R_finite. pose proof (mag_pos m e). destruct s; cbn [sgn]; lra.
Qed.

Lemma zero_float (v : float) :
  finite v -> (v =? 0)%float = true -> F2R v = 0.
Proof.
  intros Hv Hz. rewrite eqb_spec in Hz. unfold F2R.
  change (Prim2SF 0) with (S754_zero false) in Hz.
  destruct (finite_cases v Hv) as [[s E]|(s & m & e & E & V)]; rewrite E in *.
  - reflexivity.
  - destruct s; cbn in Hz; discriminate.
Qed.

Lemma raw_component (u : float) :
  (0 <=? u)%float = true -> (u <? 1)%float = true -> good (u * 2 - 1)%float.
Proof.
  intros H0 H1. destruct (unit_interval u H0 H1) as [Hu [U0 U1]].
  pose proof eps_val as He. pose proof (bpow_pos (-1074)) as Htiny.
  assert (Htiny1 : bpow (-1074) <= bpow (-55)) by (apply bpow_le; lia).
  bpow_const 55%Z H55. bpow_const 54%Z H54.
  assert (Hbig : 8 <= bpow 1022).
  { rewrite <- bpow_3. apply bpow_le. lia. }
  destruct (mul_weak_R u 2 Hu finite_two) as (Hy & Ey & _).
  { rewrite F2R_two, Rabs_pos_eq by lra. lra. }
  rewrite F2R_two in Ey. rewrite (Rabs_pos_eq (F2R u * 2)) in Ey by lra.
  set (y := (u * 2)%float) in *.
  apply Rabs_le_inv in Ey.
  assert (Heu : 0 <= eps * (F2R u * 2) <= 1 / 2) by nra.
  assert (Htiny2 : bpow (-1074) <= 1 / 2) by lra.
  assert (Y3 : -1 <= F2R y <= 3) by lra.
  pose proof (away_from_one y Hy) as Haway.
  destruct (sub_R y 1 Hy finite_one) as (Hv & Ev).
  { rewrite F2R_one. destruct Haway as [-> | Haway].
    - left. lra.
    - right. split.
      + apply Rle_trans with (bpow (-54)); [apply bpow_le; lia | exact Haway].
      + apply Rle_trans with 8; [|exact Hbig].
        apply Rabs_le. lra. }
  rewrite F2R_one in Ev.
  split; [exact Hv|].
  destruct Haway as [E1 | Haway].
  - left. rewrite E1 in Ev. replace (1 - 1) with 0 in Ev by ring.
    rewrite Rabs_R0, Rmult_0_r, Rminus_0_r in Ev.
    pose proof (Rabs_pos (F2R (y - 1)%float)) as Hp.
    destruct (Req_dec (F2R (y - 1)%float) 0) as [Z|NZ]; [exact Z|].
    apply Rabs_pos_lt in NZ. lra.
  - right. rewrite bpow_3.
    set (D := F2R y - 1) in *. set (V := F2R (y - 1)%float) in *.
    assert (HD : Rabs D <= 4) by (apply Rabs_le; unfold D; lra).
    pose proof (Rabs_triang_inv V D) as T1.
    pose proof (Rabs_triang_inv D V) as T2.
    rewrite (Rabs_minus_sym D V) in T2.
    assert (Heps : 0 < eps <= 1 / 2) by lra.
    split; nra.
Qed.

Lemma eps_bounds : 0 < eps /\ eps * 4096 <= 1 / 1000000000.
Proof. pose proof eps_val. split; lra. Qed.

(** Bernoulli's inequality, and its counterpart from above. *)
Lemma pow_lo (k : nat) : 1 - INR k * eps <= (1 - eps) ^ k <= 1.
Proof.
  destruct eps_bounds as [E0 E1].
  induction k as [|k IH].
  - cbn. lra.
  - rewrite S_INR. cbn [pow]. pose proof (pos_INR k). nra.
Qed.

Lemma pow_hi (k : nat) :
  INR k * eps <= 1 / 2 -> 1 <= (1 + eps) ^ k <= 1 + 2 * INR k * eps.
Proof.
  destruct eps_bounds as [E0 E1].
  induction k as [|k IH]; intros Hk.
  - cbn. lra.
  - rewrite S_INR in *. cbn [pow]. pose proof (pos_INR k).
    assert (Hk' : INR k * eps <= 1 / 2) by nra.
    specialize (IH Hk'). nra.
Qed.

Lemma INR_2000 (k : nat) : (k <= 2000)%nat -> 0 <= INR k <= 2000.
Proof.
  intros H. split; [apply pos_INR|].
  apply le_INR in H. replace 2000 with (INR 2000); [exact H|].
  rewrite INR_IZR_INZ. reflexivity.
Qed.

Lemma pow_window (k : nat) :
  (k <= 2000)%nat ->
  1 / 2 <= (1 - eps) ^ k <= 1 /\ 1 <= (1 + eps) ^ k <= 2.
Proof.
  intros H. destruct eps_bounds as [E0 E1].
  pose proof (INR_2000 k H) as Hk.
  assert (Hke : INR k * eps <= 1 / 1000) by nra.
  pose proof (pow_lo k). pose proof (pow_hi k ltac:(lra)). lra.
Qed.

Lemma sumsq_nonneg (vs : list float) : 0 <= sumsq vs.
Proof.
  induction vs as [|v vs IH]; cbn [sumsq fold_right]; [lra|].
  fold (sumsq vs). nra.
Qed.

Lemma good_square (v : float) :
  good v ->
  finite (v * v)%float
  /\ Rabs (F2R (v * v)%float - F2R v * F2R v) <= eps * (F2R v * F2R v)
  /\ (F2R v * F2R v = 0 \/ bpow (-110) <= F2R v * F2R v <= 64).
Proof.
  intros [Hf Hr].
  assert (H55 : bpow (-1022) <= bpow (-55)) by (apply bpow_le; lia).
  assert (Hsq : forall a, 0 <= a -> Rabs (F2R v) = a -> F2R v * F2R v = a * a).
  { intros a _ <-. unfold Rabs. destruct (Rcase_abs (F2R v)); ring. }
  assert (H110 : bpow (-110) = bpow (-55) * bpow (-55)).
  { rewrite <- bpow_add. reflexivity. }
  assert (Hrange : F2R v * F2R v = 0 \/ bpow (-110) <= F2R v * F2R v <= 64).
  { destruct Hr as [Hz | [Hlo Hhi]].
    - left. rewrite Hz. ring.
    - right. rewrite bpow_3 in Hhi. pose proof (bpow_pos (-55)).
      rewrite (Hsq (Rabs (F2R v)) (Rabs_pos _) eq_refl), H110. nra. }
  assert (Habs : Rabs (F2R v * F2R v) = F2R v * F2R v).
  { apply Rabs_pos_eq. nra. }
  destruct (mul_R v v Hf Hf) as [Hq Eq].
  - destruct Hr as [Hz | [Hlo _]]; [left; exact Hz | right; lra].
  - destruct Hr as [Hz | [Hlo _]]; [left; exact Hz | right; lra].
  - rewrite Habs. destruct Hrange as [Hz | [Hlo Hhi]]; [left; exact Hz | right].
    split.
    + apply Rle_trans with (bpow (-110)); [apply bpow_le; lia | exact Hlo].
    + apply Rle_trans with (bpow 6); [|apply bpow_le; lia].
      rewrite (bpow_IZR 6) by lia. exact Hhi.
  - rewrite Habs in Eq. auto.
Qed.

(** One turn of the summing loop. *)
Lemma acc_step (s v : float) (T : R) (k : nat) :
  finite s -> good v -> (1 <= k <= 2000)%nat ->
  0 <= T <= 64 * INR k -> (T = 0 \/ bpow (-110) <= T) ->
  T * (1 - eps) ^ k <= F2R s <= T * (1 + eps) ^ k ->
  finite (s + v * v)%float
  /\ (T + F2R v * F2R v) * (1 - eps) ^ S k
     <= F2R (s + v * v)%float
     <= (T + F2R v * F2R v) * (1 + eps) ^ S k
  /\ 0 <= T + F2R v * F2R v <= 64 * INR (S k)
  /\ (T + F2R v * F2R v = 0 \/ bpow (-110) <= T + F2R v * F2R v).
Proof.
  intros Hs Hv [Hk1 Hk] [T0 Tk] Tlo Hb.
  destruct eps_bounds as [E0 E1].
  destruct (good_square v Hv) as (Hq & Eq & Hq2).
  set (V2 := F2R v * F2R v) in *. set (Q := F2R (v * v)%float) in *.
  apply Rabs_le_inv in Eq.
  destruct (pow_window k Hk) as [[La Ua] [Lb Ub]].
  set (a := (1 - eps) ^ k) in *. set (b := (1 + eps) ^ k) in *.
  assert (Ha1 : a <= 1 - eps).
  { unfold a. destruct k as [|k']; [lia|]. cbn [pow].
    pose proof (pow_lo k') as [_ H]. nra. }
  assert (Hb1 : 1 + eps <= b).
  { unfold b. destruct k as [|k']; [lia|]. cbn [pow].
    assert (Hk' : (k' <= 2000)%nat) by lia.
    destruct (pow_window k' Hk') as [_ [H _]]. nra. }
  assert (V0 : 0 <= V2) by (destruct Hq2 as [-> | [H _]]; [lra|];
                            pose proof (bpow_pos (-110)); lra).
  assert (V64 : V2 <= 64) by (destruct Hq2 as [-> | [_ H]]; lra).
  set (T' := T + V2) in *.
  set (A := F2R s + Q).
  assert (HAlo : T' * a <= A) by (unfold A, T'; nra).
  assert (HAhi : A <= T' * b) by (unfold A, T'; nra).
  assert (HT'0 : 0 <= T') by (unfold T'; lra).
  pose proof (INR_2000 k Hk) as HkR.
  assert (HT'hi : T' <= 64 * INR (S k)) by (rewrite S_INR; unfold T'; lra).
  assert (HT'lo : T' = 0 \/ bpow (-110) <= T').
  { destruct Tlo as [Tz | Tlo].
    - destruct Hq2 as [Vz | [Vlo _]]; [left; unfold T'; lra | right; unfold T'; lra].
    - right. unfold T'. lra. }
  assert (Hrange : A = 0 \/ bpow (-1021) <= Rabs A <= bpow 1022).
  { destruct HT'lo as [Tz | Tlo'].
    - left. rewrite Tz in *. lra.
    - right. pose proof (bpow_pos (-110)) as Hp.
      assert (HA0 : 0 <= A) by nra.
      rewrite Rabs_pos_eq by exact HA0. split.
      + apply Rle_trans with (bpow (-111)); [apply bpow_le; lia|].
        assert (bpow (-110) = 2 * bpow (-111)).
        { replace (-110)%Z with (1 + -111)%Z by lia.
          rewrite bpow_add, bpow_1. reflexivity. }
        nra.
      + apply Rle_trans with (bpow 20); [|apply bpow_le; lia].
        rewrite (bpow_IZR 20) by lia. change (2 ^ 20)%Z with 1048576%Z.
        rewrite S_INR in HT'hi. nra. }
  destruct (add_R s (v * v)%float Hs Hq Hrange) as [Hs' Es'].
  fold Q in Es'. fold A in Es'.
  assert (HA0 : 0 <= A) by nra.
  rewrite (Rabs_pos_eq A) in Es' by exact HA0.
  apply Rabs_le_inv in Es'.
  split; [exact Hs'|]. split; [|split; [split; assumption | exact HT'lo]].
  cbn [pow]. fold a. fold b.
  set (S' := F2R (s + v * v)%float) in *.
  split; nra.
Qed.

Lemma sumLoop_bounds (vs : list float) :
  forall (s : float) (T : R) (k : nat),
    Forall good vs -> finite s ->
    (1 <= k)%nat -> (k + List.length vs <= 2000)%nat ->
    0 <= T <= 64 * INR k -> (T = 0 \/ bpow (-110) <= T) ->
    T * (1 - eps) ^ k <= F2R s <= T * (1 + eps) ^ k ->
    finite (sumLoop vs s)
    /\ (T + sumsq vs) * (1 - eps) ^ (k + List.length vs)
       <= F2R (sumLoop vs s)
       <= (T + sumsq vs) * (1 + eps) ^ (k + List.length vs)
    /\ 0 <= T + sumsq vs <= 64 * INR (k + List.length vs)
    /\ (T + sumsq vs = 0 \/ bpow (-110) <= T + sumsq vs).
Proof.
  induction vs as [|v vs IH]; intros s T k Hg Hs Hk1 Hk HT Tlo Hb.
  - cbn [sumLoop fold_left sumsq fold_right List.length].
    rewrite Nat.add_0_r, Rplus_0_r. auto.
  - inversion Hg as [|v' vs' Hv Hvs]; subst.
    cbn [List.length] in Hk.
    destruct (acc_step s v T k Hs Hv ltac:(lia) HT Tlo Hb)
      as (Hs' & Hb' & HT' & Tlo').
    specialize (IH (s + v * v)%float (T + F2R v * F2R v) (S k)
                   Hvs Hs' ltac:(lia) ltac:(lia) HT' Tlo' Hb').
    cbn [sumLoop fold_left sumsq fold_right List.length].
    fold (sumsq vs). fold (sumLoop vs (s + v * v)%float).
    replace (k + S (List.length vs))%nat with (S k + List.length vs)%nat by lia.
    replace (T + (F2R v * F2R v + sumsq vs))
      with (T + F2R v * F2R v + sumsq vs) by ring.
    exact IH.
Qed.

Lemma F2R_zero : F2R 0 = 0.
Proof. reflexivity. Qed.

Lemma finite_zero : finite 0.
Proof. reflexivity. Qed.

(** The computed sum of squares of [n < 2000] good components. *)
Lemma sumSquares_bounds (vs : list float) :
  Forall good vs -> (List.length vs < 2000)%nat ->
  finite (sumLoop vs 0)
  /\ sumsq vs * (1 - eps) ^ (S (List.length vs))
     <= F2R (sumLoop vs 0)
     <= sumsq vs * (1 + eps) ^ (S (List.length vs))
  /\ sumsq vs <= 64 * 2000
  /\ (sumsq vs = 0 \/ bpow (-110) <= sumsq vs).
Proof.
  intros Hg Hn.
  destruct (sumLoop_bounds vs 0%float 0 1 Hg finite_zero) as (Hf & Hb & HT & Tlo).
  - lia.
  - lia.
  - cbn. lra.
  - left. reflexivity.
  - rewrite F2R_zero. lra.
  - rewrite Rplus_0_l in *. change (1 + List.length vs)%nat with (S (List.length vs)) in *.
    split; [exact Hf|]. split; [exact Hb|]. split; [|exact Tlo].
    pose proof (INR_2000 (S (List.length vs)) ltac:(lia)). lra.
Qed.

(** A quotient rounded with relative error [eps], squared. *)
Lemma square_of_quotient (W r : R) :
  Rabs (W - r) <= eps * Rabs r ->
  r * r * ((1 - eps) * (1 - eps)) <= W * W <= r * r * ((1 + eps) * (1 + eps)).
Proof.
  intros H. destruct eps_bounds as [E0 E1].
  assert (E2 : eps <= 1) by lra.
  apply Rabs_le_inv in H. unfold Rabs in H.
  destruct (Rcase_abs r) as [Hr|Hr].
  - assert (L : r * (1 + eps) <= W <= r * (1 - eps)) by lra.
    assert (N : r * (1 - eps) <= 0) by nra.
    split.
    + replace (r * r * ((1 - eps) * (1 - eps)))
        with ((r * (1 - eps)) * (r * (1 - eps))) by ring.
      assert (0 <= (r * (1 - eps) - W) * (- W - r * (1 - eps))) by
          (apply Rmult_le_pos; lra).
      lra.
    + replace (r * r * ((1 + eps) * (1 + eps)))
        with ((r * (1 + eps)) * (r * (1 + eps))) by ring.
      assert (0 <= (W - r * (1 + eps)) * (- W - r * (1 + eps))) by
          (apply Rmult_le_pos; nra).
      lra.
  - assert (L : r * (1 - eps) <= W <= r * (1 + eps)) by lra.
    assert (N : 0 <= r * (1 - eps)) by nra.
    split.
    + replace (r * r * ((1 - eps) * (1 - eps)))
        with ((r * (1 - eps)) * (r * (1 - eps))) by ring.
      assert (0 <= (W - r * (1 - eps)) * (W + r * (1 - eps))) by
          (apply Rmult_le_pos; lra).
      lra.
    + replace (r * r * ((1 + eps) * (1 + eps)))
        with ((r * (1 + eps)) * (r * (1 + eps))) by ring.
      assert (0 <= (r * (1 + eps) - W) * (W + r * (1 + eps))) by
          (apply Rmult_le_pos; nra).
      lra.
Qed.

(** The normalizing loop: every component divided by [m]. *)
Lemma normalize_bounds (m : float) (vs : list float) :
  finite m -> bpow (-57) <= F2R m <= bpow 10 ->
  Forall good vs ->
  Forall finite (map (fun v => (v / m)%float) vs)
  /\ sumsq vs / (F2R m * F2R m) * ((1 - eps) * (1 - eps))
     <= sumsq (map (fun v => (v / m)%float) vs)
     <= sumsq vs / (F2R m * F2R m) * ((1 + eps) * (1 + eps)).
Proof.
  intros Hm [Mlo Mhi] Hg.
  pose proof (bpow_pos (-57)) as P57.
  assert (M0 : 0 < F2R m) by lra.
  assert (Mabs : Rabs (F2R m) = F2R m) by (apply Rabs_pos_eq; lra).
  assert (MM : 0 < F2R m * F2R m) by nra.
  induction Hg as [|v vs Hv Hvs IH]; cbn [map sumsq fold_right].
  - split; [constructor|]. unfold Rdiv. rewrite !Rmult_0_l. lra.
  - fold (sumsq vs). fold (sumsq (map (fun v => (v / m)%float) vs)).
    destruct IH as [IHf IHb]. destruct Hv as [Hvf Hvr].
    destruct (div_R v m Hvf Hm) as [Hw Ew].
    + destruct Hvr as [Hz | [Hlo _]]; [left; exact Hz | right].
      apply Rle_trans with (bpow (-55)); [apply bpow_le; lia | exact Hlo].
    + rewrite Mabs. apply Rle_trans with (bpow (-57)); [apply bpow_le; lia | lra].
    + destruct Hvr as [Hz | [Hlo Hhi]]; [left; exact Hz | right].
      unfold Rdiv. rewrite Rabs_mult, Rabs_inv, Mabs.
      assert (Hinv_lo : bpow (-10) <= / F2R m).
      { replace (bpow (-10)) with (/ bpow 10).
        2:{ rewrite <- bpow_opp. reflexivity. }
        apply Rinv_le_contravar; lra. }
      assert (Hinv_hi : / F2R m <= bpow 57).
      { replace (bpow 57) with (/ bpow (-57)).
        2:{ rewrite <- bpow_opp. reflexivity. }
        apply Rinv_le_contravar; lra. }
      pose proof (bpow_pos (-10)). pose proof (bpow_pos (-55)).
      pose proof (bpow_pos 57). pose proof (bpow_pos 3).
      split.
      * apply Rle_trans with (bpow (-55) * bpow (-10)).
        -- rewrite <- bpow_add. apply bpow_le. lia.
        -- apply Rmult_le_compat; lra.
      * apply Rle_trans with (bpow 3 * bpow 57).
        -- apply Rmult_le_compat; try lra; apply Rabs_pos.
        -- rewrite <- bpow_add. apply bpow_le. lia.
    + split; [constructor; assumption|].
      pose proof (square_of_quotient _ _ Ew) as [Qlo Qhi].
      set (W := F2R (v / m)%float) in *.
      set (N := sumsq (map (fun v => (v / m)%float) vs)) in *.
      assert (Hsplit : forall c,
                 (F2R v * F2R v + sumsq vs) / (F2R m * F2R m) * c
                 = F2R v / F2R m * (F2R v / F2R m) * c
                   + sumsq vs / (F2R m * F2R m) * c).
      { intros c. field. lra. }
      rewrite !Hsplit. lra.
Qed.

Lemma tol_val : bpow (-40) = 4096 * eps.
Proof.
  unfold eps. replace (-40)%Z with (12 + -52)%Z by lia.
  rewrite bpow_add, (bpow_IZR 12) by lia. reflexivity.
Qed.

Lemma sqrt_near_one (N : R) (t : R) :
  0 <= N -> Rabs (N - 1) <= t -> Rabs (sqrt N - 1) <= t.
Proof.
  intros HN Ht. pose proof (sqrt_pos N) as Hr.
  pose proof (sqrt_sqrt N HN) as Hsq.
  set (r := sqrt N) in *.
  apply Rabs_le_inv in Ht. apply Rabs_le.
  split; nra.
Qed.

(** The vector the three loops compute from good components that are
    not all zero has Euclidean norm 1 up to [2^-40]. *)
Lemma unit_norm (vs : list float) :
  Forall good vs -> (List.length vs < 2000)%nat -> sumsq vs <> 0 ->
  Forall finite (map (fun v => (v / PrimFloat.sqrt (sumLoop vs 0))%float) vs)
  /\ Rabs (sqrt (sumsq (map (fun v => (v / PrimFloat.sqrt (sumLoop vs 0))%float) vs))
           - 1) <= bpow (-40).
Proof.
  intros Hg Hn Hnz.
  destruct eps_bounds as [E0 E1]. pose proof eps_val as Ev.
  destruct (sumSquares_bounds vs Hg Hn) as (Hf & Hb & Shi & Slo).
  destruct Slo as [Sz | Slo]; [contradiction|].
  set (K := S (List.length vs)) in *.
  assert (HK : (K <= 2000)%nat) by (unfold K; lia).
  pose proof (INR_2000 K HK) as HKR.
  pose proof (pow_lo K) as [Plo _].
  pose proof (pow_hi K ltac:(nra)) as [_ Phi].
  destruct (pow_window K HK) as [[La Ua] [Lb Ub]].
  set (lo := (1 - eps) ^ K) in *. set (hi := (1 + eps) ^ K) in *.
  set (S0 := sumsq vs) in *. set (s := sumLoop vs 0) in *.
  pose proof (bpow_pos (-110)) as P110.
  assert (HS0 : 0 < S0) by lra.
  assert (H111 : bpow (-110) = 2 * bpow (-111)).
  { replace (-110)%Z with (1 + -111)%Z by lia. rewrite bpow_add, bpow_1. reflexivity. }
  assert (Hs111 : bpow (-111) <= F2R s) by nra.
  assert (Hs18 : F2R s <= bpow 18).
  { rewrite (bpow_IZR 18) by lia. change (2 ^ 18)%Z with 262144%Z. nra. }
  destruct (sqrt_R s Hf) as [Hm Em].
  { right. apply Rle_trans with (bpow (-111)); [apply bpow_le; lia | exact Hs111]. }
  set (m := PrimFloat.sqrt s) in *.
  assert (Hs0 : 0 <= F2R s) by (pose proof (bpow_pos (-111)); lra).
  pose proof (sqrt_pos (F2R s)) as Hr0.
  pose proof (sqrt_sqrt (F2R s) Hs0) as Hrr.
  set (r := sqrt (F2R s)) in *.
  apply Rabs_le_inv in Em.
  assert (Hr56 : bpow (-56) <= r).
  { destruct (Rle_lt_dec (bpow (-56)) r) as [L|L]; [exact L|exfalso].
    assert (bpow (-56) * bpow (-56) = bpow (-112)) by (rewrite <- bpow_add; reflexivity).
    assert (bpow (-112) < bpow (-111)) by (apply bpow_lt; lia).
    pose proof (bpow_pos (-56)). nra. }
  assert (Hr9 : r <= bpow 9).
  { destruct (Rle_lt_dec r (bpow 9)) as [L|L]; [exact L|exfalso].
    assert (bpow 9 * bpow 9 = bpow 18) by (rewrite <- bpow_add; reflexivity).
    pose proof (bpow_pos 9). nra. }
  assert (Hm57 : bpow (-57) <= F2R m <= bpow 10).
  { assert (bpow (-56) = 2 * bpow (-57)).
    { replace (-56)%Z with (1 + -57)%Z by lia. rewrite bpow_add, bpow_1. reflexivity. }
    assert (bpow 10 = 2 * bpow 9).
    { replace 10%Z with (1 + 9)%Z by lia. rewrite bpow_add, bpow_1. reflexivity. }
    pose proof (bpow_pos (-57)). split; nra. }
  destruct (normalize_bounds m vs Hm Hm57 Hg) as [Hfin [Nlo Nhi]].
  split; [exact Hfin|].
  fold S0 in Nlo, Nhi.
  set (N := sumsq (map (fun v => (v / m)%float) vs)) in *.
  set (M := F2R m) in *.
  assert (HM0 : 0 < M) by (pose proof (bpow_pos (-57)); lra).
  assert (HMM : 0 < M * M) by nra.
  set (q := S0 / (M * M)) in *.
  assert (Hq : q * (M * M) = S0) by (unfold q; field; lra).
  assert (Hq0 : 0 < q) by (unfold q; apply Rdiv_lt_0_compat; lra).
  (* M^2 against the exact sum *)
  assert (HM2lo : S0 * lo * ((1 - eps) * (1 - eps)) <= M * M).
  { assert (r * (1 - eps) <= M) by lra.
    assert (0 <= r * (1 - eps)) by nra.
    assert ((r * (1 - eps)) * (r * (1 - eps)) <= M * M) by nra.
    replace ((r * (1 - eps)) * (r * (1 - eps)))
      with (F2R s * ((1 - eps) * (1 - eps))) in H1 by (rewrite <- Hrr; ring).
    assert (0 <= (1 - eps) * (1 - eps)) by nra. nra. }
  assert (HM2hi : M * M <= S0 * hi * ((1 + eps) * (1 + eps))).
  { assert (M <= r * (1 + eps)) by lra.
    assert (M * M <= (r * (1 + eps)) * (r * (1 + eps))) by nra.
    replace ((r * (1 + eps)) * (r * (1 + eps)))
      with (F2R s * ((1 + eps) * (1 + eps))) in H0 by (rewrite <- Hrr; ring).
    assert (0 <= (1 + eps) * (1 + eps)) by nra. nra. }
  (* q is near 1 *)
  assert (Hd : 1 - 2002 * eps <= lo * ((1 - eps) * (1 - eps))) by nra.
  assert (Hu : hi * ((1 + eps) * (1 + eps)) <= 1 + 4004 * eps) by nra.
  assert (Hq1 : q * (lo * ((1 - eps) * (1 - eps))) <= 1).
  { apply Rmult_le_reg_r with S0; [exact HS0|].
    rewrite Rmult_1_l. rewrite <- Hq at 2.
    replace (q * (lo * ((1 - eps) * (1 - eps))) * S0)
      with (q * (S0 * lo * ((1 - eps) * (1 - eps)))) by ring.
    apply Rmult_le_compat_l; lra. }
  assert (Hq2 : 1 <= q * (hi * ((1 + eps) * (1 + eps)))).
  { apply Rmult_le_reg_r with S0; [exact HS0|].
    rewrite Rmult_1_l. rewrite <- Hq at 1.
    replace (q * (hi * ((1 + eps) * (1 + eps))) * S0)
      with (q * (S0 * hi * ((1 + eps) * (1 + eps)))) by ring.
    apply Rmult_le_compat_l; lra. }
  assert (Hq_hi : q <= 1 + 4008 * eps).
  { assert (q * (1 - 2002 * eps) <= 1) by nra.
    assert (q <= 2) by nra. nra. }
  assert (Hq_lo : 1 - 4004 * eps <= q).
  { assert (1 <= q * (1 + 4004 * eps)) by nra. nra. }
  assert (HN : 1 - 4096 * eps <= N <= 1 + 4096 * eps).
  { assert (0 <= (1 - eps) * (1 - eps) <= 1) by nra.
    assert (1 - 2 * eps <= (1 - eps) * (1 - eps)) by nra.
    assert ((1 + eps) * (1 + eps) <= 1 + 3 * eps) by nra.
    split; nra. }
  apply sqrt_near_one.
  - lra.
  - rewrite tol_val. apply Rabs_le. lra.
Qed.

(** [float64(z)] of a positive integer below [2^63]: finite, and within
    one unit in the last place of [z]. *)
Lemma float64_of_int_R (z : Z) :
  (0 < z < 2 ^ 63)%Z ->
  finite (float64_of_int z)
  /\ Rabs (F2R (float64_of_int z) - IZR z) <= eps * IZR z.
Proof.
  intros Hz.
  assert (H1 : 1 <= IZR z) by (apply IZR_le; lia).
  assert (H2 : IZR z <= bpow 63).
  { rewrite (bpow_IZR 63) by lia. apply IZR_le. lia. }
  assert (Hr : IZR z * bpow 0 = 0
               \/ bpow (-1021) <= Rabs (IZR z * bpow 0) <= bpow 1022).
  { right. rewrite bpow_0, Rmult_1_r, Rabs_pos_eq by lra.
    pose proof (bpow_le (-1021) 0 ltac:(lia)) as Ha. rewrite bpow_0 in Ha.
    pose proof (bpow_le 63 1022 ltac:(lia)) as Hb. lra. }
  destruct (binary_normalize_R z 0 false Hr) as (Hfin & Herr & Hvalid).
  unfold finite, F2R, float64_of_int.
  rewrite (Prim2SF_SF2Prim _ Hvalid).
  split; [exact Hfin|].
  rewrite bpow_0, Rmult_1_r in Herr. rewrite (Rabs_pos_eq (IZR z)) in Herr by lra.
  exact Herr.
Qed.

(** The integer part of the magnitude of a finite float, as [int64(f)]
    computes it. *)
Lemma integer_part (m : positive) (e : Z) :
  let a := (if (0 <=? e)%Z then Z.pos m * 2 ^ e else Z.pos m / 2 ^ (- e))%Z in
  (0 <= a)%Z /\ IZR a <= IZR (Z.pos m) * bpow e < IZR a + 1.
Proof.
  destruct (Z.leb_spec 0 e) as [He|He]; cbv zeta.
  - rewrite (bpow_IZR e He), <- mult_IZR. split; [|lra].
    apply Z.mul_nonneg_nonneg; [lia|]. apply Z.pow_nonneg. lia.
  - set (q := (2 ^ (- e))%Z).
    assert (Hq : (0 < q)%Z) by (unfold q; apply Z.pow_pos_nonneg; lia).
    assert (Hb : bpow e = / IZR q).
    { replace e with (- (- e))%Z at 1 by lia.
      rewrite bpow_opp, (bpow_IZR (- e)) by lia. reflexivity. }
    rewrite Hb.
    pose proof (Z.div_mod (Z.pos m) q ltac:(lia)) as Hdm.
    pose proof (Z.mod_pos_bound (Z.pos m) q Hq) as Hr.
    set (a := (Z.pos m / q)%Z) in *. set (r := (Z.pos m mod q)%Z) in *.
    assert (Ha : (0 <= a)%Z) by (unfold a; apply Z.div_pos; lia).
    split; [exact Ha|].
    assert (HQ : 0 < IZR q) by (apply IZR_lt; lia).
    assert (Hi : IZR q * / IZR q = 1) by (apply Rinv_r; lra).
    assert (Hip : 0 < / IZR q) by (apply Rinv_0_lt_compat; exact HQ).
    assert (Hm : IZR (Z.pos m) = IZR q * IZR a + IZR r).
    { rewrite Hdm at 1. rewrite plus_IZR, mult_IZR. reflexivity. }
    assert (Hr0 : 0 <= IZR r) by (apply IZR_le; lia).
    assert (Hr1 : IZR r + 1 <= IZR q).
    { rewrite <- plus_IZR. apply IZR_le. lia. }
    rewrite Hm.
    replace ((IZR q * IZR a + IZR r) * / IZR q)
      with (IZR a * (IZR q * / IZR q) + IZR r * / IZR q) by ring.
    rewrite Hi, Rmult_1_r.
    assert (H0 : 0 <= IZR r * / IZR q).
    { apply Rmult_le_pos; lra. }
    assert (H1 : IZR r * / IZR q < 1).
    { rewrite <- Hi. apply Rmult_lt_compat_r; lra. }
    lra.
Qed.

(** [int64(f)] of a finite float of magnitude below [2^63] is the number
    [f] stands for, truncated toward zero. *)
Lemma int64_of_float64_R (p : float) :
  finite p -> Rabs (F2R p) < bpow 63 ->
  (0 <= F2R p ->
   (0 <= int64_of_float64 p)%Z
   /\ IZR (int64_of_float64 p) <= F2R p < IZR (int64_of_float64 p) + 1)
  /\ (F2R p <= 0 ->
      (int64_of_float64 p <= 0)%Z
      /\ IZR (int64_of_float64 p) - 1 < F2R p <= IZR (int64_of_float64 p)).
Proof.
  unfold finite, F2R, int64_of_float64. intros Hfin Hlt.
  destruct (Prim2SF p) as [s|s| |s m e]; try discriminate Hfin.
  - cbn [SF2R]. split; intros _; (split; [lia | lra]).
  - rewrite SF2R_finite in *.
    pose proof (mag_pos m e) as Hpos.
    pose proof (integer_part m e) as Hint. cbv zeta in Hint.
    set (a := (if (0 <=? e)%Z then Z.pos m * 2 ^ e
               else Z.pos m / 2 ^ (- e))%Z) in *.
    destruct Hint as (Ha & Hlo & Hhi).
    assert (Hmag : IZR (Z.pos m) * bpow e < bpow 63).
    { destruct s; unfold sgn in Hlt.
      - replace (-1 * (IZR (Z.pos m) * bpow e))
          with (- (IZR (Z.pos m) * bpow e)) in Hlt by ring.
        rewrite Rabs_Ropp, Rabs_pos_eq in Hlt by lra. exact Hlt.
      - rewrite Rmult_1_l, Rabs_pos_eq in Hlt by lra. exact Hlt. }
    assert (Ha63 : (a < 2 ^ 63)%Z).
    { apply lt_IZR. rewrite <- (bpow_IZR 63) by lia. lra. }
    cbv zeta.
    replace ((- 2 ^ 63 <=? (if s then - a else a))
             && ((if s then - a else a) <? 2 ^ 63))%Z with true.
    2:{ symmetry. apply andb_true_iff.
        split; [apply Z.leb_le | apply Z.ltb_lt]; destruct s; lia. }
    destruct s; unfold sgn.
    + split; intros H.
      * lra.
      * split; [lia|]. rewrite opp_IZR. lra.
    + split; intros H.
      * split; [lia|]. lra.
      * lra.
Qed.

(** The scaled draw [int64(float64(D) * u)] for a span [D] of at most
    [2^62] and [u] in [[0, 1)]: it is not negative, at most [D + 3073],
    and within [1 + 3 * eps * D] of the real number [u * D]. *)
Lemma scaled_draw (D : Z) (u : float) :
  (0 < D <= 2 ^ 62)%Z ->
  (0 <=? u)%float = true -> (u <? 1)%float = true ->
  (0 <= int64_of_float64 (float64_of_int D * u) <= D + 3073)%Z
  /\ Rabs (IZR (int64_of_float64 (float64_of_int D * u)) - F2R u * IZR D)
     <= 1 + 3 * eps * IZR D.
Proof.
  intros HD Hu0 Hu1.
  destruct (float64_of_int_R D ltac:(lia)) as (Hfx & Hx).
  destruct (unit_interval u Hu0 Hu1) as (Hfu & HU).
  set (x := float64_of_int D) in *.
  set (X := F2R x) in *. set (U := F2R u) in *. set (Dr := IZR D) in *.
  pose proof eps_val as Hev.
  assert (He0 : 0 < eps) by lra.
  assert (HD1 : 1 <= Dr) by (apply IZR_le; lia).
  assert (HD2 : Dr <= 4611686018427387904).
  { apply IZR_le. change (2 ^ 62)%Z with 4611686018427387904%Z in HD. lia. }
  set (E := eps * Dr) in *.
  assert (HE0 : eps <= E).
  { unfold E. rewrite <- (Rmult_1_r eps) at 1.
    apply Rmult_le_compat_l; lra. }
  assert (HE1 : E <= 1024).
  { unfold E. replace 1024 with (eps * 4611686018427387904) by lra.
    apply Rmult_le_compat_l; lra. }
  assert (HE2 : E <= Dr / 2).
  { unfold E. replace (Dr / 2) with (/ 2 * Dr) by field.
    apply Rmult_le_compat_r; lra. }
  apply Rabs_le_inv in Hx.
  assert (Ht0 : 0 <= X * U).
  { apply Rmult_le_pos; lra. }
  assert (Ht1 : X * U <= X).
  { rewrite <- (Rmult_1_r X) at 2. apply Rmult_le_compat_l; lra. }
  assert (Htd : - E <= X * U - U * Dr <= E).
  { replace (X * U - U * Dr) with (U * (X - Dr)) by ring.
    split.
    - assert (U * - (X - Dr) <= 1 * E).
      { destruct (Rle_dec 0 (- (X - Dr))) as [Hs|Hs].
        - apply Rmult_le_compat; lra.
        - assert (U * - (X - Dr) <= 0); [|lra].
          replace 0 with (U * 0) by ring.
          apply Rmult_le_compat_l; lra. }
      lra.
    - assert (U * (X - Dr) <= 1 * E).
      { destruct (Rle_dec 0 (X - Dr)) as [Hs|Hs].
        - apply Rmult_le_compat; lra.
        - assert (U * (X - Dr) <= 0); [|lra].
          replace 0 with (U * 0) by ring.
          apply Rmult_le_compat_l; lra. }
      lra. }
  assert (Hb63 : bpow 63 = 9223372036854775808).
  { rewrite (bpow_IZR 63) by lia. reflexivity. }
  assert (Hbig : Rabs (X * U) <= bpow 1022).
  { rewrite Rabs_pos_eq by exact Ht0.
    pose proof (bpow_le 63 1022 ltac:(lia)). lra. }
  destruct (mul_weak_R x u Hfx Hfu Hbig) as (Hfp & Herr & Hsign).
  fold X U in Herr, Hsign.
  set (P := F2R (x * u)%float) in *.
  rewrite (Rabs_pos_eq (X * U)) in Herr by exact Ht0.
  assert (Htiny : bpow (-1074) <= eps / 2).
  { pose proof (bpow_le (-1074) (-53) ltac:(lia)) as Ha.
    assert (Hb : bpow (-53) = eps / 2).
    { unfold eps. replace (-52)%Z with (1 + -53)%Z by lia.
      rewrite bpow_add, bpow_1. field. }
    lra. }
  assert (HeE : eps * (X * U) <= E + E / 2).
  { assert (eps * (X * U) <= eps * (Dr + E)).
    { apply Rmult_le_compat_l; lra. }
    assert (eps * E <= (1 / 2) * E).
    { apply Rmult_le_compat_r; lra. }
    unfold E in *. lra. }
  apply Rabs_le_inv in Herr.
  assert (HP : - (2 * E) <= P - X * U <= 2 * E) by lra.
  assert (HP63 : Rabs P < bpow 63).
  { apply Rabs_def1; lra. }
  destruct (int64_of_float64_R (x * u)%float Hfp HP63) as (Hnn & Hnp).
  fold P in Hnn, Hnp.
  set (k := int64_of_float64 (x * u)%float) in *.
  assert (Hk : (0 <= k)%Z /\ - 1 <= IZR k - P <= 1).
  { destruct (Rle_dec 0 P) as [Hs|Hs].
    - destruct (Hnn Hs) as (Hk0 & Hk1). split; [exact Hk0 | lra].
    - assert (Hneg : P <= 0) by lra.
      destruct (Hnp Hneg) as (Hk0 & Hk1).
      assert (Hz : X * U = 0).
      { destruct (Req_dec (X * U) 0) as [Hz|Hz]; [exact Hz|].
        assert (0 < - P * (X * U)); [|lra].
        apply Rmult_lt_0_compat; lra. }
      assert (Hk2 : (-1 < k)%Z).
      { apply lt_IZR. rewrite Hz in Herr. lra. }
      assert (Hk3 : k = 0%Z) by lia.
      rewrite Hk3. rewrite Hz in Herr. split; [lia | lra]. }
  destruct Hk as (Hk0 & Hk1).
  assert (HUD : U * Dr <= Dr).
  { rewrite <- (Rmult_1_l Dr) at 2. apply Rmult_le_compat_r; lra. }
  split.
  - split; [exact Hk0|].
    apply le_IZR. rewrite plus_IZR. fold Dr. lra.
  - fold E. replace (3 * eps * Dr) with (3 * E) by (unfold E; ring).
    apply Rabs_le. lra.
Qed.

End Binary64.

(* ================================================================== *)
(** * The norm of the embedding (C3) *)

Section UnitNorm.

Context {RS : RandSource}.

Lemma drawRaw_draws (n : nat) (r : rng) :
  drawRaw n r = map (fun u => (u * 2 - 1)%float) (draws n r).
Proof.
  revert r. induction n as [|n IH]; intros r; cbn [drawRaw draws].
  - reflexivity.
  - destruct (Float64 r) as [u r']. cbn [map]. rewrite IH. reflexivity.
Qed.

Lemma draws_range (n : nat) (r : rng) :
  Forall (fun u => (0 <=? u)%float = true /\ (u <? 1)%float = true) (draws n r).
Proof.
  revert r. induction n as [|n IH]; intros r; cbn [draws].
  - constructor.
  - pose proof (Float64_range r) as H.
    destruct (Float64 r) as [u r']. cbn [fst] in H.
    constructor; [exact H | apply IH].
Qed.

Lemma drawRaw_good (n : nat) (r : rng) : Forall good (drawRaw n r).
Proof.
  rewrite drawRaw_draws.
  induction (draws_range n r) as [|u us [H0 H1] _ IH]; cbn [map].
  - constructor.
  - constructor; [apply raw_component; assumption | exact IH].
Qed.

Lemma sumsq_zero_all (vs : list float) :
  Forall good vs -> sumsq vs = 0%R ->
  Forall (fun v => (v =? 0)%float = true) vs.
Proof.
  induction 1 as [|v vs [Hf _] _ IH]; cbn [sumsq fold_right]; intros Hz.
  - constructor.
  - fold (sumsq vs) in Hz.
    pose proof (sumsq_nonneg vs) as Hs.
    assert (Hv : (F2R v * F2R v = 0)%R) by nra.
    assert (Hr : sumsq vs = 0%R) by nra.
    constructor; [|apply IH; exact Hr].
    destruct (v =? 0)%float eqn:E; [reflexivity|].
    exfalso. apply (nonzero_float v Hf E). nra.
Qed.

(** C3.  The raw vector holds, for each of the 1536 draws [u] of the
    generator (each in [[0, 1)]), the component [u*2 - 1]; the vector
    returned holds every raw component divided by the square root of the
    sum of their squares.  Unless every raw component is zero, every
    component returned is finite and the Euclidean norm of the vector
    the floats stand for is 1 up to [10^-12]. *)
Theorem embedding_has_unit_norm (input : string) :
  rawOfSeed (hashSeed input) 1536
  = map (fun u => (u * 2 - 1)%float) (draws 1536 (NewSource (hashSeed input)))
  /\ Forall (fun u => (0 <=? u)%float = true /\ (u <? 1)%float = true)
            (draws 1536 (NewSource (hashSeed input)))
  /\ generateMockEmbedding input 1536
     = Some (map (fun v => (v / PrimFloat.sqrt
                                  (sumSquares (rawOfSeed (hashSeed input) 1536)))%float)
                 (rawOfSeed (hashSeed input) 1536))
  /\ (~ Forall (fun v => (v =? 0)%float = true) (rawOfSeed (hashSeed input) 1536) ->
      exists e,
        generateMockEmbedding input 1536 = Some e
        /\ Forall finite e
        /\ (Rabs (euclideanNorm e - 1) <= / 1000000000000)%R).
Proof.
  split; [apply drawRaw_draws|]. split; [apply draws_range|].
  split; [apply generateMockEmbedding_1536|].
  intros Hnz. rewrite generateMockEmbedding_1536.
  eexists. split; [reflexivity|].
  unfold embeddingOfSeed, normalize, euclideanNorm.
  set (raw := rawOfSeed (hashSeed input) 1536) in *.
  assert (Hg : Forall good raw) by apply drawRaw_good.
  assert (Hlen : (List.length raw < 2000)%nat).
  { unfold raw, rawOfSeed. rewrite drawRaw_length. lia. }
  assert (Hs : sumsq raw <> 0%R).
  { intros Hz. apply Hnz. apply sumsq_zero_all; assumption. }
  destruct (unit_norm raw Hg Hlen Hs) as [Hfin Hnorm].
  change (sumLoop raw 0) with (sumSquares raw) in Hfin, Hnorm.
  split; [exact Hfin|].
  apply Rle_trans with (bpow (-40)); [exact Hnorm|].
  pose proof (bpow_neg_IZR 40 ltac:(lia)) as H. simpl Z.opp in H.
  change (2 ^ 40) with 1099511627776 in H.
  pose proof (bpow_pos (-40)) as Hp.
  apply Rmult_le_reg_r with 1000000000000%R; [lra|].
  rewrite Rinv_l by lra. lra.
Qed.

End UnitNorm.

(* ================================================================== *)
(** * The latency middleware (C8) *)

Section Latency.

Context {RS : RandSource}.

Lemma sub64_exact (x y : Z) :
  in_int64 x -> 0 < y < x -> sub64 x y = x - y.
Proof.
  unfold in_int64. intros Hx Hy. unfold sub64. apply wrap64_id.
  unfold in_int64. lia.
Qed.

(** C8.  For latencies that are not negative (and fit a [Duration]):
    when [min] is 0 the handler runs in the world as it is, without a
    sleep and without a draw; otherwise, when [max > min], one value [u]
    in [[0, 1)] is drawn from the process wide generator and the request
    sleeps for [d = min + Duration(float64(max - min) * u)], which for
    [max] up to [2^62] ns is at least [min] and within
    [1 + 3 * eps * (max - min)] ns of the real number
    [min + u * (max - min)]; otherwise, [max < min] included, it sleeps
    for exactly [min] and nothing is drawn. *)
Theorem latency_is_resolved {A : Type}
    (min max : Z) (next : M A) (w : World) :
  0 <= min -> in_int64 min -> in_int64 max ->
  (min = 0 -> simulateLatencyMiddleware min max next w = next w)
  /\ (min <> 0 -> max > min ->
      exists (u : float) (g : rng) (d : Z),
        Float64 (globalRand w) = (u, g)
        /\ (0 <=? u)%float = true /\ (u <? 1)%float = true
        /\ d = add64 min (int64_of_float64
                            (float64_of_int (max - min) * u)%float)
        /\ simulateLatencyMiddleware min max next w = next (slept d g w)
        /\ (max <= 2 ^ 62 ->
            min <= d
            /\ (Rabs (IZR d - (IZR min + F2R u * IZR (max - min)))
                <= 1 + 3 * eps * IZR (max - min))%R))
  /\ (min <> 0 -> ~ max > min ->
      simulateLatencyMiddleware min max next w
      = next (slept min (globalRand w) w)).
Proof.
  intros Hmin Hi Ha. unfold simulateLatencyMiddleware, bind.
  split; [|split].
  - intros ->. reflexivity.
  - intros Hne Hgt.
    replace (0 <? min) with true by (symmetry; apply Z.ltb_lt; lia).
    replace (min <? max) with true by (symmetry; apply Z.ltb_lt; lia).
    unfold rand_Float64.
    pose proof (Float64_range (globalRand w)) as [H0 H1].
    destruct (Float64 (globalRand w)) as [u g] eqn:E. simpl in H0, H1.
    exists u, g, (add64 min (int64_of_float64
                               (float64_of_int (max - min) * u)%float)).
    split; [reflexivity|]. split; [exact H0|]. split; [exact H1|].
    split; [reflexivity|]. split.
    + unfold ret, time_Sleep, slept. cbn.
      rewrite sub64_exact by (assumption || lia). reflexivity.
    + intros Hmax.
      destruct (scaled_draw (max - min) u ltac:(lia) H0 H1) as (Hk & Herr).
      set (k := int64_of_float64 (float64_of_int (max - min) * u)%float) in *.
      assert (Hd : add64 min k = min + k).
      { unfold add64. apply wrap64_id. unfold in_int64.
        change (2 ^ 62) with 4611686018427387904 in Hmax. lia. }
      rewrite Hd. split; [lia|].
      rewrite plus_IZR.
      replace (IZR min + IZR k - (IZR min + F2R u * IZR (max - min)))%R
        with (IZR k - F2R u * IZR (max - min))%R by ring.
      exact Herr.
  - intros Hne Hle.
    replace (0 <? min) with true by (symmetry; apply Z.ltb_lt; lia).
    replace (min <? max) with false by (symmetry; apply Z.ltb_ge; lia).
    reflexivity.
Qed.

(** Outside the domain of C8: a negative [min] is not slept for. *)
Lemma negative_latency_is_skipped {A : Type}
    (min max : Z) (next : M A) (w : World) :
  min < 0 -> simulateLatencyMiddleware min max next w = next w.
Proof.
  intros H. unfold simulateLatencyMiddleware, bind.
  replace (0 <? min) with false by (symmetry; apply Z.ltb_ge; lia).
  reflexivity.
Qed.

End Latency.

(* ================================================================== *)
(** * The zero vector (C1) *)

(** A float that compares equal to zero is one of the two zeros. *)
Lemma zero_cases (v : float) :
  (v =? 0)%float = true -> v = 0%float \/ v = (-0)%float.
Proof.
  intros H. rewrite eqb_spec in H.
  rewrite <- (SF2Prim_Prim2SF v).
  change (Prim2SF 0) with (S754_zero false) in H.
  destruct (Prim2SF v) as [[|]|[|]| |[|] m e]; try discriminate H.
  - right. reflexivity.
  - left. reflexivity.
Qed.

Lemma square_of_zero (v : float) : (v =? 0)%float = true -> (v * v)%float = 0%float.
Proof. intros H. destruct (zero_cases v H) as [-> | ->]; reflexivity. Qed.

Lemma zero_over_zero (v : float) : (v =? 0)%float = true -> (v / 0)%float = nan.
Proof. intros H. destruct (zero_cases v H) as [-> | ->]; reflexivity. Qed.

Lemma sumSquares_zero (e : list float) :
  Forall (fun v => (v =? 0)%float = true) e -> sumSquares e = 0%float.
Proof.
  unfold sumSquares. intros H.
  induction H as [|v e Hv _ IH]; simpl.
  - reflexivity.
  - rewrite square_of_zero by exact Hv. exact IH.
Qed.

Lemma normalize_zero (e : list float) :
  Forall (fun v => (v =? 0)%float = true) e ->
  Forall (fun v => v = nan) (normalize e).
Proof.
  intros H. unfold normalize. rewrite sumSquares_zero by exact H.
  change (PrimFloat.sqrt 0) with 0%float.
  induction H as [|v e Hv _ IH]; simpl; constructor.
  - apply zero_over_zero. exact Hv.
  - exact IH.
Qed.

Section ZeroVector.

Context {RS : RandSource}.

(** C1, as the code has it.  If every one of the 1536 drawn components
    [u*2 - 1] is zero, the sum of the squares and the magnitude are zero
    and the generator returns 1536 components that are all NaN: the
    division is not guarded. *)
Theorem zero_vector_is_divided_by_zero (input : string) :
  Forall (fun v => (v =? 0)%float = true) (rawOfSeed (hashSeed input) 1536) ->
  sumSquares (rawOfSeed (hashSeed input) 1536) = 0%float
  /\ exists e,
      generateMockEmbedding input 1536 = Some e
      /\ List.length e = 1536%nat
      /\ Forall (fun v => v = nan) e.
Proof.
  intros H. split; [apply sumSquares_zero; exact H|].
  rewrite generateMockEmbedding_1536. eexists. split; [reflexivity|].
  split; [apply embeddingOfSeed_length|].
  apply normalize_zero. exact H.
Qed.

End ZeroVector.

Lemma half_raw_is_zero :
  rawOfSeed (RS := halfSource) (hashSeed "") 1536 = repeat 0%float 1536.
Proof. vm_compute. reflexivity. Qed.

Lemma half_embedding_is_nan :
  generateMockEmbedding (RS := halfSource) "" 1536 = Some (repeat nan 1536).
Proof. vm_compute. reflexivity. Qed.

(** C1 fails as stated: with the generator that always draws [0.5] every
    raw component of the vector for the empty input is zero, and the
    vector returned is not the zero vector: it holds NaN. *)
Lemma zero_vector_is_not_returned :
  ~ (Forall (fun v => (v =? 0)%float = true)
            (rawOfSeed (RS := halfSource) (hashSeed "") 1536) ->
     exists e,
       generateMockEmbedding (RS := halfSource) "" 1536 = Some e
       /\ Forall (fun v => v = 0%float /\ is_nan v = false) e).
Proof.
  intros H.
  destruct H as (e & He & Hz).
  - rewrite half_raw_is_zero. apply Forall_forall. intros v Hv.
    apply repeat_spec in Hv. subst v. reflexivity.
  - rewrite half_embedding_is_nan in He. injection He as <-.
    change (repeat nan 1536) with (nan :: repeat nan 1535) in Hz.
    inversion Hz as [|v l [_ Hnan] _]. discriminate Hnan.
Qed.

(** The premise of [zero_vector_is_divided_by_zero] holds of that
    generator and the empty input. *)
Lemma zero_vector_is_divided_by_zero_witness :
  Forall (fun v => (v =? 0)%float = true)
         (rawOfSeed (RS := halfSource) (hashSeed "") 1536)
  /\ sumSquares (rawOfSeed (RS := halfSource) (hashSeed "") 1536) = 0%float
  /\ exists e,
      generateMockEmbedding (RS := halfSource) "" 1536 = Some e
      /\ List.length e = 1536%nat
      /\ Forall (fun v => v = nan) e.
Proof.
  assert (H : Forall (fun v => (v =? 0)%float = true)
                (rawOfSeed (RS := halfSource) (hashSeed "") 1536)).
  { rewrite half_raw_is_zero. apply Forall_forall. intros v Hv.
    apply repeat_spec in Hv. subst v. reflexivity. }
  split; [exact H|].
  exact (zero_vector_is_divided_by_zero (RS := halfSource) "" H).
Defined.

(* ================================================================== *)
(** * [randomID] *)

Lemma charAt_alphanumeric (k : Z) :
  0 <= k < len charset -> alphanumeric (charAt k) = true.
Proof.
  intros Hk.
  assert (Hall : forallb (fun n => alphanumeric (charAt (Z.of_nat n)))
                         (seq 0 62) = true) by reflexivity.
  rewrite forallb_forall in Hall.
  specialize (Hall (Z.to_nat k)).
  rewrite Z2Nat.id in Hall by lia.
  apply Hall. apply in_seq. change (len charset) with 62 in Hk. lia.
Qed.

Section RandomID.

Context {RS : RandSource}.

Lemma index_charAt (k : Z) (w : World) :
  0 <= k < len charset -> index charset k w = Ok (charAt k) w.
Proof.
  intros Hk. destruct (index_charset k w Hk) as [a Ha].
  rewrite Ha. f_equal.
  unfold index in Ha.
  destruct (k <? 0); [discriminate Ha|].
  unfold charAt.
  destruct (String.get (Z.to_nat k) charset); [|discriminate Ha].
  unfold ret in Ha. injection Ha as Ha. symmetry. exact Ha.
Qed.

(** The loop of [randomID] never panics: it returns the string drawn
    from the generator and changes the generator alone. *)
Lemma randomBytes_run (n : nat) (w : World) :
  randomBytes n w
  = Ok (fst (drawID n (globalRand w)))
       (withRand (snd (drawID n (globalRand w))) w).
Proof.
  revert w. induction n as [|n IH]; intros w.
  - destruct w. reflexivity.
  - cbn [randomBytes drawID]. unfold bind at 1. unfold rand_Intn.
    change (len charset <=? 0) with false. cbv iota.
    pose proof (Intn_range (len charset) (globalRand w) eq_refl) as Hk.
    destruct (Intn (len charset) (globalRand w)) as [k g]. cbn [fst] in Hk.
    unfold bind at 1. rewrite (index_charAt k _ Hk).
    unfold bind at 1. rewrite IH. cbn [globalRand].
    destruct (drawID n g) as [rest g'']. reflexivity.
Qed.

Lemma drawID_length (n : nat) (g : rng) :
  String.length (fst (drawID n g)) = n.
Proof.
  revert g. induction n as [|n IH]; intros g; cbn [drawID].
  - reflexivity.
  - destruct (Intn (len charset) g) as [k g'].
    specialize (IH g'). destruct (drawID n g') as [rest g''].
    cbn [fst String.length] in *. rewrite IH. reflexivity.
Qed.

Lemma drawID_alphanumeric (n : nat) (g : rng) :
  Forall (fun a => alphanumeric a = true)
         (list_ascii_of_string (fst (drawID n g))).
Proof.
  revert g. induction n as [|n IH]; intros g; cbn [drawID].
  - constructor.
  - pose proof (Intn_range (len charset) g eq_refl) as Hk.
    destruct (Intn (len charset) g) as [k g']. cbn [fst] in Hk.
    specialize (IH g'). destruct (drawID n g') as [rest g''].
    cbn [fst list_ascii_of_string] in *.
    constructor; [apply charAt_alphanumeric; exact Hk | exact IH].
Qed.

(** X1.  [randomID]: for a length that is not negative it returns a string
    of that many bytes, each an ASCII letter or digit; the string and the
    state the generator is left in are those of [drawID] (one [Intn] of
    62 per byte), and nothing else of the world changes.  A negative
    length panics in [make]. *)
Theorem randomID_draws_alphanumerics (length : Z) (w : World) :
  (0 <= length ->
   exists (s : string) (g : rng),
     randomID length w = Ok s (withRand g w)
     /\ (s, g) = drawID (Z.to_nat length) (globalRand w)
     /\ len s = length
     /\ Forall (fun a => alphanumeric a = true) (list_ascii_of_string s))
  /\ (length < 0 -> randomID length w = Panic "makeslice: len out of range").
Proof.
  split; intros H; unfold randomID.
  - replace (length <? 0) with false by (symmetry; apply Z.ltb_ge; exact H).
    rewrite randomBytes_run.
    exists (fst (drawID (Z.to_nat length) (globalRand w))),
           (snd (drawID (Z.to_nat length) (globalRand w))).
    split; [reflexivity|]. split; [symmetry; apply surjective_pairing|].
    split; [|apply drawID_alphanumeric].
    unfold len. rewrite drawID_length. apply Z2Nat.id. exact H.
  - replace (length <? 0) with true by (symmetry; apply Z.ltb_lt; exact H).
    reflexivity.
Qed.

End RandomID.

(* ================================================================== *)
(** * The two handlers: identifiers, malformed bodies, the model echoed *)

Section Replies.

Context {RS : RandSource}.

Lemma afterBind_logs (prefix : string) (bindErr : option string) (w : World) :
  globalRand (afterBind prefix bindErr w) = globalRand w
  /\ clock (afterBind prefix bindErr w) = clock w
  /\ sleeps (afterBind prefix bindErr w) = sleeps w.
Proof. destruct bindErr; cbn; auto. Qed.

(** The run of an accepted chat request, in full. *)
Lemma chat_run (req : ChatCompletionRequest) (bindErr : option string)
    (config : Config) (w : World) :
  passes (Chat (ConfigModels config)) (ChatModel req) = true ->
  handleChatCompletions req bindErr config w
  = Ok (mkResponse StatusOK
          (ChatBody
             (mkChatResponse
                ("chatcmpl-" ++ fst (drawID 29 (globalRand w)))%string
                "chat.completion"
                (clock w / 1000000000)
                (defaultModel (ChatModel req) (Chat (ConfigModels config)))
                [theChoice]
                (mkChatUsage
                   (calculateTokens (mk_slice (effectiveMessages req)))
                   20
                   (add64 (calculateTokens (mk_slice (effectiveMessages req))) 20)))))
       (withRand (snd (drawID 29 (globalRand w)))
          (afterBind "Warning: Malformed chat completion request: " bindErr w)).
Proof.
  intros H. unfold handleChatCompletions.
  rewrite passes_negb, H. cbn [negb].
  set (w0 := afterBind "Warning: Malformed chat completion request: " bindErr w).
  destruct (afterBind_logs "Warning: Malformed chat completion request: "
              bindErr w) as (Hg & Hc & _).
  fold w0 in Hg, Hc.
  assert (Hcalc : calculateTokens
                    (if is_nil (Messages req)
                     then mk_slice [mkMessage "user" "Hello"]
                     else Messages req)
                  = calculateTokens (mk_slice (effectiveMessages req))).
  { unfold effectiveMessages. destruct (Messages req); reflexivity. }
  assert (Hpre : match bindErr with
                 | Some err =>
                   log_Printf ("Warning: Malformed chat completion request: "
                               ++ err ++ ". Continuing with default values.")%string
                 | None => ret tt
                 end w = Ok tt w0).
  { unfold w0. destruct bindErr; reflexivity. }
  unfold bind. rewrite Hpre.
  unfold randomID. change (29 <? 0) with false. cbv iota.
  change (Z.to_nat 29) with 29%nat.
  rewrite randomBytes_run. unfold time_Now_Unix, ret.
  rewrite Hcalc, Hg. unfold withRand at 1. cbn [clock]. rewrite Hc.
  reflexivity.
Qed.

(** X2.  The identifier of a completion.  A chat request that passes the
    model check is answered with an [id] made of [chatcmpl-] and 29 ASCII
    letters or digits, drawn with 29 calls of [Intn] from the process wide
    generator, and with [created] the clock in whole seconds; besides the
    generator (and the warning of a failed binding) it leaves the world
    as it was.  A request that does not pass draws nothing. *)
Theorem chat_completion_id (req : ChatCompletionRequest)
    (bindErr : option string) (config : Config) (w : World) :
  (passes (Chat (ConfigModels config)) (ChatModel req) = true ->
   exists (r : ChatCompletionResponse) (id : string) (g : rng),
     handleChatCompletions req bindErr config w
     = Ok (mkResponse 200 (ChatBody r))
          (withRand g
             (afterBind "Warning: Malformed chat completion request: " bindErr w))
     /\ ID r = ("chatcmpl-" ++ id)%string
     /\ (id, g) = drawID 29 (globalRand w)
     /\ len id = 29
     /\ Forall (fun a => alphanumeric a = true) (list_ascii_of_string id)
     /\ Created r = clock w / 1000000000)
  /\ (passes (Chat (ConfigModels config)) (ChatModel req) = false ->
      exists r : Response,
        handleChatCompletions req bindErr config w
        = Ok r (afterBind "Warning: Malformed chat completion request: " bindErr w)
        /\ status r = 400).
Proof.
  split; intros H.
  - rewrite (chat_run req bindErr config w H).
    do 3 eexists. split; [reflexivity|]. cbn [ID Created].
    split; [reflexivity|]. split; [symmetry; apply surjective_pairing|].
    split; [|split; [apply drawID_alphanumeric | reflexivity]].
    unfold len. rewrite drawID_length. reflexivity.
  - rewrite (chat_rejected req bindErr config w H).
    eexists. split; reflexivity.
Qed.

(** X3.  A malformed body is never refused for being malformed.  Whatever
    error the binding returned, both handlers answer exactly what they
    answer for the same bound request without an error; the only trace is
    one warning at the end of the log. *)
Theorem malformed_body_is_answered (err : string) (config : Config) (w : World) :
  (forall req : ChatCompletionRequest,
      returned (handleChatCompletions req (Some err) config w)
      = returned (handleChatCompletions req None config w)
      /\ exists r w',
          handleChatCompletions req (Some err) config w = Ok r w'
          /\ logs w'
             = logs w ++ [("Warning: Malformed chat completion request: " ++ err
                           ++ ". Continuing with default values.")%string])
  /\ (forall req : EmbeddingRequest,
         returned (handleEmbeddings req (Some err) config w)
         = returned (handleEmbeddings req None config w)
         /\ exists r w',
             handleEmbeddings req (Some err) config w = Ok r w'
             /\ logs w'
                = logs w ++ [("Warning: Malformed embedding request: " ++ err
                              ++ ". Continuing with default values.")%string]).
Proof.
  split; intros req.
  - destruct (passes (Chat (ConfigModels config)) (ChatModel req)) eqn:Hp.
    + rewrite !(chat_run req _ config w Hp). split; [reflexivity|].
      do 2 eexists. split; reflexivity.
    + rewrite !(chat_rejected req _ config w Hp). split; [reflexivity|].
      do 2 eexists. split; reflexivity.
  - destruct (passes (Embedding (ConfigModels config)) (EmbModel req)) eqn:Hp.
    + destruct (embeddings_accepted req (Some err) config w Hp)
        as (p1 & t1 & H1 & Hp1 & Ht1).
      destruct (embeddings_accepted req None config w Hp)
        as (p2 & t2 & H2 & Hp2 & Ht2).
      rewrite H1, H2. subst. split; [reflexivity|].
      do 2 eexists. split; reflexivity.
    + rewrite !(embeddings_rejected req _ config w Hp). split; [reflexivity|].
      do 2 eexists. split; reflexivity.
Qed.

Lemma defaultModel_cases (requested : string) (models : list string) :
  (requested <> "" -> defaultModel requested models = requested)
  /\ (requested = "" -> defaultModel requested models = hd "" models).
Proof.
  unfold defaultModel. split; intros H.
  - apply isEmpty_false in H. rewrite H. reflexivity.
  - subst requested. cbn. destruct models; reflexivity.
Qed.

Lemma passes_In (models : list string) (requested : string) :
  passes models requested = true -> requested <> "" -> In requested models.
Proof.
  unfold passes. intros H Hne. apply isEmpty_false in Hne.
  rewrite Hne, orb_false_r in H. apply modelSupported_In. exact H.
Qed.

(** X4.  The model a reply names.  In every completion and every embeddings
    list: a request that names a model is answered with that name, which
    is an entry of the configured list; a request that names none is
    answered with the first entry of the configured list, or with the
    empty name when the list is empty. *)
Theorem reply_names_the_model (bindErr : option string) (config : Config)
    (w w' : World) (st : Z) :
  (forall (req : ChatCompletionRequest) (r : ChatCompletionResponse),
      handleChatCompletions req bindErr config w
      = Ok (mkResponse st (ChatBody r)) w' ->
      (ChatModel req <> "" ->
       ChatRespModel r = ChatModel req
       /\ In (ChatModel req) (Chat (ConfigModels config)))
      /\ (ChatModel req = "" ->
          ChatRespModel r = hd "" (Chat (ConfigModels config))))
  /\ (forall (req : EmbeddingRequest) (r : EmbeddingResponse),
         handleEmbeddings req bindErr config w
         = Ok (mkResponse st (EmbeddingBody r)) w' ->
         (EmbModel req <> "" ->
          EmbRespModel r = EmbModel req
          /\ In (EmbModel req) (Embedding (ConfigModels config)))
         /\ (EmbModel req = "" ->
             EmbRespModel r = hd "" (Embedding (ConfigModels config)))).
Proof.
  split; intros req r Hrun.
  - destruct (passes (Chat (ConfigModels config)) (ChatModel req)) eqn:Hp.
    + rewrite (chat_run req bindErr config w Hp) in Hrun.
      injection Hrun as _ Hr _. subst r. cbn [ChatRespModel].
      destruct (defaultModel_cases (ChatModel req) (Chat (ConfigModels config)))
        as [Hne Hem].
      split; intros H; [split; [apply Hne; exact H | apply passes_In; assumption]
                       | apply Hem; exact H].
    + rewrite (chat_rejected req bindErr config w Hp) in Hrun.
      unfold modelNotFound in Hrun. discriminate.
  - destruct (passes (Embedding (ConfigModels config)) (EmbModel req)) eqn:Hp.
    + destruct (embeddings_accepted req bindErr config w Hp) as (p & t & H & _).
      rewrite H in Hrun. injection Hrun as _ Hr _. subst r. cbn [EmbRespModel].
      destruct (defaultModel_cases (EmbModel req) (Embedding (ConfigModels config)))
        as [Hne Hem].
      split; intros H0; [split; [apply Hne; exact H0 | apply passes_In; assumption]
                        | apply Hem; exact H0].
    + rewrite (embeddings_rejected req bindErr config w Hp) in Hrun.
      unfold modelNotFound in Hrun. discriminate.
Qed.

End Replies.

(* ================================================================== *)
(** * The embeddings list: entries and usage *)

Section EmbeddingsList.

Context {RS : RandSource}.

Lemma entriesFrom_nth (inputs : list string) (i j : nat) (input : string) :
  nth_error inputs j = Some input ->
  nth_error (entriesFrom i inputs) j
  = Some (mkEmbeddingData "embedding"
            (mk_slice (embeddingOfSeed (hashSeed input) 1536))
            (Z.of_nat (i + j))).
Proof.
  revert i j. induction inputs as [|x rest IH]; intros i j H.
  - destruct j; discriminate H.
  - destruct j as [|j]; cbn [nth_error entriesFrom] in *.
    + injection H as ->. rewrite Nat.add_0_r. reflexivity.
    + rewrite (IH (S i) j H). do 3 f_equal. lia.
Qed.

(** X5.  The entries of an embeddings list.  The list has the object [list]
    and, for the input at each position, an entry at the same position
    whose [index] is that position, whose object is [embedding] and whose
    vector is the one the generator gives for that input alone: it does
    not depend on the other inputs of the request. *)
Theorem embeddings_entries (req : EmbeddingRequest) (bindErr : option string)
    (config : Config) (w w' : World) (st : Z) (r : EmbeddingResponse) :
  handleEmbeddings req bindErr config w = Ok (mkResponse st (EmbeddingBody r)) w' ->
  EmbObject r = "list"
  /\ forall (j : nat) (input : string),
      nth_error (effectiveInput req) j = Some input ->
      exists entry : EmbeddingData,
        nth_error (Data r) j = Some entry
        /\ DataIndex entry = Z.of_nat j
        /\ DataObject entry = "embedding"
        /\ is_nil (DataEmbedding entry) = false
        /\ generateMockEmbedding input 1536 = Some (elems (DataEmbedding entry)).
Proof.
  intros Hrun.
  destruct (passes (Embedding (ConfigModels config)) (EmbModel req)) eqn:Hp.
  - destruct (embeddings_accepted req bindErr config w Hp) as (p & t & H & _).
    rewrite H in Hrun. injection Hrun as _ Hr _. subst r. cbn [EmbObject Data].
    split; [reflexivity|]. intros j input Hj.
    eexists. split; [apply entriesFrom_nth; exact Hj|].
    cbn [DataIndex DataObject DataEmbedding is_nil elems].
    repeat split. apply generateMockEmbedding_1536.
  - rewrite (embeddings_rejected req bindErr config w Hp) in Hrun.
    unfold modelNotFound in Hrun. discriminate.
Qed.

(** X6.  The usage of an embeddings list: [prompt_tokens] and [total_tokens]
    are always equal, and for inputs of fewer than [2^63] bytes together
    they are the sum over the inputs of the byte length divided by 4,
    rounded down. *)
Theorem embeddings_usage (req : EmbeddingRequest) (bindErr : option string)
    (config : Config) (w w' : World) (st : Z) (r : EmbeddingResponse) :
  handleEmbeddings req bindErr config w = Ok (mkResponse st (EmbeddingBody r)) w' ->
  EmbTotalTokens (EmbUsage r) = EmbPromptTokens (EmbUsage r)
  /\ (totalLen (effectiveInput req) < 2 ^ 63 ->
      EmbPromptTokens (EmbUsage r) = sumTokens (effectiveInput req)).
Proof.
  intros Hrun.
  destruct (passes (Embedding (ConfigModels config)) (EmbModel req)) eqn:Hp.
  - destruct (embeddings_accepted req bindErr config w Hp)
      as (p & t & H & Hpt & Htt).
    rewrite H in Hrun. injection Hrun as _ Hr _. subst r.
    cbn [EmbUsage EmbPromptTokens EmbTotalTokens].
    split; [congruence|].
    intros Hfit. rewrite Hpt. rewrite fold_tokens_sum by lia. lia.
  - rewrite (embeddings_rejected req bindErr config w Hp) in Hrun.
    unfold modelNotFound in Hrun. discriminate.
Qed.

End EmbeddingsList.

(* ================================================================== *)
(** * The token estimate *)

Lemma sumTokens_lower (texts : list string) :
  totalLen texts - 3 * Z.of_nat (List.length texts) <= 4 * sumTokens texts.
Proof.
  induction texts as [|s texts IH]; cbn [totalLen sumTokens fold_right List.length].
  - lia.
  - fold (totalLen texts). fold (sumTokens texts).
    pose proof (len_nonneg s) as Hs.
    pose proof (Z.div_mod (len s) 4 ltac:(lia)) as Hdm.
    pose proof (Z.mod_pos_bound (len s) 4 ltac:(lia)) as Hr.
    lia.
Qed.

Lemma sumTokens_upper (texts : list string) :
  4 * sumTokens texts <= totalLen texts.
Proof.
  induction texts as [|s texts IH]; cbn [totalLen sumTokens fold_right].
  - lia.
  - fold (totalLen texts). fold (sumTokens texts).
    pose proof (Z.div_mod (len s) 4 ltac:(lia)) as Hdm.
    pose proof (Z.mod_pos_bound (len s) 4 ltac:(lia)) as Hr.
    lia.
Qed.

(** X7.  The estimate of [calculateTokens] against the bytes it is taken
    from: for messages whose contents hold [B < 2^63] bytes together,
    four times the estimate lies between [B - 3 * n] and [B], where [n]
    is the number of messages.  Roles are not counted, and messages of
    fewer than 4 bytes each are estimated at 0. *)
Theorem token_estimate_bounds (messages : list ChatCompletionMessage) :
  totalLen (map Content messages) < 2 ^ 63 ->
  totalLen (map Content messages) - 3 * Z.of_nat (List.length messages)
  <= 4 * calculateTokens (mk_slice messages)
  <= totalLen (map Content messages)
  /\ (Forall (fun m => len (Content m) < 4) messages ->
      calculateTokens (mk_slice messages) = 0).
Proof.
  intros Hfit. rewrite (calculateTokens_sum messages Hfit).
  pose proof (sumTokens_lower (map Content messages)) as Hlo.
  pose proof (sumTokens_upper (map Content messages)) as Hhi.
  rewrite length_map in Hlo.
  split; [lia|].
  intros Hshort. clear Hfit Hlo Hhi.
  induction Hshort as [|m ms Hm _ IH]; cbn [map sumTokens fold_right].
  - reflexivity.
  - fold (sumTokens (map Content ms)). rewrite IH.
    pose proof (len_nonneg (Content m)) as H0.
    rewrite Z.div_small by lia. reflexivity.
Qed.

(* ================================================================== *)
(** * [handleModels] *)

Section ModelsList.

Context {RS : RandSource}.

(** The entry appended for a model name in the world [w]. *)
Lemma appendModels_run (models : list string) (obj : string)
    (data : list ModelData) (w : World) :
  appendModels models (mkModelsResponse obj (mk_slice data)) w
  = Ok (mkModelsResponse obj
          (mk_slice
             (data ++ map (fun model =>
                             mkModelData model "model"
                               (sub64 (clock w / 1000000000) (86400 * 30))
                               "openai")
                          models)))
       w.
Proof.
  revert data. induction models as [|model rest IH]; intros data.
  - cbn [appendModels map]. rewrite app_nil_r. reflexivity.
  - cbn [appendModels map]. unfold bind, time_Now_Unix.
    cbn [ModelsObject ModelsData]. unfold append. cbn [elems].
    rewrite IH, <- app_assoc. reflexivity.
Qed.

Lemma handleModels_run (config : Config) (w : World) :
  handleModels config w
  = Ok (StatusOK,
        mkModelsResponse "list"
          (mk_slice
             (map (fun model =>
                     mkModelData model "model"
                       (sub64 (clock w / 1000000000) (86400 * 30)) "openai")
                  (Chat (ConfigModels config) ++ Embedding (ConfigModels config)))))
       w.
Proof.
  unfold handleModels, bind.
  rewrite appendModels_run. cbn [app].
  rewrite appendModels_run. rewrite map_app. reflexivity.
Qed.

(** X8.  The models list.  [handleModels] always answers 200 with an object
    [list] whose data names the configured chat models and then the
    configured embedding models, each in its configured order and as
    often as it is configured; the data is an empty list, never nil, when
    nothing is configured; the world is left as it was. *)
Theorem models_are_listed_in_order (config : Config) (w : World) :
  exists r : ModelsResponse,
    handleModels config w = Ok (200, r) w
    /\ ModelsObject r = "list"
    /\ is_nil (ModelsData r) = false
    /\ map ModelID (elems (ModelsData r))
       = Chat (ConfigModels config) ++ Embedding (ConfigModels config)
    /\ Z.of_nat (List.length (elems (ModelsData r)))
       = Z.of_nat (List.length (Chat (ConfigModels config)))
         + Z.of_nat (List.length (Embedding (ConfigModels config))).
Proof.
  rewrite handleModels_run. eexists. split; [reflexivity|].
  cbn [ModelsObject ModelsData is_nil elems].
  split; [reflexivity|]. split; [reflexivity|].
  rewrite map_map. cbn [ModelID]. rewrite map_id.
  split; [reflexivity|].
  rewrite length_map, length_app. lia.
Qed.

(** X9.  The entries of the models list, for a clock between the epoch and
    the end of the [int64] nanoseconds: every entry has the object
    [model], the owner [openai], and as [created] the clock in whole
    seconds less 30 days of 86400 seconds. *)
Theorem models_entries (config : Config) (w w' : World)
    (st : Z) (r : ModelsResponse) :
  0 <= clock w < 2 ^ 63 ->
  handleModels config w = Ok (st, r) w' ->
  Forall (fun d => ModelObject d = "model"
                   /\ OwnedBy d = "openai"
                   /\ ModelCreated d = clock w / 1000000000 - 2592000)
         (elems (ModelsData r)).
Proof.
  intros Hclock Hrun. rewrite handleModels_run in Hrun.
  injection Hrun as _ Hr _. subst r. cbn [ModelsData elems].
  apply Forall_forall. intros d Hd. apply in_map_iff in Hd.
  destruct Hd as (model & <- & _). cbn [ModelObject OwnedBy ModelCreated].
  split; [reflexivity|]. split; [reflexivity|].
  unfold sub64. change (86400 * 30) with 2592000.
  apply wrap64_id. unfold in_int64.
  assert (H : 0 <= clock w / 1000000000 <= clock w).
  { split; [apply Z.div_pos; lia|].
    apply Z.div_le_upper_bound; lia. }
  change (2 ^ 63) with 9223372036854775808 in *. lia.
Qed.

(** X10.  The list against the model check.  A name that is not empty is in
    the data of the models list exactly when the chat handler or the
    embeddings handler answers 200 to the requests that name it. *)
Theorem listed_iff_accepted (config : Config) (w w' : World)
    (st : Z) (r : ModelsResponse) (model : string) :
  handleModels config w = Ok (st, r) w' ->
  model <> "" ->
  In model (map ModelID (elems (ModelsData r)))
  <-> (forall (messages : slice ChatCompletionMessage)
              (bindErr : option string) (w1 : World),
          exists b w2,
            handleChatCompletions (mkChatRequest model messages) bindErr config w1
            = Ok (mkResponse 200 b) w2)
      \/ (forall (input : slice string) (bindErr : option string) (w1 : World),
             exists b w2,
               handleEmbeddings (mkEmbeddingRequest model input) bindErr config w1
               = Ok (mkResponse 200 b) w2).
Proof.
  intros Hrun Hne. rewrite handleModels_run in Hrun.
  injection Hrun as _ Hr _. subst r. cbn [ModelsData elems].
  rewrite map_map. cbn [ModelID]. rewrite map_id, in_app_iff.
  split.
  - intros [Hin|Hin]; [left | right].
    + intros messages bindErr w1.
      assert (Hp : passes (Chat (ConfigModels config))
                     (ChatModel (mkChatRequest model messages)) = true).
      { unfold passes. cbn [ChatModel].
        apply modelSupported_In in Hin. rewrite Hin. reflexivity. }
      rewrite (chat_run _ bindErr config w1 Hp). do 2 eexists. reflexivity.
    + intros input bindErr w1.
      assert (Hp : passes (Embedding (ConfigModels config))
                     (EmbModel (mkEmbeddingRequest model input)) = true).
      { unfold passes. cbn [EmbModel].
        apply modelSupported_In in Hin. rewrite Hin. reflexivity. }
      destruct (embeddings_accepted _ bindErr config w1 Hp) as (p & t & H & _).
      rewrite H. do 2 eexists. reflexivity.
  - intros [Hall|Hall]; [left | right].
    + destruct (Hall nil_slice None w) as (b & w2 & H).
      destruct (passes (Chat (ConfigModels config))
                  (ChatModel (mkChatRequest model nil_slice))) eqn:Hp.
      * apply passes_In in Hp; [exact Hp | exact Hne].
      * rewrite (chat_rejected _ None config w Hp) in H.
        unfold modelNotFound in H. discriminate.
    + destruct (Hall nil_slice None w) as (b & w2 & H).
      destruct (passes (Embedding (ConfigModels config))
                  (EmbModel (mkEmbeddingRequest model nil_slice))) eqn:Hp.
      * apply passes_In in Hp; [exact Hp | exact Hne].
      * rewrite (embeddings_rejected _ None config w Hp) in H.
        unfold modelNotFound in H. discriminate.
Qed.

End ModelsList.

(* ================================================================== *)
(** * What the handlers leave of the world, and the router *)

Section Router.

Context {RS : RandSource}.

Lemma chat_returns (req : ChatCompletionRequest) (bindErr : option string)
    (config : Config) (w : World) :
  exists (r : Response) (g : rng),
    handleChatCompletions req bindErr config w
    = Ok r (withRand g
              (afterBind "Warning: Malformed chat completion request: "
                 bindErr w)).
Proof.
  destruct (passes (Chat (ConfigModels config)) (ChatModel req)) eqn:Hp.
  - rewrite (chat_run req bindErr config w Hp). do 2 eexists. reflexivity.
  - rewrite (chat_rejected req bindErr config w Hp).
    exists (modelNotFound (ChatModel req)),
           (globalRand (afterBind "Warning: Malformed chat completion request: "
                          bindErr w)).
    f_equal. destruct bindErr, w; reflexivity.
Qed.

Lemma embeddings_returns (req : EmbeddingRequest) (bindErr : option string)
    (config : Config) (w : World) :
  exists r : Response,
    handleEmbeddings req bindErr config w
    = Ok r (afterBind "Warning: Malformed embedding request: " bindErr w).
Proof.
  destruct (passes (Embedding (ConfigModels config)) (EmbModel req)) eqn:Hp.
  - destruct (embeddings_accepted req bindErr config w Hp) as (p & t & H & _).
    rewrite H. eexists. reflexivity.
  - rewrite (embeddings_rejected req bindErr config w Hp).
    eexists. reflexivity.
Qed.

Lemma withRand_afterBind (prefix : string) (bindErr : option string)
    (g : rng) (w : World) :
  clock (withRand g (afterBind prefix bindErr w)) = clock w
  /\ sleeps (withRand g (afterBind prefix bindErr w)) = sleeps w
  /\ globalRand (afterBind prefix bindErr w) = globalRand w.
Proof. destruct bindErr; cbn; auto. Qed.

(** X11.  What each handler does to the world.  No handler panics, sleeps or
    moves the clock, whatever the request and the configuration.  The
    chat handler changes the process wide generator and the log at most;
    the embeddings handler changes the log at most; the models handler
    changes nothing. *)
Theorem handlers_always_return (config : Config) (w : World) :
  (forall (req : ChatCompletionRequest) (bindErr : option string),
      exists (r : Response) (g : rng),
        handleChatCompletions req bindErr config w
        = Ok r (withRand g
                  (afterBind "Warning: Malformed chat completion request: "
                     bindErr w)))
  /\ (forall (req : EmbeddingRequest) (bindErr : option string),
         exists r : Response,
           handleEmbeddings req bindErr config w
           = Ok r (afterBind "Warning: Malformed embedding request: " bindErr w))
  /\ (exists r, handleModels config w = Ok r w)
  /\ (forall (prefix : string) (bindErr : option string) (g : rng),
         clock (withRand g (afterBind prefix bindErr w)) = clock w
         /\ sleeps (withRand g (afterBind prefix bindErr w)) = sleeps w
         /\ globalRand (afterBind prefix bindErr w) = globalRand w).
Proof.
  split; [|split; [|split]].
  - intros req bindErr. apply chat_returns.
  - intros req bindErr. apply embeddings_returns.
  - rewrite handleModels_run. eexists. reflexivity.
  - intros prefix bindErr g. apply withRand_afterBind.
Qed.

(** The middleware, case by case. *)
Lemma middleware_cases {A : Type} (min max : Z) (next : M A) (w : World) :
  (min <= 0 -> simulateLatencyMiddleware min max next w = next w)
  /\ (0 < min ->
      exists (d : Z) (g : rng),
        simulateLatencyMiddleware min max next w = next (slept d g w)
        /\ (max <= min -> d = min /\ g = globalRand w)
        /\ (min < max -> g = snd (Float64 (globalRand w)))).
Proof.
  unfold simulateLatencyMiddleware, bind. split; intros Hmin.
  - replace (0 <? min) with false by (symmetry; apply Z.ltb_ge; lia).
    reflexivity.
  - replace (0 <? min) with true by (symmetry; apply Z.ltb_lt; lia).
    destruct (min <? max) eqn:E.
    + apply Z.ltb_lt in E. unfold rand_Float64.
      destruct (Float64 (globalRand w)) as [u g].
      do 2 eexists. split; [reflexivity|]. split; [lia | reflexivity].
    + apply Z.ltb_ge in E.
      exists min, (globalRand w). split; [reflexivity|].
      split; [auto | lia].
Qed.

(** A handler chain of the router returns when its handler returns
    without touching the clock. *)
Lemma chain_returns (min max : Z) (handler : M Written) (w : World) :
  (forall w0 : World,
      exists written w', handler w0 = Ok written w' /\ sameTime w0 w') ->
  exists written w',
    simulateLatencyMiddleware min max handler w = Ok written w'
    /\ (min <= 0 -> clock w' = clock w /\ sleeps w' = sleeps w)
    /\ (0 < min ->
        exists d : Z,
          sleeps w' = sleeps w ++ [d]
          /\ clock w' = clock w + Z.max d 0
          /\ (max <= min -> d = min)).
Proof.
  intros Hh.
  destruct (middleware_cases min max handler w) as [Hskip Hsleep].
  destruct (Z_le_gt_dec min 0) as [Hmin|Hmin].
  - rewrite (Hskip Hmin).
    destruct (Hh w) as (written & w' & Hrun & Hc & Hs).
    exists written, w'. split; [exact Hrun|]. split; [auto | lia].
  - destruct (Hsleep ltac:(lia)) as (d & g & Hrun & Hfix & _).
    rewrite Hrun.
    destruct (Hh (slept d g w)) as (written & w' & Hrun' & Hc & Hs).
    exists written, w'. split; [exact Hrun'|]. split; [lia|].
    intros _. exists d. cbn [slept clock sleeps] in Hc, Hs.
    split; [exact Hs|]. split; [exact Hc|].
    intros Hle. apply Hfix. exact Hle.
Qed.

Lemma written_chat (c : GinContext) (config : Config) (w0 : World) :
  exists written w',
    bind (handleChatCompletions (boundChat c) (chatErr c) config)
         (fun r => ret (WrittenJSON r)) w0 = Ok written w'
    /\ sameTime w0 w'.
Proof.
  destruct (chat_returns (boundChat c) (chatErr c) config w0) as (r & g & Hrun).
  unfold bind. rewrite Hrun. unfold ret. do 2 eexists.
  split; [reflexivity|].
  destruct (withRand_afterBind "Warning: Malformed chat completion request: "
              (chatErr c) g w0) as (Hc & Hs & _).
  split; assumption.
Qed.

(** X12.  The routes and the delay.  The router holds three routes, for
    [POST /v1/chat/completions], [POST /v1/embeddings] and
    [GET /v1/models].  Whatever the request and whatever the answer (an
    error reply included), the chain of every route returns, and on its
    way: for a minimum latency that is not positive it neither sleeps nor
    moves the clock; for a positive one it sleeps exactly once, before the
    handler runs, and for exactly the minimum when the maximum does not
    exceed it. *)
Theorem every_route_is_delayed_once (config : Config) :
  map (fun route => (Method route, Path route)) (setupRouter config)
  = [("POST", "/v1/chat/completions"); ("POST", "/v1/embeddings");
     ("GET", "/v1/models")]
  /\ forall (route : RouteInfo) (c : GinContext) (w : World),
      In route (setupRouter config) ->
      exists (written : Written) (w' : World),
        HandlerFunc route c w = Ok written w'
        /\ (MinLatency config <= 0 ->
            clock w' = clock w /\ sleeps w' = sleeps w)
        /\ (0 < MinLatency config ->
            exists d : Z,
              sleeps w' = sleeps w ++ [d]
              /\ clock w' = clock w + Z.max d 0
              /\ (MaxLatency config <= MinLatency config ->
                  d = MinLatency config)).
Proof.
  split; [reflexivity|].
  intros route c w Hin. cbn [setupRouter In] in Hin.
  destruct Hin as [<-|[<-|[<-|[]]]]; cbn [HandlerFunc]; apply chain_returns.
  - apply written_chat.
  - intros w0.
    destruct (embeddings_returns (boundEmbedding c) (embeddingErr c) config w0)
      as (r & Hrun).
    unfold bind. rewrite Hrun. unfold ret. do 2 eexists.
    split; [reflexivity|]. apply afterBind_sameTime.
  - intros w0. unfold bind. rewrite handleModels_run. unfold ret.
    do 2 eexists. split; [reflexivity|]. split; reflexivity.
Qed.

(** X13.  The delay comes first.  On the chat route with a positive minimum
    latency, a request that passes the model check is stamped after the
    sleep: [created] is the clock advanced by the delay, in whole seconds;
    and its identifier is drawn from the generator as the middleware left
    it: untouched for a fixed delay, one [Float64] further for a random
    one. *)
Theorem completion_is_stamped_after_the_delay
    (config : Config) (route : RouteInfo) (c : GinContext) (w : World) :
  In route (setupRouter config) ->
  Path route = "/v1/chat/completions" ->
  passes (Chat (ConfigModels config)) (ChatModel (boundChat c)) = true ->
  0 < MinLatency config ->
  exists (d : Z) (g : rng) (r : ChatCompletionResponse) (w' : World),
    HandlerFunc route c w = Ok (WrittenJSON (mkResponse 200 (ChatBody r))) w'
    /\ sleeps w' = sleeps w ++ [d]
    /\ Created r = (clock w + Z.max d 0) / 1000000000
    /\ ID r = ("chatcmpl-" ++ fst (drawID 29 g))%string
    /\ (MaxLatency config <= MinLatency config ->
        d = MinLatency config /\ g = globalRand w)
    /\ (MinLatency config < MaxLatency config ->
        g = snd (Float64 (globalRand w))).
Proof.
  intros Hin Hpath Hp Hmin. cbn [setupRouter In] in Hin.
  destruct Hin as [<-|[<-|[<-|[]]]]; cbn [Path HandlerFunc] in *;
    try discriminate Hpath.
  destruct (middleware_cases (MinLatency config) (MaxLatency config)
              (bind (handleChatCompletions (boundChat c) (chatErr c) config)
                    (fun r => ret (WrittenJSON r))) w) as [_ Hsleep].
  destruct (Hsleep Hmin) as (d & g & Hrun & Hfix & Hrand).
  rewrite Hrun. unfold bind.
  rewrite (chat_run (boundChat c) (chatErr c) config (slept d g w) Hp).
  unfold ret. exists d, g. do 2 eexists.
  split; [reflexivity|]. cbn [ID Created].
  split.
  - destruct (chatErr c); reflexivity.
  - split; [reflexivity|]. split; [reflexivity|]. split; assumption.
Qed.

End Router.

(* ================================================================== *)
(** * The configuration: [loadConfig] and [main] *)

Section Configuration.

Context {RS : RandSource} {PF : Platform}.

(** X14.  When [loadConfig] succeeds.  It returns a configuration exactly in
    two cases: for the empty path, the zero configuration (port 0, no
    latency, no models), without opening anything; for another path, when
    the file opens, decodes, and both latency strings parse, the port and
    the models of the file with the two parsed durations.  In every other
    case it returns an error and nothing of the file; a [min_latency]
    that does not parse is reported as such whatever [max_latency] is. *)
Theorem loadConfig_succeeds_iff (configPath : string) (config : Config) :
  (loadConfig configPath = Got config
   <-> (configPath = "" /\ config = mkConfig 0 0 0 (mkModels [] []))
       \/ (configPath <> ""
           /\ exists (file : File) (configFile : ConfigFile),
               os_Open configPath = Got file
               /\ json_Decode file = Got configFile
               /\ time_ParseDuration (FileMinLatency configFile)
                  = Got (MinLatency config)
               /\ time_ParseDuration (FileMaxLatency configFile)
                  = Got (MaxLatency config)
               /\ Port config = FilePort configFile
               /\ ConfigModels config = FileModels configFile))
  /\ (forall (file : File) (configFile : ConfigFile) (err : string),
         configPath <> "" ->
         os_Open configPath = Got file ->
         json_Decode file = Got configFile ->
         time_ParseDuration (FileMinLatency configFile) = Err err ->
         loadConfig configPath = Err ("invalid min_latency: " ++ err)%string).
Proof.
  split.
  - unfold loadConfig. split.
    + destruct (isEmpty configPath) eqn:E.
      * apply isEmpty_true in E. intros H. injection H as <-. left. auto.
      * apply isEmpty_false in E. intros H. right. split; [exact E|].
        destruct (os_Open configPath) as [file|e] eqn:Ho; [|discriminate H].
        destruct (json_Decode file) as [cf|e] eqn:Hd; [|discriminate H].
        destruct (time_ParseDuration (FileMinLatency cf)) as [d1|e] eqn:H1;
          [|discriminate H].
        destruct (time_ParseDuration (FileMaxLatency cf)) as [d2|e] eqn:H2;
          [|discriminate H].
        injection H as <-. exists file, cf. cbn. repeat split; assumption.
    + intros [[-> ->]|(Hne & file & cf & Ho & Hd & H1 & H2 & Hp & Hm)].
      * reflexivity.
      * apply isEmpty_false in Hne. rewrite Hne, Ho, Hd, H1, H2.
        destruct config. cbn in *. subst. reflexivity.
  - intros file cf err Hne Ho Hd H1. unfold loadConfig.
    apply isEmpty_false in Hne. rewrite Hne, Ho, Hd, H1. reflexivity.
Qed.

(** The three overrides of [main], on a configuration. *)
Lemma mainConfig_overrides (flags : Flags) (loaded : Config) (w w0 : World) :
  match loadConfig (configFile flags) with
  | Err err =>
    bind (log_Printf ("Warning: Failed to load config file: " ++ err
                      ++ ". Using default and command-line settings.")%string)
         (fun _ => ret (mkConfig defaultPort 0 0
                          (mkModels ["text-embedding-ada-002"]
                                    ["gpt-3.5-turbo"; "gpt-4"])))
  | Got config => ret config
  end w = Ok loaded w0 ->
  mainConfig flags w
  = Ok (mkConfig
          (if port flags =? 8080 then Port loaded else port flags)
          (if minLatency flags =? 0 then MinLatency loaded else minLatency flags)
          (if maxLatency flags =? 0 then MaxLatency loaded else maxLatency flags)
          (ConfigModels loaded))
       w0.
Proof.
  intros H. unfold mainConfig. unfold bind at 1. rewrite H.
  unfold ret, defaultPort.
  destruct loaded as [p mn mx ms].
  destruct (port flags =? 8080), (minLatency flags =? 0),
    (maxLatency flags =? 0); reflexivity.
Qed.

(** X15.  Without a configuration file.  When [-config] is not given, [main]
    serves, without a warning, the zero configuration under the flags:
    the port of [-port], but port 0 when that is 8080 (its default); the
    latencies of the flags; and no model at all.  So every chat or
    embeddings request that names a model is answered 400, and the models
    list is empty. *)
Theorem without_config_file_no_model_is_served (flags : Flags) (w : World) :
  configFile flags = "" ->
  exists config : Config,
    mainConfig flags w = Ok config w
    /\ Port config = (if port flags =? 8080 then 0 else port flags)
    /\ MinLatency config = minLatency flags
    /\ MaxLatency config = maxLatency flags
    /\ ConfigModels config = mkModels [] []
    /\ (forall (req : ChatCompletionRequest) (bindErr : option string)
               (w1 : World),
           ChatModel req <> "" ->
           exists r w2,
             handleChatCompletions req bindErr config w1 = Ok r w2
             /\ status r = 400)
    /\ (forall (req : EmbeddingRequest) (bindErr : option string)
               (w1 : World),
           EmbModel req <> "" ->
           exists r w2,
             handleEmbeddings req bindErr config w1 = Ok r w2
             /\ status r = 400)
    /\ (forall w1 : World,
           handleModels config w1
           = Ok (200, mkModelsResponse "list" (mk_slice [])) w1).
Proof.
  intros Hpath.
  assert (Hload : loadConfig (configFile flags)
                  = Got (mkConfig 0 0 0 (mkModels [] []))).
  { rewrite Hpath. reflexivity. }
  rewrite (mainConfig_overrides flags (mkConfig 0 0 0 (mkModels [] [])) w w)
    by (rewrite Hload; reflexivity).
  eexists. split; [reflexivity|].
  cbn [Port MinLatency MaxLatency ConfigModels].
  split; [reflexivity|].
  split; [destruct (Z.eqb_spec (minLatency flags) 0); congruence|].
  split; [destruct (Z.eqb_spec (maxLatency flags) 0); congruence|].
  split; [reflexivity|].
  split; [|split].
  - intros req bindErr w1 Hne.
    rewrite chat_rejected.
    + do 2 eexists. split; reflexivity.
    + cbn [ConfigModels Chat]. apply passes_absent; [exact Hne | intros []].
  - intros req bindErr w1 Hne.
    rewrite embeddings_rejected.
    + do 2 eexists. split; reflexivity.
    + cbn [ConfigModels Embedding]. apply passes_absent; [exact Hne | intros []].
  - intros w1. rewrite handleModels_run. reflexivity.
Qed.

(** X16.  When loading fails.  Whatever the reason, [main] logs one warning
    with the error and serves the defaults under the flags: the port of
    [-port] (8080 unless given), the latencies of the flags (none unless
    given), one embedding model and two chat models.  Nothing of the file
    is used, its port and its models included. *)
Theorem failed_load_serves_the_defaults (flags : Flags) (w : World)
    (err : string) :
  loadConfig (configFile flags) = Err err ->
  mainConfig flags w
  = Ok (mkConfig (port flags) (minLatency flags) (maxLatency flags)
          (mkModels ["text-embedding-ada-002"] ["gpt-3.5-turbo"; "gpt-4"]))
       (logged ("Warning: Failed to load config file: " ++ err
                ++ ". Using default and command-line settings.")%string w).
Proof.
  intros Hload.
  rewrite (mainConfig_overrides flags
             (mkConfig defaultPort 0 0
                (mkModels ["text-embedding-ada-002"] ["gpt-3.5-turbo"; "gpt-4"]))
             w
             (logged ("Warning: Failed to load config file: " ++ err
                      ++ ". Using default and command-line settings.")%string w))
    by (rewrite Hload; reflexivity).
  cbn [Port MinLatency MaxLatency ConfigModels]. unfold defaultPort.
  f_equal. f_equal.
  - destruct (Z.eqb_spec (port flags) 8080); congruence.
  - destruct (Z.eqb_spec (minLatency flags) 0); congruence.
  - destruct (Z.eqb_spec (maxLatency flags) 0); congruence.
Qed.

(** X17.  A flag at its default does not override the file.  When the file
    loads, [main] logs nothing and serves the models of the file; each of
    the port and the two latencies is the one of the flag when the flag
    differs from its default (8080, 0, 0) and the one of the file
    otherwise: [-port 8080] cannot replace the port of a file, nor can a
    zero latency flag switch off a latency of the file. *)
Theorem flags_at_default_do_not_override (flags : Flags) (w : World)
    (loaded : Config) :
  loadConfig (configFile flags) = Got loaded ->
  exists config : Config,
    mainConfig flags w = Ok config w
    /\ ConfigModels config = ConfigModels loaded
    /\ (port flags <> 8080 -> Port config = port flags)
    /\ (port flags = 8080 -> Port config = Port loaded)
    /\ (minLatency flags <> 0 -> MinLatency config = minLatency flags)
    /\ (minLatency flags = 0 -> MinLatency config = MinLatency loaded)
    /\ (maxLatency flags <> 0 -> MaxLatency config = maxLatency flags)
    /\ (maxLatency flags = 0 -> MaxLatency config = MaxLatency loaded).
Proof.
  intros Hload.
  rewrite (mainConfig_overrides flags loaded w w)
    by (rewrite Hload; reflexivity).
  eexists. split; [reflexivity|].
  cbn [Port MinLatency MaxLatency ConfigModels].
  split; [reflexivity|].
  repeat split; intros H.
  - apply Z.eqb_neq in H. rewrite H. reflexivity.
  - rewrite H. reflexivity.
  - apply Z.eqb_neq in H. rewrite H. reflexivity.
  - rewrite H. reflexivity.
  - apply Z.eqb_neq in H. rewrite H. reflexivity.
  - rewrite H. reflexivity.
Qed.

End Configuration.

(* ================================================================== *)
(** * More on the generator: leading NULs, the size of the components *)

Section LeadingNul.

Context {RS : RandSource}.

Lemma hashSeed_nul (s : string) : hashSeed (String Ascii.zero s) = hashSeed s.
Proof.
  unfold hashSeed, runes. cbn [bytes].
  change (Z.of_N (N_of_ascii Ascii.zero)) with 0.
  rewrite decode_step1 by reflexivity.
  unfold foldSeed. cbn [fold_left]. reflexivity.
Qed.

(** X18.  Leading NUL characters are not seen.  The fold starts at 0, so a
    rune [U+0000] at the head of the input leaves the seed at 0: an input
    and the same input after any number of NUL bytes have the same seed
    and receive the same vector, for every dimension. *)
Theorem leading_nul_is_ignored (n : nat) (s : string) (d : Z) :
  hashSeed (Nat.iter n (String Ascii.zero) s) = hashSeed s
  /\ generateMockEmbedding (Nat.iter n (String Ascii.zero) s) d
     = generateMockEmbedding s d.
Proof.
  assert (H : hashSeed (Nat.iter n (String Ascii.zero) s) = hashSeed s).
  { induction n as [|n IH].
    - reflexivity.
    - rewrite Nat.iter_succ, hashSeed_nul. exact IH. }
  split; [exact H|].
  rewrite !generateMockEmbedding_seed, H. reflexivity.
Qed.

End LeadingNul.

Section Components.

Context {RS : RandSource}.

Local Open Scope R_scope.

Lemma square_le_sumsq (vs : list float) (v : float) :
  In v vs -> F2R v * F2R v <= sumsq vs.
Proof.
  induction vs as [|x vs IH]; intros Hin; [destruct Hin|].
  cbn [sumsq fold_right]. fold (sumsq vs).
  pose proof (sumsq_nonneg vs) as Hs.
  destruct Hin as [->|Hin].
  - lra.
  - specialize (IH Hin). nra.
Qed.

Lemma component_le_norm (vs : list float) (v : float) :
  In v vs -> Rabs (F2R v) <= euclideanNorm vs.
Proof.
  intros Hin. unfold euclideanNorm.
  rewrite <- sqrt_Rsqr_abs. apply sqrt_le_1_alt.
  unfold Rsqr. apply square_le_sumsq. exact Hin.
Qed.

(** X19.  The size of the components.  Unless every raw component is zero,
    every component of the vector of 1536 values is a finite number of
    magnitude at most [1 + 10^-12]. *)
Theorem embedding_components_are_bounded (input : string) :
  ~ Forall (fun v => (v =? 0)%float = true) (rawOfSeed (hashSeed input) 1536) ->
  exists e : list float,
    generateMockEmbedding input 1536 = Some e
    /\ Forall (fun v => finite v /\ Rabs (F2R v) <= 1 + / 1000000000000) e.
Proof.
  intros Hnz. rewrite generateMockEmbedding_1536.
  eexists. split; [reflexivity|].
  unfold embeddingOfSeed, normalize.
  set (raw := rawOfSeed (hashSeed input) 1536) in *.
  assert (Hg : Forall good raw) by apply drawRaw_good.
  assert (Hlen : (List.length raw < 2000)%nat).
  { unfold raw, rawOfSeed. rewrite drawRaw_length. lia. }
  assert (Hs : sumsq raw <> 0).
  { intros Hz. apply Hnz. apply sumsq_zero_all; assumption. }
  destruct (unit_norm raw Hg Hlen Hs) as [Hfin Hnorm].
  change (sumLoop raw 0) with (sumSquares raw) in Hfin, Hnorm.
  set (e := map (fun v => (v / PrimFloat.sqrt (sumSquares raw))%float) raw) in *.
  assert (Htol : bpow (-40) <= / 1000000000000).
  { pose proof (bpow_neg_IZR 40 ltac:(lia)) as H. simpl Z.opp in H.
    change (2 ^ 40)%Z with 1099511627776%Z in H.
    pose proof (bpow_pos (-40)) as Hp.
    apply Rmult_le_reg_r with 1000000000000; [lra|].
    rewrite Rinv_l by lra. lra. }
  apply Forall_forall. intros v Hv.
  split; [rewrite Forall_forall in Hfin; apply Hfin; exact Hv|].
  pose proof (component_le_norm e v Hv) as Hc.
  unfold euclideanNorm in Hc.
  apply Rabs_le_inv in Hnorm. lra.
Qed.

End Components.

(* ================================================================== *)
(** * The delay lies between the two latencies *)

Section DelayBounds.

Local Open Scope R_scope.

(** The scaled draw for a span of at most [2^50]: between 0 and the
    span. *)
Lemma scaled_draw_within (D : Z) (u : float) :
  (0 < D <= 2 ^ 50)%Z ->
  (0 <=? u)%float = true -> (u <? 1)%float = true ->
  (0 <= int64_of_float64 (float64_of_int D * u) <= D)%Z.
Proof.
  intros HD Hu0 Hu1.
  assert (HD62 : (0 < D <= 2 ^ 62)%Z).
  { change (2 ^ 50)%Z with 1125899906842624%Z in HD.
    change (2 ^ 62)%Z with 4611686018427387904%Z. lia. }
  destruct (scaled_draw D u HD62 Hu0 Hu1) as ((Hk0 & _) & _).
  split; [exact Hk0|].
  destruct (float64_of_int_R D ltac:(lia)) as (Hfx & Hx).
  destruct (unit_interval u Hu0 Hu1) as (Hfu & HU).
  set (x := float64_of_int D) in *.
  set (X := F2R x) in *. set (U := F2R u) in *. set (Dr := IZR D) in *.
  pose proof eps_val as Hev.
  assert (He0 : 0 < eps) by lra.
  assert (HD1 : 1 <= Dr) by (apply IZR_le; lia).
  assert (HD2 : Dr <= 1125899906842624).
  { apply IZR_le. change (2 ^ 50)%Z with 1125899906842624%Z in HD. lia. }
  set (E := eps * Dr) in *.
  assert (HE1 : E <= / 4).
  { unfold E. replace (/ 4) with (eps * 1125899906842624) by lra.
    apply Rmult_le_compat_l; lra. }
  assert (HE0 : 0 <= E).
  { unfold E. apply Rmult_le_pos; lra. }
  apply Rabs_le_inv in Hx.
  assert (Ht0 : 0 <= X * U).
  { apply Rmult_le_pos; lra. }
  assert (Ht1 : X * U <= X).
  { rewrite <- (Rmult_1_r X) at 2. apply Rmult_le_compat_l; lra. }
  assert (Hbig : Rabs (X * U) <= bpow 1022).
  { rewrite Rabs_pos_eq by exact Ht0.
    pose proof (bpow_le 51 1022 ltac:(lia)) as Hb.
    rewrite (bpow_IZR 51) in Hb by lia.
    change (2 ^ 51)%Z with 2251799813685248%Z in Hb. lra. }
  destruct (mul_weak_R x u Hfx Hfu Hbig) as (Hfp & Herr & _).
  fold X U in Herr.
  set (P := F2R (x * u)%float) in *.
  rewrite (Rabs_pos_eq (X * U)) in Herr by exact Ht0.
  assert (Htiny : bpow (-1074) <= / 8).
  { pose proof (bpow_le (-1074) (-52) ltac:(lia)) as Ha. fold eps in Ha. lra. }
  assert (HeE : eps * (X * U) <= / 4 + / 8).
  { assert (eps * (X * U) <= eps * (Dr + E)).
    { apply Rmult_le_compat_l; lra. }
    assert (eps * E <= eps * 1).
    { apply Rmult_le_compat_l; lra. }
    unfold E in *. lra. }
  apply Rabs_le_inv in Herr.
  assert (HP : P < Dr + 1) by lra.
  assert (HP63 : Rabs P < bpow 63).
  { rewrite (bpow_IZR 63) by lia.
    change (2 ^ 63)%Z with 9223372036854775808%Z.
    apply Rabs_def1; lra. }
  destruct (int64_of_float64_R (x * u)%float Hfp HP63) as (Hnn & Hnp).
  fold P in Hnn, Hnp.
  set (k := int64_of_float64 (x * u)%float) in *.
  destruct (Rle_dec 0 P) as [Hs|Hs].
  - destruct (Hnn Hs) as (_ & Hk1 & _).
    assert (Hlt : (k < D + 1)%Z).
    { apply lt_IZR. rewrite plus_IZR. fold Dr. lra. }
    lia.
  - assert (Hneg : P <= 0) by lra.
    destruct (Hnp Hneg) as (Hk & _). lia.
Qed.

Context {RS : RandSource}.

(** X20.  The delay lies between the two latencies.  For a positive minimum
    and a maximum at most [2^50] ns (some 13 days) above it, the request
    sleeps exactly once, for a whole number of nanoseconds between the
    minimum and the maximum, both included; for a maximum that is not
    above the minimum it sleeps for the minimum. *)
Theorem delay_lies_between_the_latencies {A : Type}
    (min max : Z) (next : M A) (w : World) :
  (0 < min)%Z -> in_int64 max -> (max - min <= 2 ^ 50)%Z ->
  exists (d : Z) (g : rng),
    simulateLatencyMiddleware min max next w = next (slept d g w)
    /\ (min <= d <= Z.max min max)%Z.
Proof.
  intros Hmin Hmax Hspan.
  unfold simulateLatencyMiddleware, bind.
  replace (0 <? min)%Z with true by (symmetry; apply Z.ltb_lt; lia).
  destruct (min <? max)%Z eqn:E.
  - apply Z.ltb_lt in E. unfold rand_Float64.
    pose proof (Float64_range (globalRand w)) as [H0 H1].
    destruct (Float64 (globalRand w)) as [u g]. cbn [fst] in H0, H1.
    unfold in_int64 in Hmax.
    assert (Hsub : sub64 max min = (max - min)%Z).
    { unfold sub64. apply wrap64_id. unfold in_int64. lia. }
    rewrite Hsub.
    destruct (scaled_draw_within (max - min) u ltac:(lia) H0 H1) as [Hk0 Hk1].
    set (k := int64_of_float64 (float64_of_int (max - min) * u)%float) in *.
    assert (Hadd : add64 min k = (min + k)%Z).
    { unfold add64. apply wrap64_id. unfold in_int64. lia. }
    exists (min + k)%Z, g. unfold ret. rewrite Hadd.
    split; [reflexivity | lia].
  - apply Z.ltb_ge in E. exists min, (globalRand w).
    split; [reflexivity | lia].
Qed.

End DelayBounds.

(* ================================================================== *)
(** * The theorems at concrete requests *)

Lemma chat_usage_witness :
  exists (r : ChatCompletionResponse) (w' : World (RS := tableSource)),
    handleChatCompletions (mkChatRequest "gpt-4" nil_slice) None config0 world0
    = Ok (mkResponse 200 (ChatBody r)) w'
    /\ totalLen (map Content (effectiveMessages (mkChatRequest "gpt-4" nil_slice)))
       < 2 ^ 63 - 80
    /\ PromptTokens (Usage r) = 1
    /\ CompletionTokens (Usage r) = 20
    /\ TotalTokens (Usage r) = PromptTokens (Usage r) + 20.
Proof.
  destruct (chat_accepted (RS := tableSource) (mkChatRequest "gpt-4" nil_slice)
              None config0 world0 eq_refl) as (id & w' & Hrun & _).
  eexists. exists w'. split; [exact Hrun|]. split; [reflexivity|].
  destruct (chat_usage (RS := tableSource) (mkChatRequest "gpt-4" nil_slice)
              None config0 world0 w' _ _ Hrun eq_refl)
    as (_ & _ & Hc & Ht & Hnil).
  destruct (Hnil eq_refl) as [_ Hp].
  split; [exact Hp|]. split; [exact Hc | exact Ht].
Defined.

Lemma latency_is_resolved_witness :
  exists (u : float) (g : nat) (d : Z),
    Float64 (RandSource := tableSource) (globalRand world0) = (u, g)
    /\ simulateLatencyMiddleware (RS := tableSource)
         100000000 300000000 (ret tt) world0
       = ret tt (slept (RS := tableSource) d g world0)
    /\ 100000000 <= d
    /\ (Rabs (IZR d - (IZR 100000000 + F2R u * IZR (300000000 - 100000000)))
        <= 1 + 3 * eps * IZR (300000000 - 100000000))%R.
Proof.
  destruct (latency_is_resolved (RS := tableSource) 100000000 300000000 (ret tt) world0)
    as (_ & H & _).
  - lia.
  - unfold in_int64. lia.
  - unfold in_int64. lia.
  - destruct H as (u & g & d & Hd & _ & _ & _ & Hrun & Hreal); [lia | lia |].
    destruct Hreal as (Hlo & Herr); [lia|].
    exists u, g, d. split; [exact Hd|]. split; [exact Hrun|].
    split; [exact Hlo | exact Herr].
Defined.

Lemma model_validation_trichotomy_witness :
  (exists b w',
      handleChatCompletions (RS := tableSource)
        (mkChatRequest "gpt-4" nil_slice) None config0 world0
      = Ok (mkResponse 200 b) w')
  /\ (exists err w',
         handleEmbeddings (RS := tableSource)
           (mkEmbeddingRequest "gpt-4" nil_slice) None config0 world0
         = Ok (mkResponse 400 (ErrorBody err)) w'
         /\ lookup "code" err = Some "model_not_found"
         /\ lookup "message" err = Some "The model 'gpt-4' does not exist").
Proof.
  destruct (model_validation_trichotomy (RS := tableSource) config0 None world0)
    as [Hchat Hemb].
  split.
  - destruct (Hchat (mkChatRequest "gpt-4" nil_slice)) as (H & _ & _).
    apply H; [discriminate | simpl; auto].
  - destruct (Hemb (mkEmbeddingRequest "gpt-4" nil_slice)) as (_ & H & _).
    destruct H as (err & w' & Hrun & Hcode & _ & _ & Hmsg).
    + discriminate.
    + simpl. intros [H|[]]. discriminate H.
    + exists err, w'. repeat split; assumption.
Defined.

Lemma defaults_only_for_nil_witness :
  (exists r w',
      handleChatCompletions (RS := tableSource)
        (mkChatRequest "" (mk_slice [])) None config0 world0
      = Ok (mkResponse 200 (ChatBody r)) w'
      /\ PromptTokens (Usage r) = 0)
  /\ (exists r w',
         handleEmbeddings (RS := tableSource)
           (mkEmbeddingRequest "" (mk_slice [])) None config0 world0
         = Ok (mkResponse 200 (EmbeddingBody r)) w'
         /\ Data r = []).
Proof.
  destruct (defaults_only_for_nil (RS := tableSource) None config0 world0)
    as [Hchat Hemb].
  split.
  - destruct (Hchat "" eq_refl) as [(r & w' & Hrun & _ & Hp & _) _].
    exists r, w'. split; assumption.
  - destruct (Hemb "" eq_refl) as [(r & w' & Hrun & Hd & _) _].
    exists r, w'. split; assumption.
Defined.

Lemma embedding_has_1536_values_witness :
  exists e, generateMockEmbedding (RS := tableSource) "food" 7 = Some e
            /\ Z.of_nat (List.length e) = 7.
Proof.
  destruct (embedding_has_1536_values (RS := tableSource)) as (_ & _ & H & _).
  apply H. lia.
Defined.

Lemma embedding_depends_on_seed_only_witness :
  hashSeed "Aa" = hashSeed "BB"
  /\ generateMockEmbedding (RS := tableSource) "Aa" 1536
     = generateMockEmbedding (RS := tableSource) "BB" 1536.
Proof.
  destruct (embedding_depends_on_seed_only (RS := tableSource)) as (H & _).
  split; [reflexivity|]. apply H. reflexivity.
Defined.

Lemma seed_is_the_wrapping_31_fold_witness :
  Forall scalar [0x48; 0xE9; 0x20AC; 0x1F600]
  /\ hashSeed (string_of_bytes (encodeRunes [0x48; 0xE9; 0x20AC; 0x1F600]))
     = foldSeed [0x48; 0xE9; 0x20AC; 0x1F600].
Proof.
  assert (H : Forall scalar [0x48; 0xE9; 0x20AC; 0x1F600]).
  { repeat constructor;
      unfold maxRune, surrogateMin, surrogateMax; lia. }
  split; [exact H|].
  destruct (seed_is_the_wrapping_31_fold (RS := tableSource))
    as (_ & _ & _ & _ & Hs).
  apply (Hs _ H).
Defined.

Lemma embedding_is_deterministic_witness :
  exists e, forall (msg : string) (w : World (RS := tableSource)),
      call (generateMockEmbedding (RS := tableSource) "food was delicious" 1536)
           msg w = Ok e w.
Proof.
  destruct (embedding_is_deterministic (RS := tableSource)) as (_ & _ & H & _).
  apply H. lia.
Defined.

Lemma embedding_has_unit_norm_witness :
  exists e,
    generateMockEmbedding (RS := tableSource) "food was delicious" 1536 = Some e
    /\ Forall finite e
    /\ (Rabs (euclideanNorm e - 1) <= / 1000000000000)%R.
Proof.
  destruct (embedding_has_unit_norm (RS := tableSource) "food was delicious")
    as (_ & _ & _ & H).
  apply H. intros Hall.
  assert (E : exists v tl,
             rawOfSeed (RS := tableSource) (hashSeed "food was delicious") 1536
             = v :: tl /\ (v =? 0)%float = false).
  { vm_compute. do 2 eexists. split; reflexivity. }
  destruct E as (v & tl & E & Hv). rewrite E in Hall.
  inversion Hall as [|v' tl' Hz _]. congruence.
Defined.

(* ================================================================== *)
(** * The further theorems at concrete requests *)

Lemma randomID_draws_alphanumerics_witness :
  exists (s : string) (g : nat),
    randomID (RS := tableSource) 29 world0
    = Ok s (withRand (RS := tableSource) g world0)
    /\ len s = 29
    /\ Forall (fun a => alphanumeric a = true) (list_ascii_of_string s).
Proof.
  destruct (randomID_draws_alphanumerics (RS := tableSource) 29 world0)
    as [H _].
  destruct H as (s & g & Hrun & _ & Hlen & Hall); [lia|].
  exists s, g. split; [exact Hrun|]. split; [exact Hlen | exact Hall].
Defined.

Lemma chat_completion_id_witness :
  exists (r : ChatCompletionResponse) (id : string) (w' : World (RS := tableSource)),
    handleChatCompletions (RS := tableSource)
      (mkChatRequest "gpt-4" nil_slice) None config0 world0
    = Ok (mkResponse 200 (ChatBody r)) w'
    /\ ID r = ("chatcmpl-" ++ id)%string
    /\ len id = 29
    /\ Forall (fun a => alphanumeric a = true) (list_ascii_of_string id)
    /\ Created r = 1700000000.
Proof.
  destruct (chat_completion_id (RS := tableSource)
              (mkChatRequest "gpt-4" nil_slice) None config0 world0)
    as [H _].
  destruct H as (r & id & g & Hrun & Hid & _ & Hlen & Hall & Hc);
    [reflexivity|].
  exists r, id. eexists. split; [exact Hrun|].
  split; [exact Hid|]. split; [exact Hlen|]. split; [exact Hall | exact Hc].
Defined.

Lemma reply_names_the_model_witness :
  exists (r : ChatCompletionResponse) (w' : World (RS := tableSource)),
    handleChatCompletions (RS := tableSource)
      (mkChatRequest "" nil_slice) None config0 world0
    = Ok (mkResponse 200 (ChatBody r)) w'
    /\ ChatRespModel r = "gpt-3.5-turbo".
Proof.
  destruct (chat_accepted (RS := tableSource) (mkChatRequest "" nil_slice) None
              config0 world0 eq_refl) as (id & w' & Hrun & _).
  destruct (reply_names_the_model (RS := tableSource) None config0 world0
              w' 200) as [H _].
  destruct (H (mkChatRequest "" nil_slice) _ Hrun) as [_ Hem].
  do 2 eexists. split; [exact Hrun|].
  apply Hem. reflexivity.
Defined.

Lemma embeddings_entries_witness :
  exists (r : EmbeddingResponse) (w' : World (RS := tableSource))
         (entry : EmbeddingData),
    handleEmbeddings (RS := tableSource)
      (boundEmbedding context0) None config0 world0
    = Ok (mkResponse 200 (EmbeddingBody r)) w'
    /\ nth_error (Data r) 1 = Some entry
    /\ DataIndex entry = 1
    /\ generateMockEmbedding (RS := tableSource) "bcde" 1536
       = Some (elems (DataEmbedding entry)).
Proof.
  destruct (embeddings_accepted (RS := tableSource)
              (boundEmbedding context0) None config0 world0 eq_refl)
    as (p & t & Hrun & _).
  destruct (embeddings_entries (RS := tableSource) _ _ _ _ _ _ _ Hrun)
    as [_ Hent].
  destruct (Hent 1%nat "bcde" eq_refl) as (entry & Hn & Hi & _ & _ & Hv).
  do 3 eexists. split; [exact Hrun|].
  split; [exact Hn|]. split; [exact Hi | exact Hv].
Defined.

Lemma embeddings_usage_witness :
  exists (r : EmbeddingResponse) (w' : World (RS := tableSource)),
    handleEmbeddings (RS := tableSource)
      (boundEmbedding context0) None config0 world0
    = Ok (mkResponse 200 (EmbeddingBody r)) w'
    /\ EmbTotalTokens (EmbUsage r) = EmbPromptTokens (EmbUsage r)
    /\ EmbPromptTokens (EmbUsage r) = 1.
Proof.
  destruct (embeddings_accepted (RS := tableSource)
              (boundEmbedding context0) None config0 world0 eq_refl)
    as (p & t & Hrun & _).
  destruct (embeddings_usage (RS := tableSource) _ _ _ _ _ _ _ Hrun)
    as [Heq Hsum].
  do 2 eexists. split; [exact Hrun|]. split; [exact Heq|].
  apply Hsum. vm_compute. reflexivity.
Defined.

Lemma token_estimate_bounds_witness :
  5 - 3 * 1 <= 4 * calculateTokens (mk_slice [mkMessage "user" "Hello"]) <= 5.
Proof.
  destruct (token_estimate_bounds [mkMessage "user" "Hello"]) as [H _].
  - vm_compute. reflexivity.
  - exact H.
Defined.

Lemma models_entries_witness :
  exists r : ModelsResponse,
    handleModels (RS := tableSource) config0 world0 = Ok (200, r) world0
    /\ Forall (fun d => ModelObject d = "model"
                        /\ OwnedBy d = "openai"
                        /\ ModelCreated d = 1700000000 - 2592000)
              (elems (ModelsData r)).
Proof.
  eexists. split; [reflexivity|].
  apply (models_entries (RS := tableSource) config0 world0 world0 200).
  - vm_compute. split; [discriminate | reflexivity].
  - reflexivity.
Defined.

Lemma listed_iff_accepted_witness :
  exists r : ModelsResponse,
    handleModels (RS := tableSource) config0 world0 = Ok (200, r) world0
    /\ (In "gpt-4" (map ModelID (elems (ModelsData r)))
        <-> (forall (messages : slice ChatCompletionMessage)
                    (bindErr : option string) (w1 : World (RS := tableSource)),
                exists b w2,
                  handleChatCompletions (mkChatRequest "gpt-4" messages)
                    bindErr config0 w1
                  = Ok (mkResponse 200 b) w2)
            \/ (forall (input : slice string) (bindErr : option string)
                       (w1 : World (RS := tableSource)),
                   exists b w2,
                     handleEmbeddings (mkEmbeddingRequest "gpt-4" input)
                       bindErr config0 w1
                     = Ok (mkResponse 200 b) w2)).
Proof.
  eexists. split; [reflexivity|].
  apply (listed_iff_accepted (RS := tableSource) config0 world0 world0 200).
  - reflexivity.
  - discriminate.
Defined.

Lemma every_route_is_delayed_once_witness :
  exists (written : Written) (w' : World (RS := tableSource)) (d : Z),
    HandlerFunc (nth 2 (setupRouter (RS := tableSource) config1)
                     (mkRoute "" "" (fun _ => panic "no route")))
      context0 world0
    = Ok written w'
    /\ sleeps w' = [d]
    /\ clock w' = clock world0 + Z.max d 0.
Proof.
  destruct (every_route_is_delayed_once (RS := tableSource) config1)
    as [_ H].
  destruct (H (nth 2 (setupRouter (RS := tableSource) config1)
                   (mkRoute "" "" (fun _ => panic "no route")))
              context0 world0)
    as (written & w' & Hrun & _ & Hd).
  - right. right. left. reflexivity.
  - destruct Hd as (d & Hs & Hc & _); [reflexivity|].
    exists written, w', d. split; [exact Hrun|]. split; [exact Hs | exact Hc].
Defined.

Lemma completion_is_stamped_after_the_delay_witness :
  exists (d : Z) (r : ChatCompletionResponse) (w' : World (RS := tableSource)),
    HandlerFunc (nth 0 (setupRouter (RS := tableSource) config1)
                     (mkRoute "" "" (fun _ => panic "no route")))
      context0 world0
    = Ok (WrittenJSON (mkResponse 200 (ChatBody r))) w'
    /\ sleeps w' = [d]
    /\ Created r = (clock world0 + Z.max d 0) / 1000000000.
Proof.
  destruct (completion_is_stamped_after_the_delay (RS := tableSource) config1
              (nth 0 (setupRouter (RS := tableSource) config1)
                   (mkRoute "" "" (fun _ => panic "no route")))
              context0 world0)
    as (d & g & r & w' & Hrun & Hs & Hc & _).
  - left. reflexivity.
  - reflexivity.
  - reflexivity.
  - reflexivity.
  - exists d, r, w'. split; [exact Hrun|]. split; [exact Hs | exact Hc].
Defined.

Lemma loadConfig_succeeds_iff_witness :
  loadConfig (PF := tablePlatform) "config.json"
  = Got (mkConfig 9000 200000000 500000000
           (mkModels ["text-embedding-3-small"] ["gpt-4-turbo"]))
  /\ loadConfig (PF := tablePlatform) "broken.json"
     = Err "invalid min_latency: time: invalid duration ".
Proof.
  destruct (loadConfig_succeeds_iff (PF := tablePlatform) "config.json"
              (mkConfig 9000 200000000 500000000
                 (mkModels ["text-embedding-3-small"] ["gpt-4-turbo"])))
    as [[_ Hyes] _].
  destruct (loadConfig_succeeds_iff (PF := tablePlatform) "broken.json"
              (mkConfig 0 0 0 (mkModels [] []))) as [_ Hno].
  split.
  - apply Hyes. right. split; [discriminate|].
    do 2 eexists. repeat split; reflexivity.
  - apply (Hno (mkConfigFile 9000 "" "500ms"
                  (mkModels ["text-embedding-3-small"] ["gpt-4-turbo"]))
               (mkConfigFile 9000 "" "500ms"
                  (mkModels ["text-embedding-3-small"] ["gpt-4-turbo"]))
               "time: invalid duration ");
      [discriminate | reflexivity | reflexivity | reflexivity].
Defined.

Lemma without_config_file_no_model_is_served_witness :
  exists config : Config,
    mainConfig (RS := tableSource) (PF := tablePlatform)
      (mkFlags 8080 0 0 "") world0
    = Ok config world0
    /\ Port config = 0
    /\ ConfigModels config = mkModels [] []
    /\ exists r w2,
        handleChatCompletions (RS := tableSource)
          (mkChatRequest "gpt-4" nil_slice) None config world0 = Ok r w2
        /\ status r = 400.
Proof.
  destruct (without_config_file_no_model_is_served (RS := tableSource)
              (PF := tablePlatform) (mkFlags 8080 0 0 "") world0 eq_refl)
    as (config & Hrun & Hport & _ & _ & Hmodels & Hchat & _).
  exists config. split; [exact Hrun|]. split; [exact Hport|].
  split; [exact Hmodels|].
  apply Hchat. discriminate.
Defined.

Lemma failed_load_serves_the_defaults_witness :
  exists w' : World (RS := tableSource),
    mainConfig (RS := tableSource) (PF := tablePlatform)
      (mkFlags 8080 0 0 "broken.json") world0
    = Ok (mkConfig 8080 0 0
            (mkModels ["text-embedding-ada-002"] ["gpt-3.5-turbo"; "gpt-4"]))
         w'.
Proof.
  eexists.
  apply (failed_load_serves_the_defaults (RS := tableSource)
           (PF := tablePlatform) (mkFlags 8080 0 0 "broken.json") world0).
  reflexivity.
Defined.

Lemma flags_at_default_do_not_override_witness :
  exists config : Config,
    mainConfig (RS := tableSource) (PF := tablePlatform)
      (mkFlags 8080 0 1000000000 "config.json") world0
    = Ok config world0
    /\ Port config = 9000
    /\ MinLatency config = 200000000
    /\ MaxLatency config = 1000000000.
Proof.
  destruct (flags_at_default_do_not_override (RS := tableSource)
              (PF := tablePlatform)
              (mkFlags 8080 0 1000000000 "config.json") world0
              (mkConfig 9000 200000000 500000000
                 (mkModels ["text-embedding-3-small"] ["gpt-4-turbo"]))
              eq_refl)
    as (config & Hrun & _ & _ & Hport & _ & Hmin & Hmax & _).
  exists config. split; [exact Hrun|].
  split; [apply Hport; reflexivity|].
  split; [apply Hmin; reflexivity | apply Hmax; discriminate].
Defined.

Lemma embedding_components_are_bounded_witness :
  exists e,
    generateMockEmbedding (RS := tableSource) "food was delicious" 1536 = Some e
    /\ Forall (fun v => finite v
                        /\ (Rabs (F2R v) <= 1 + / 1000000000000)%R) e.
Proof.
  apply (embedding_components_are_bounded (RS := tableSource)
           "food was delicious").
  intros Hall.
  assert (E : exists v tl,
             rawOfSeed (RS := tableSource) (hashSeed "food was delicious") 1536
             = v :: tl /\ (v =? 0)%float = false).
  { vm_compute. do 2 eexists. split; reflexivity. }
  destruct E as (v & tl & E & Hv). rewrite E in Hall.
  inversion Hall as [|v' tl' Hz _]. congruence.
Defined.

Lemma delay_lies_between_the_latencies_witness :
  exists (d : Z) (g : nat),
    simulateLatencyMiddleware (RS := tableSource)
      100000000 300000000 (ret tt) world0
    = ret tt (slept (RS := tableSource) d g world0)
    /\ 100000000 <= d <= 300000000.
Proof.
  destruct (delay_lies_between_the_latencies (RS := tableSource)
              100000000 300000000 (ret tt) world0)
    as (d & g & Hrun & Hd).
  - lia.
  - unfold in_int64. lia.
  - lia.
  - exists d, g. split; [exact Hrun | exact Hd].
Defined.
